(** * riftvanta/numbers: the phone-number validators, embedded and verified

  A shallow embedding of the four validator variants of the repository
  (the single-session [WhatsAppValidator], the chunked
  [MultiWhatsAppValidator], the rate-limited [SafeWhatsAppValidator] and
  the concurrent [OptimizedWhatsAppValidator]) together with the
  properties the specification states about them.

  Conventions of the embedding:
  - a JavaScript string is a [string] (a sequence of 8-bit characters);
    every operation the validators apply to strings only inspects the
    ASCII digits and letters, every other character is opaque to them;
  - JavaScript numbers that hold counts, indices and millisecond clock
    readings are [nat] or [Z]; the two places where the source multiplies
    by a [Math.random()] draw use exact rationals ([Q]);
  - [await] points are the only places where control can change hands, so
    code between two [await]s is one atomic step. *)

From stdpp Require Import base gmap sets list strings.
From Stdlib Require Import Ascii ZArith Lia QArith Qround Lqa.

Local Open Scope Z_scope.

(** ** JavaScript string primitives used by the validators *)
Module Js.

(** [\d] of a JavaScript regular expression without the [u] flag. *)
Definition is_digit (c : ascii) : bool :=
  let n := nat_of_ascii c in ((48 <=? n) && (n <=? 57))%nat.

(** [s.replace(/[^\d]/g, '')] *)
Fixpoint replace_non_digits (s : string) : string :=
  match s with
  | EmptyString => EmptyString
  | String c s' =>
      if is_digit c then String c (replace_non_digits s')
      else replace_non_digits s'
  end.

(** [s.startsWith(p)] *)
Fixpoint startsWith (p s : string) : bool :=
  match p, s with
  | EmptyString, _ => true
  | String a p', String b s' => if decide (a = b) then startsWith p' s' else false
  | String _ _, EmptyString => false
  end.

(** [s.substring(n)]: the characters from index [n] on, empty when [n]
    is past the end. *)
Fixpoint substring (n : nat) (s : string) : string :=
  match n, s with
  | O, _ => s
  | S n', String _ s' => substring n' s'
  | S _, EmptyString => EmptyString
  end.

(** [s.includes(p)] *)
Fixpoint includes (p s : string) : bool :=
  startsWith p s ||
  match s with
  | EmptyString => false
  | String _ s' => includes p s'
  end.

(** [c.toLowerCase()] on one ASCII character. *)
Definition lower_char (c : ascii) : ascii :=
  let n := nat_of_ascii c in
  if ((65 <=? n) && (n <=? 90))%nat then ascii_of_nat (n + 32) else c.

(** [s.toLowerCase()] *)
Fixpoint toLowerCase (s : string) : string :=
  match s with
  | EmptyString => EmptyString
  | String c s' => String (lower_char c) (toLowerCase s')
  end.

(** Truthiness of a string value: only [''] is falsy. *)
Definition truthy_string (s : string) : bool :=
  match s with EmptyString => false | _ => true end.

(** [a % b === 0] on integers; [a % 0] is [NaN], which is never [0]. *)
Definition rem_is_zero (a b : Z) : bool :=
  if b =? 0 then false else Z.rem a b =? 0.

End Js.

(** ** The identifier normalization shared by the validators *)
Module Normalize.

(** The two lines every validator repeats:
<<
    const formattedNumber = number.replace(/[^\d]/g, '');
    const whatsappId = formattedNumber.startsWith('962')
        ? `${formattedNumber}@c.us`
        : `962${formattedNumber.substring(1)}@c.us`;
>>
*)
Definition whatsappId (number : string) : string :=
  let formattedNumber := Js.replace_non_digits number in
  if Js.startsWith "962" formattedNumber
  then formattedNumber +:+ "@c.us"
  else "962" +:+ Js.substring 1 formattedNumber +:+ "@c.us".

(** The normalization of [csv_to_xlsx.js], which also strips the
    non-digits but distinguishes the trunk prefix from a bare number:
<<
    let phoneNumber = row.number.replace(/[^\d]/g, '');
    if (phoneNumber.startsWith('0')) {
        phoneNumber = '962' + phoneNumber.substring(1);
    } else if (!phoneNumber.startsWith('962')) {
        phoneNumber = '962' + phoneNumber;
    }
>>
*)
Definition xlsx_phoneNumber (number : string) : string :=
  let phoneNumber := Js.replace_non_digits number in
  if Js.startsWith "0" phoneNumber then "962" +:+ Js.substring 1 phoneNumber
  else if negb (Js.startsWith "962" phoneNumber) then "962" +:+ phoneNumber
  else phoneNumber.

(** *** The rule in the words of the specification *)

Definition chars_of : string -> list ascii := String.list_ascii_of_string.
Definition of_chars : list ascii -> string := String.string_of_list_ascii.

(** "strip all non-digit characters from the raw number" *)
Definition digits_of (x : string) : list ascii :=
  filter (λ c, Js.is_digit c = true) (chars_of x).

(** "if the remaining digits already start with the country prefix 962,
    use as-is; otherwise, drop the leading digit and prepend 962" *)
Definition normalize_spec (x : string) : string :=
  let d := digits_of x in
  if decide (take 3 d = chars_of "962") then of_chars d
  else of_chars (chars_of "962" ++ drop 1 d).

(** The normalized identifier a validator computes: its [whatsappId]
    without the transport suffix. *)
Definition normalize (x : string) : string :=
  let formattedNumber := Js.replace_non_digits x in
  if Js.startsWith "962" formattedNumber then formattedNumber
  else "962" +:+ Js.substring 1 formattedNumber.

(** A string that holds digits only. *)
Definition all_digits (s : string) : Prop :=
  Forall (λ c, Js.is_digit c = true) (chars_of s).

End Normalize.

(** ** Effects: a state monad with JavaScript exceptions *)
Module Eff.

(** A thrown value: an [Error] with its [message] ([None] when the
    thrown value carries no message). *)
Record error := Error { message : option string }.

(** How the evaluation of a statement ends. *)
Inductive completion (A : Type) :=
| Normal (a : A)
| Throw (e : error).
Arguments Normal {A} a.
Arguments Throw {A} e.

(** A computation over a world [W]: state changes made before a [throw]
    stay in place, as in JavaScript. *)
Definition M (W A : Type) : Type := W → completion A * W.

Definition ret {W A} (a : A) : M W A := λ w, (Normal a, w).

Definition bind {W A B} (m : M W A) (k : A → M W B) : M W B :=
  λ w, match m w with
       | (Normal a, w') => k a w'
       | (Throw e, w') => (Throw e, w')
       end.

Definition throw {W A} (e : error) : M W A := λ w, (Throw e, w).

(** [try { body } catch (error) { handler(error) }] *)
Definition try_catch {W A} (body : M W A) (handler : error → M W A) : M W A :=
  λ w, match body w with
       | (Normal a, w') => (Normal a, w')
       | (Throw e, w') => handler e w'
       end.

Definition get {W} : M W W := λ w, (Normal w, w).
Definition gets {W A} (f : W → A) : M W A := λ w, (Normal (f w), w).
Definition modify {W} (f : W → W) : M W unit := λ w, (Normal tt, f w).

(** [if (c) { m }] *)
Definition when {W} (c : bool) (m : M W unit) : M W unit :=
  if c then m else ret tt.

(** The outcome of awaiting a transport call, and how long it took. *)
Record reply (A : Type) := Reply { outcome : completion A; took : Z }.
Arguments Reply {A} outcome took.
Arguments outcome {A} r.
Arguments took {A} r.

(** [TypeError: number.replace is not a function] *)
Definition not_a_function : error :=
  Error (Some "number.replace is not a function").

End Eff.

Declare Scope eff_scope.
Delimit Scope eff_scope with eff.
Notation "'let*' x ':=' m 'in' k" := (Eff.bind m (λ x, k))
(at level 10, x name, m at level 100, k at level 200) : eff_scope.
Notation "m ';;' k" := (Eff.bind m (λ _, k))
(at level 100, k at level 200, right associativity) : eff_scope.

(** ** Input items *)
Module Input.

(** An element of the [numbers] array handed to a validator: either a
    bare string or a row object with a [number] field, as produced by
    the CSV loader.  [ref] is the identity of the object: a JavaScript
    [Set] compares objects by reference. *)
Inductive item :=
| Str (s : string)
| Row (ref : nat) (number : string).

Global Instance item_eq_dec : EqDecision item.
Proof. solve_decision. Defined.

Global Instance item_countable : Countable item :=
  inj_countable'
    (λ it, match it with Str s => inl s | Row r n => inr (r, n) end)
    (λ x, match x with inl s => Str s | inr (r, n) => Row r n end)
    (λ it, match it with Str _ => eq_refl | Row _ _ => eq_refl end).

(** Truthiness: an object is truthy, a string is truthy unless empty. *)
Definition truthy (it : item) : bool :=
  match it with
  | Str s => Js.truthy_string s
  | Row _ _ => true
  end.

(** [numberObj.number || numberObj]: a string has no [number] property;
    a row with an empty [number] yields the row itself. *)
Definition number_of (numberObj : item) : item :=
  match numberObj with
  | Str s => Str s
  | Row r n => if Js.truthy_string n then Str n else Row r n
  end.

(** [number.replace(/[^\d]/g, '')], a [TypeError] when [number] is not
    a string. *)
Definition replace_non_digits {W} (number : item) : Eff.M W string :=
  match number with
  | Str s => Eff.ret (Js.replace_non_digits s)
  | Row _ _ => Eff.throw Eff.not_a_function
  end.

Inductive status := success | error.

Global Instance status_eq_dec : EqDecision status.
Proof. solve_decision. Defined.

End Input.

(** ** [MultiWhatsAppValidator]: chunked multi-session validator *)
Module Multi.
Import Eff Input.
Local Open Scope eff_scope.

Record session := Session {
  id : nat; ready : bool; busy : bool;
  checked : nat; verified : nat; errors : nat }.

Record result := Result {
  number : item; whatsapp_id : string; is_registered : bool;
  has_profile_pic : bool; checked_at : Z; status : Input.status;
  error : option string; session_id : nat }.

(** [session.client]: the [n]-th call made through the client answers
    with the given reply. *)
Record client := Client {
  isRegisteredUser : nat → string → reply bool;
  getProfilePicUrl : nat → string → reply (option string) }.

(** What a call to [validateNumber] can read and change: the clock, the
    number of client calls made so far, and the session object. *)
Record world := World { now : Z; calls : nat; sess : session }.

Definition M := Eff.M world.

(** [await] of a client call: time passes, the call returns or throws. *)
Definition await_call {A} (r : reply A) : M A :=
  λ w, (outcome r, World (now w + took r) (S (calls w)) (sess w)).

Definition call_isRegisteredUser (c : client) (whatsappId : string) : M bool :=
  let* w := get in await_call (isRegisteredUser c (calls w) whatsappId).

Definition call_getProfilePicUrl (c : client) (whatsappId : string)
  : M (option string) :=
  let* w := get in await_call (getProfilePicUrl c (calls w) whatsappId).

(** [session.errors++] *)
Definition count_error : M unit :=
  modify (λ w, World (now w) (calls w)
    (let s := sess w in
     Session (id s) (ready s) (busy s) (checked s) (verified s) (S (errors s)))).

(** [!!picUrl] *)
Definition truthy_url (u : option string) : bool :=
  match u with Some s => Js.truthy_string s | None => false end.

Definition validateNumber (c : client) (number : item) : M result :=
  try_catch
    (let* formattedNumber := Input.replace_non_digits number in
     let whatsappId :=
       if Js.startsWith "962" formattedNumber
       then formattedNumber +:+ "@c.us"
       else "962" +:+ Js.substring 1 formattedNumber +:+ "@c.us" in
     let* isRegistered := call_isRegisteredUser c whatsappId in
     let* profilePic :=
       if isRegistered
       then try_catch
              (let* picUrl := call_getProfilePicUrl c whatsappId in
               ret (truthy_url picUrl))
              (λ _, ret false)
       else ret false in
     let* w := get in
     ret (Result number whatsappId isRegistered profilePic (now w)
            Input.success None (id (sess w))))
    (λ e,
     count_error ;;
     let* w := get in
     ret (Result number "" false false (now w) Input.error (message e)
            (id (sess w)))).

End Multi.

(** ** [SafeWhatsAppValidator]: rate-limited validator with pauses *)
Module Safe.
Import Eff Input.
Local Open Scope eff_scope.

Record options := Options {
  sessions : nat; checkDelay : Z; batchSize : Z; breakDuration : Z;
  sessionDelay : Z; maxChecksPerHour : Z }.

(** The argument of the constructor: a key is absent ([None]) or holds a
    number. *)
Record constructor_options := ConstructorOptions {
  given_sessions : option nat; given_checkDelay : option Z;
  given_batchSize : option Z; given_breakDuration : option Z;
  given_sessionDelay : option Z; given_maxChecksPerHour : option Z }.

(** [options.k || d] *)
Definition or_default (given : option Z) (d : Z) : Z :=
  match given with
  | Some v => if v =? 0 then d else v
  | None => d
  end.

Definition or_default_nat (given : option nat) (d : nat) : nat :=
  match given with
  | Some (S n) => S n
  | _ => d
  end.

(** [{ k: v, ...options }]: a key present in [options] overrides [v]. *)
Definition spread {A} (given : option A) (v : A) : A :=
  match given with Some g => g | None => v end.

Definition constructor (c : constructor_options) : options :=
  Options
    (spread (given_sessions c) (or_default_nat (given_sessions c) 1))
    (spread (given_checkDelay c) (or_default (given_checkDelay c) 600))
    (spread (given_batchSize c) (or_default (given_batchSize c) 100))
    (spread (given_breakDuration c) (or_default (given_breakDuration c) 5000))
    (spread (given_sessionDelay c) (or_default (given_sessionDelay c) 2000))
    (spread (given_maxChecksPerHour c)
       (or_default (given_maxChecksPerHour c) 3000)).

Record session := Session {
  id : nat; ready : bool; busy : bool;
  checked : nat; verified : nat; errors : nat;
  lastCheckTime : Z; totalChecksThisHour : Z; hourStartTime : Z }.

Record result := Result {
  number : item; whatsapp_id : string; is_registered : bool;
  checked_at : Z; status : Input.status; error : option string;
  session_id : nat }.

Record verified_entry := VerifiedEntry {
  entry_number : item; entry_whatsapp_id : string;
  entry_has_profile_pic : bool; entry_about : string;
  carrier_prefix : string; first_verified_at : Z; last_verified_at : Z }.

(** The call site of a [this.delay(ms)]. *)
Inductive pause := RateLimitWait | CheckDelay | Break | ExtendedBreak.

(** What one session driver does that an observer can see, in order. *)
Inductive event :=
| EvCheck (t : Z) (whatsappId : string)  (* isRegisteredUser called at t *)
| EvDelay (p : pause) (ms : Q)           (* this.delay(ms) *)
| EvWindow (start : Z)                   (* session.hourStartTime = start *)
| EvBanAlert (session_id : nat).         (* console.error: may be banned *)

(** The environment of one session driver: how late each timer fires,
    what [Math.random()] returns, what the transport and the master-file
    writer answer, and what the drivers of the other sessions do to the
    set they share with this one: [others n] holds the numbers they
    have added to [this.verifiedNumbers] by the time this driver,
    having made [n] transport calls, tests membership. *)
Record env := Env {
  lag : nat → Z;
  random : nat → Q;
  isRegisteredUser : nat → string → reply bool;
  writeRecords : nat → reply unit;
  others : nat → gset item }.

(** The state one driver reads and writes, and its part in the
    collections the drivers share: [results] holds the results this
    driver has pushed and [masterFile] the entries it has appended, in
    order; [verifiedNumbers] holds the numbers that were in
    [this.verifiedNumbers] when the drivers started and those this
    driver has added.  What the other drivers add comes in through
    [others]. *)
Record world := World {
  now : Z;
  timers : nat; draws : nat; calls : nat; writes : nat;
  sess : session;
  results : list result;
  verifiedNumbers : gset item;
  masterFile : list verified_entry;
  log : list event }.

Definition M := Eff.M world.

Definition emit (ev : event) : M unit :=
  modify (λ w, World (now w) (timers w) (draws w) (calls w) (writes w)
                 (sess w) (results w) (verifiedNumbers w) (masterFile w)
                 (log w ++ [ev])).

Definition update_session (f : session → session) : M unit :=
  modify (λ w, World (now w) (timers w) (draws w) (calls w) (writes w)
                 (f (sess w)) (results w) (verifiedNumbers w) (masterFile w)
                 (log w)).

(** [Date.now()] *)
Definition date_now : M Z := gets now.

(** [Math.random()] *)
Definition math_random (e : env) : M Q :=
  λ w, (Normal (random e (draws w)),
        World (now w) (timers w) (S (draws w)) (calls w) (writes w)
          (sess w) (results w) (verifiedNumbers w) (masterFile w) (log w)).

(** [await this.delay(ms)]: [setTimeout] fires no earlier than the whole
    milliseconds of [ms] (none when [ms] is negative). *)
Definition delay (e : env) (p : pause) (ms : Q) : M unit :=
  emit (EvDelay p ms) ;;
  modify (λ w, World (now w + Z.max 0 (Qfloor ms) + lag e (timers w))
                 (S (timers w)) (draws w) (calls w) (writes w)
                 (sess w) (results w) (verifiedNumbers w) (masterFile w)
                 (log w)).

(** [await session.client.isRegisteredUser(whatsappId)] *)
Definition call_isRegisteredUser (e : env) (whatsappId : string) : M bool :=
  let* t := date_now in
  emit (EvCheck t whatsappId) ;;
  λ w, let r := isRegisteredUser e (calls w) whatsappId in
       (outcome r,
        World (now w + took r) (timers w) (draws w) (S (calls w)) (writes w)
          (sess w) (results w) (verifiedNumbers w) (masterFile w) (log w)).

(** [await csvWriter.writeRecords([entry])] in append mode *)
Definition append_to_master (e : env) (entry : verified_entry) : M unit :=
  λ w, let r := writeRecords e (writes w) in
       (outcome r,
        World (now w + took r) (timers w) (draws w) (calls w) (S (writes w))
          (sess w) (results w) (verifiedNumbers w)
          (match outcome r with
           | Normal _ => masterFile w ++ [entry]
           | Throw _ => masterFile w
           end)
          (log w)).

(** [this.verifiedNumbers.add(number)] *)
Definition remember_verified (number : item) : M unit :=
  modify (λ w, World (now w) (timers w) (draws w) (calls w) (writes w)
                 (sess w) (results w) ({[number]} ∪ verifiedNumbers w)
                 (masterFile w) (log w)).

(** [this.results.push(result)] *)
Definition push_result (r : result) : M unit :=
  modify (λ w, World (now w) (timers w) (draws w) (calls w) (writes w)
                 (sess w) (results w ++ [r]) (verifiedNumbers w)
                 (masterFile w) (log w)).

(** [result.number ? result.number.substring(0, 3) : ''] *)
Definition carrier_prefix_of (number : item) : M string :=
  match number with
  | Str s => ret (if Js.truthy_string s then String.substring 0 3 s else "")
  | Row _ _ =>
      throw (Error (Some "result.number.substring is not a function"))
  end.

(** [this.verifiedNumbers] as this driver finds it. *)
Definition shared_verified (e : env) (w : world) : gset item :=
  verifiedNumbers w ∪ others e (calls w).

Definition appendVerifiedNumberImmediately (e : env) (r : result) : M unit :=
  let* known := gets (λ w, bool_decide (number r ∈ shared_verified e w)) in
  when (is_registered r && negb known)
    (let* prefix := carrier_prefix_of (number r) in
     let verifiedEntry :=
       VerifiedEntry (number r) (whatsapp_id r) false "" prefix
         (checked_at r) (checked_at r) in
     append_to_master e verifiedEntry ;;
     remember_verified (number r)).

(** [session.totalChecksThisHour = 0; session.hourStartTime = t] *)
Definition reset_window (t : Z) : M unit :=
  update_session (λ s, Session (id s) (ready s) (busy s) (checked s)
                         (verified s) (errors s) (lastCheckTime s) 0 t) ;;
  emit (EvWindow t).

Definition checkRateLimit (o : options) (e : env) : M unit :=
  let* now := date_now in
  let* s := gets sess in
  let hourElapsed := now - hourStartTime s in
  when (hourElapsed >? 3600000) (reset_window now) ;;
  let* s := gets sess in
  when (totalChecksThisHour s >=? maxChecksPerHour o)
    (let waitTime := 3600000 - hourElapsed in
     delay e RateLimitWait (inject_Z waitTime) ;;
     let* now' := date_now in
     reset_window now') ;;
  update_session (λ s, Session (id s) (ready s) (busy s) (checked s)
                         (verified s) (errors s) (lastCheckTime s)
                         (totalChecksThisHour s + 1) (hourStartTime s)).

(** [error.message && (error.message.toLowerCase().includes('ban') ||
    error.message.toLowerCase().includes('block'))] *)
Definition ban_signature (err : Eff.error) : bool :=
  match message err with
  | Some m =>
      Js.truthy_string m &&
      (Js.includes "ban" (Js.toLowerCase m) ||
       Js.includes "block" (Js.toLowerCase m))
  | None => false
  end.

Definition validateNumber (e : env) (number : item) : M result :=
  try_catch
    (let* formattedNumber := Input.replace_non_digits number in
     let whatsappId :=
       if Js.startsWith "962" formattedNumber
       then formattedNumber +:+ "@c.us"
       else "962" +:+ Js.substring 1 formattedNumber +:+ "@c.us" in
     let* isRegistered := call_isRegisteredUser e whatsappId in
     let* t := date_now in
     update_session (λ s, Session (id s) (ready s) (busy s) (checked s)
                            (verified s) (errors s) t
                            (totalChecksThisHour s) (hourStartTime s)) ;;
     let* w := get in
     let result :=
       Result number whatsappId isRegistered (now w) Input.success None
         (id (sess w)) in
     when isRegistered (appendVerifiedNumberImmediately e result) ;;
     ret result)
    (λ err,
     update_session (λ s, Session (id s) (ready s) (busy s) (checked s)
                            (verified s) (S (errors s)) (lastCheckTime s)
                            (totalChecksThisHour s) (hourStartTime s)) ;;
     if ban_signature err
     then (let* w := get in emit (EvBanAlert (id (sess w)))) ;; throw err
     else
       let* w := get in
       ret (Result number "" false (now w) Input.error (message err)
              (id (sess w)))).

(** One turn of the [for] loop of [validateSessionChunk]; [processed] is
    the counter before its increment. *)
Definition iteration (o : options) (e : env) (total i processed : nat)
    (numberObj : item) : M unit :=
  checkRateLimit o e ;;
  let number := number_of numberObj in
  let* r := math_random e in
  let delayVariation :=
    (inject_Z (checkDelay o) * ((8 # 10) + r * (4 # 10)))%Q in
  let* result := validateNumber e number in
  push_result result ;;
  update_session (λ s, Session (id s) (ready s) (busy s) (S (checked s))
                         (verified s) (errors s) (lastCheckTime s)
                         (totalChecksThisHour s) (hourStartTime s)) ;;
  let processed := S processed in
  when (is_registered result)
    (update_session (λ s, Session (id s) (ready s) (busy s) (checked s)
                            (S (verified s)) (errors s) (lastCheckTime s)
                            (totalChecksThisHour s) (hourStartTime s))) ;;
  let more := Z.of_nat i <? Z.of_nat total - 1 in
  when more (delay e CheckDelay delayVariation) ;;
  when (Js.rem_is_zero (Z.of_nat processed) (batchSize o) && more)
    (let* r' := math_random e in
     let breakTime := (inject_Z (breakDuration o) + r' * inject_Z 2000)%Q in
     delay e Break breakTime) ;;
  when (Js.rem_is_zero (Z.of_nat processed) 200 && more)
    (delay e ExtendedBreak (inject_Z 10000)).

Fixpoint chunk_loop (o : options) (e : env) (total i processed : nat)
    (numbers : list item) : M unit :=
  match numbers with
  | [] => ret tt
  | numberObj :: rest =>
      iteration o e total i processed numberObj ;;
      chunk_loop o e total (S i) (S processed) rest
  end.

Definition validateSessionChunk (o : options) (e : env)
    (numbers : list item) : M unit :=
  chunk_loop o e (length numbers) 0 0 numbers.

(** [array.slice(start, end)] *)
Definition slice {A} (start stop : nat) (array : list A) : list A :=
  take (stop - start) (drop start array).

(** [Math.ceil(a / b)] for [b > 0]. *)
Definition ceil_div (a b : nat) : nat := ((a + b - 1) / b)%nat.

Definition distributeWork {A} (array : list A) (chunks : nat) : list (list A) :=
  let chunkSize := ceil_div (length array) chunks in
  (λ i, let start := (i * chunkSize)%nat in
        let stop := ((start + chunkSize) `min` length array)%nat in
        slice start stop array) <$> seq 0 chunks.

(** The world in which the driver of [s] starts at time [t], with
    [known] in [this.verifiedNumbers]: it has pushed and appended
    nothing yet. *)
Definition start_world (t : Z) (known : gset item) (s : session) : world :=
  World t 0 0 0 0 s [] known [] [].

(** [session.id] of [undefined]: what [validateSessionChunk] throws at
    its first statement when [this.whatsappSessions[sessionIndex]] does
    not exist. *)
Definition missing_session : Eff.error :=
  Error (Some "Cannot read properties of undefined (reading 'id')").

(** The promise [validateBatch] pushes for [sessionIndex], if any:
    there is one when the chunk exists and is not empty.  It comes with
    the world its driver ends in; the driver of a missing session is
    rejected before it does anything and has none. *)
Definition driver (o : options) (envs : nat → env) (t : Z)
    (known : gset item) (whatsappSessions : list session)
    (chunks : list (list item)) (sessionIndex : nat)
    : option (completion unit * option world) :=
  match chunks !! sessionIndex with
  | Some chunk =>
      if bool_decide (chunk = []) then None
      else Some
             match whatsappSessions !! sessionIndex with
             | Some s =>
                 let out := validateSessionChunk o (envs sessionIndex) chunk
                              (start_world t known s) in
                 (out.1, Some out.2)
             | None => (Throw missing_session, None)
             end
  | None => None
  end.

(** The drivers [validateBatch] starts, for the indices below
    [options.sessions] in order, each with its own environment. *)
Definition drivers (o : options) (envs : nat → env) (t : Z)
    (known : gset item) (whatsappSessions : list session)
    (numbers : list item) : list (completion unit * option world) :=
  omap (driver o envs t known whatsappSessions
          (distributeWork numbers (sessions o)))
       (seq 0 (sessions o)).

(** The results a driver has pushed. *)
Definition pushed (d : completion unit * option world) : list result :=
  match d.2 with Some w => results w | None => [] end.

(** [d] has ended no later than [d']: a driver that was rejected before
    it did anything comes first, the others by their clocks. *)
Definition no_later (d d' : completion unit * option world) : Prop :=
  match d.2, d'.2 with
  | None, _ => True
  | Some _, None => False
  | Some w, Some w' => now w ≤ now w'
  end.

(** The ways the pushes of several drivers can interleave. *)
Inductive interleaving {A} : list (list A) → list A → Prop :=
| interleaving_done (ls : list (list A)) :
    Forall (λ l, l = []) ls → interleaving ls []
| interleaving_next (ls : list (list A)) (i : nat) (x : A) (l out : list A) :
    ls !! i = Some (x :: l) →
    interleaving (<[i := l]> ls) out →
    interleaving ls (x :: out).

(** How [validateBatch] ends. *)
Inductive batch_outcome :=
| Rejected (err : Eff.error)          (* the awaited Promise.all rejects *)
| Resolved (results : list result).   (* return this.results *)

(** [await Promise.all(validationPromises)]: rejects with the error of
    the driver that throws first, otherwise waits for all drivers; then
    [this.results] holds the results in the order they were pushed. *)
Definition validateBatch (o : options) (envs : nat → env) (t : Z)
    (known : gset item) (whatsappSessions : list session)
    (numbers : list item) (out : batch_outcome) : Prop :=
  let ds := drivers o envs t known whatsappSessions numbers in
  match out with
  | Rejected err =>
      ∃ i d, ds !! i = Some d ∧ d.1 = Throw err ∧
             ∀ j d' err', ds !! j = Some d' → d'.1 = Throw err' →
                          no_later d d'
  | Resolved rs =>
      Forall (λ d, d.1 = Normal tt) ds ∧ interleaving (pushed <$> ds) rs
  end.

(** What [main] prints at its end. *)
Inductive line :=
| LineComplete                      (* Validation complete (No bans detected!) *)
| LineError (message : option string)   (* Error: error.message *)
| LinePossibleBan.                  (* POSSIBLE BAN DETECTED! ... *)

(** How [main] ends: whether it got to call [saveResults] and
    [cleanup], what it printed, and the code it exits with. *)
Record main_end := MainEnd {
  saveResults_called : bool; cleanup_called : bool;
  printed : list line; exit_code : Z }.

(** [error.message && error.message.toLowerCase().includes('ban')] *)
Definition possible_ban (err : Eff.error) : bool :=
  match message err with
  | Some m => Js.truthy_string m && Js.includes "ban" (Js.toLowerCase m)
  | None => false
  end.

(** The [catch] and [finally] blocks of [main]. *)
Definition main_catch (err : Eff.error) (saved cleaned : bool) : main_end :=
  MainEnd saved cleaned
    (LineError (message err)
     :: if possible_ban err then [LinePossibleBan] else [])
    0.

(** [main] from its [await validator.validateBatch(numbers)] on:
<<
    await validator.validateBatch(numbers);
    await validator.saveResults();
    await validator.cleanup();
    console.log(... Validation complete (No bans detected!));
  } catch (error) { ... } finally { rl.close(); process.exit(0); }
>>
    [saveResults] and [cleanup] are how the two calls end when they are
    made. *)
Definition main_from_validateBatch (out : batch_outcome)
    (saveResults cleanup : completion unit) : main_end :=
  match out with
  | Rejected err => main_catch err false false
  | Resolved _ =>
      match saveResults with
      | Throw err => main_catch err true false
      | Normal _ =>
          match cleanup with
          | Throw err => main_catch err true true
          | Normal _ => MainEnd true true [LineComplete] 0
          end
      end
  end.

(** The readiness wait of [initializeSession]:
<<
    while (!session.ready) { await this.delay(1000); }
>>
    [ready_at n] is the value of [session.ready] at the [n]-th test of
    the loop condition; the result is the number of delays awaited, and
    [None] when [fuel] tests were not enough. *)
Fixpoint wait_until_ready (ready_at : nat → bool) (fuel n : nat) : option nat :=
  match fuel with
  | O => None
  | S fuel' =>
      if ready_at n then Some n
      else wait_until_ready ready_at fuel' (S n)
  end.


(** *** Notions used to state the properties of a driver *)

(** The transport failure the [catch] block of [validateNumber] gets to
    see, if any: the [TypeError] of a non-string, the exception of the
    transport, or the exception of the master-file append that follows
    a first-time positive answer. *)
Definition caught (e : env) (number : item) (w : world) : option Eff.error :=
  match number with
  | Row _ _ => Some not_a_function
  | Str x =>
      let r := isRegisteredUser e (calls w) (Normalize.whatsappId x) in
      match outcome r with
      | Throw err => Some err
      | Normal false => None
      | Normal true =>
          if bool_decide (number ∈ verifiedNumbers w ∪ others e (S (calls w)))
          then None
          else match outcome (writeRecords e (writes w)) with
               | Throw err => Some err
               | Normal _ => None
               end
      end
  end.

(** Checks issued since the window was last started. *)
Definition count_step (c : Z) (ev : event) : Z :=
  match ev with
  | EvWindow _ => 0
  | EvCheck _ _ => c + 1
  | _ => c
  end.

Definition window_count (l : list event) : Z := foldl count_step 0 l.

(** At no point of the log does a window hold more than the cap. *)
Definition window_bound (o : options) (l : list event) : Prop :=
  ∀ l1 l2, l = l1 ++ l2 → window_count l1 ≤ maxChecksPerHour o.

(** Checks issued in the hour that starts at [t0]. *)
Definition check_in_hour (t0 : Z) (ev : event) : bool :=
  match ev with
  | EvCheck t _ => (t0 <=? t) && (t <? t0 + 3600000)
  | _ => false
  end.

Definition checks_from (t0 : Z) (l : list event) : Z :=
  Z.of_nat (length (filter (λ ev, check_in_hour t0 ev = true) l)).

(** The rolling-window reading of the cap. *)
Definition rolling_bound (o : options) (l : list event) : Prop :=
  ∀ t0, checks_from t0 l ≤ maxChecksPerHour o.

(** Every rate-limit wait lasts between nothing and one hour. *)
Definition waits_bounded (l : list event) : Prop :=
  ∀ ms, EvDelay RateLimitWait ms ∈ l → (0 <= ms)%Q ∧ (ms <= inject_Z 3600000)%Q.

(** Time does not run backwards. *)
Definition monotone (e : env) : Prop :=
  (∀ n, 0 ≤ lag e n) ∧
  (∀ n whatsappId, 0 ≤ took (isRegisteredUser e n whatsappId)) ∧
  (∀ n, 0 ≤ took (writeRecords e n)).


(** An event of the rate-limit gate or of the check itself, as opposed
    to a pause of the delay policy. *)
Definition gate_event (ev : event) : Prop :=
  match ev with
  | EvDelay RateLimitWait _ | EvWindow _ | EvCheck _ _ | EvBanAlert _ => True
  | EvDelay _ _ => False
  end.

(** The window of a session is consistent with the log of its driver. *)
Definition window_ok (o : options) (w : world) : Prop :=
  hourStartTime (sess w) ≤ now w ∧
  window_count (log w) ≤ totalChecksThisHour (sess w) ∧
  totalChecksThisHour (sess w) ≤ maxChecksPerHour o ∧
  window_bound o (log w) ∧ waits_bounded (log w).

(** A run in which the account of session 0 turns out to be banned:
    two sessions, one number each. *)
Definition banned_env : env :=
  Env (λ _, 0) (λ _, (1 # 2)%Q)
    (λ _ _, Reply (Throw (Error (Some "Account banned"))) 0)
    (λ _, Reply (Normal tt) 0) (λ _, ∅).

Definition quiet_env : env :=
  Env (λ _, 0) (λ _, (1 # 2)%Q) (λ _ _, Reply (Normal false) 0)
    (λ _, Reply (Normal tt) 0) (λ _, ∅).

Definition fresh_session (i : nat) (t : Z) : session :=
  Session i true false 0 0 0 t 0 t.

Definition main_options (n : nat) : options :=
  Options n 600 100 5000 2000 3000.

(** A driver that starts late in the hour of its session, with a cap of
    two checks per hour. *)
Definition late_options : options := Options 1 600 100 5000 2000 2.

Definition late_run : completion unit * world :=
  validateSessionChunk late_options quiet_env
    [Str "0790000001"; Str "0790000002"; Str "0790000003"; Str "0790000004"]
    (start_world 3590000 ∅ (fresh_session 0 0)).


(** *** The delay policy in the words of the specification *)

(** The factor applied to the base delay for a draw [u]. *)
Definition jitter (u : Q) : Q := ((8 # 10) + u * (4 # 10))%Q.

(** [m] completed checks make a whole number of batches of [n]. *)
Definition whole_batches (n m : Z) : bool :=
  bool_decide (n ≠ 0 ∧ m `mod` n = 0).

(** The pauses after the [m]-th check of a chunk when another check
    follows ([more]): the jittered base delay, a rest of
    [breakDuration] plus up to two seconds after every [batchSize]
    checks, and ten more seconds after every 200 checks. *)
Definition policy_pauses (o : options) (more : bool) (m : Z) (u u' : Q)
  : list event :=
  (if more then [EvDelay CheckDelay (inject_Z (checkDelay o) * jitter u)%Q]
   else []) ++
  (if more && whole_batches (batchSize o) m
   then [EvDelay Break (inject_Z (breakDuration o) + u' * inject_Z 2000)%Q]
   else []) ++
  (if more && whole_batches 200 m
   then [EvDelay ExtendedBreak (inject_Z 10000)]
   else []).




(** Session 0 is the banned one, every other session answers. *)
Definition ban_envs (sessionIndex : nat) : env :=
  match sessionIndex with
  | O => banned_env
  | S _ => quiet_env
  end.

Definition ban_sessions : list session :=
  [fresh_session 0 0; fresh_session 1 0].

Definition ban_numbers : list item :=
  [Str "0790000001"; Str "0790000002"].


(** *** Notions used to state the properties of the master file *)

(** [w'] extends the master file of [w] by entries for numbers that were
    not remembered in [w], one entry per number, and remembers them. *)
Definition master_extends (w w' : world) : Prop :=
  ∃ added,
    masterFile w' = masterFile w ++ added ∧
    NoDup (entry_number <$> added) ∧
    (∀ n, n ∈ entry_number <$> added → n ∉ verifiedNumbers w) ∧
    verifiedNumbers w'
    = list_to_set (entry_number <$> added) ∪ verifiedNumbers w.

(** A computation that relates the world it ends in to the world it
    starts from, however it ends. *)
Definition keeps {A} (R : world → world → Prop) (m : M A) : Prop :=
  ∀ w, R w (m w).2.

(** Two sessions on which every number is unregistered. *)
Definition quiet_envs (sessionIndex : nat) : env := quiet_env.

(** The environments of a batch fit together: a number that the driver
    of one session finds added by the others has an entry that the
    driver of another session appended to the master file. *)
Definition coherent (o : options) (envs : nat → env) (t : Z)
    (known : gset item) (whatsappSessions : list session)
    (numbers : list item) : Prop :=
  ∀ i n x, x ∈ others (envs i) n →
    ∃ j c w,
      j ≠ i ∧
      driver o envs t known whatsappSessions
        (distributeWork numbers (sessions o)) j = Some (c, Some w) ∧
      x ∈ entry_number <$> masterFile w.

End Safe.

(** ** [WhatsAppValidator]: single-session validator with checkpoints *)
Module Basic.
Import Eff Input.
Local Open Scope eff_scope.

(** [this.config]; the defaults come from [config.js]. *)
Record config := Config { checkDelay : Z; batchSize : Z }.

Record checkpoint := Checkpoint {
  lastIndex : nat; totalChecked : nat; startTime : Z }.

Record result := Result {
  number : item; whatsapp_id : string; is_registered : bool;
  has_profile_pic : bool; about : string; checked_at : Z;
  status : Input.status; error : option string }.

Record client := Client {
  isRegisteredUser : nat → string → reply bool;
  getProfilePicUrl : nat → string → reply (option string);
  getContactById : nat → string → reply (option string) }.

(** What the run does to the outside, in order. *)
Inductive event :=
| Checked (i : nat)                  (* validateNumber called for numbers[i] *)
| Saved (cp : checkpoint)            (* saveProgress() wrote cp *)
| Flushed (rs : list result).        (* saveResults(rs, true) *)

(** [progressFile] is the parsed content of the progress file and
    [sink] the rows of [validated_numbers.csv]; [None] when the file
    does not exist.  Writes to either file are taken to succeed. *)
Record world := World {
  now : Z; timers : nat; calls : nat;
  progress : checkpoint;
  progressFile : option checkpoint;
  sink : option (list result);
  log : list event }.

Definition M := Eff.M world.

Definition emit (ev : event) : M unit :=
  modify (λ w, World (now w) (timers w) (calls w) (progress w)
                 (progressFile w) (sink w) (log w ++ [ev])).

Definition await_call {A} (r : reply A) : M A :=
  λ w, (outcome r,
        World (now w + took r) (timers w) (S (calls w)) (progress w)
          (progressFile w) (sink w) (log w)).

(** [await this.delay(ms)]; [lag] says how late each timer fires. *)
Definition delay (lag : nat → Z) (ms : Z) : M unit :=
  modify (λ w, World (now w + Z.max 0 ms + lag (timers w)) (S (timers w))
                 (calls w) (progress w) (progressFile w) (sink w) (log w)).

(** [loadProgress()]: the stored checkpoint, or a fresh one. *)
Definition loadProgress (file : option checkpoint) (t : Z) : checkpoint :=
  match file with
  | Some cp => cp
  | None => Checkpoint 0 0 t
  end.

(** [saveProgress()] *)
Definition saveProgress : M unit :=
  let* w := get in
  emit (Saved (progress w)) ;;
  modify (λ w, World (now w) (timers w) (calls w) (progress w)
                 (Some (progress w)) (sink w) (log w)).

(** [saveResults(results, true)]: creates the file when it is missing,
    appends otherwise. *)
Definition saveResults_append (rs : list result) : M unit :=
  emit (Flushed rs) ;;
  modify (λ w, World (now w) (timers w) (calls w) (progress w)
                 (progressFile w)
                 (match sink w with
                  | None => Some rs
                  | Some old => Some (old ++ rs)
                  end)
                 (log w)).

Definition truthy_opt (u : option string) : bool :=
  match u with Some s => Js.truthy_string s | None => false end.

(** [contact.about || ''] *)
Definition about_or_empty (u : option string) : string :=
  match u with Some s => s | None => "" end.

Definition validateNumber (c : client) (number : item) : M result :=
  try_catch
    (let* formattedNumber := Input.replace_non_digits number in
     let whatsappId :=
       if Js.startsWith "962" formattedNumber
       then formattedNumber +:+ "@c.us"
       else "962" +:+ Js.substring 1 formattedNumber +:+ "@c.us" in
     let* isRegistered :=
       (let* w := get in await_call (isRegisteredUser c (calls w) whatsappId)) in
     let* profilePic :=
       if isRegistered
       then try_catch
              (let* w := get in
               let* picUrl := await_call (getProfilePicUrl c (calls w) whatsappId) in
               ret (truthy_opt picUrl))
              (λ _, ret false)
       else ret false in
     let* about :=
       if isRegistered
       then try_catch
              (let* w := get in
               let* contact := await_call (getContactById c (calls w) whatsappId) in
               ret (about_or_empty contact))
              (λ _, ret "")
       else ret "" in
     let* w := get in
     ret (Result number whatsappId isRegistered profilePic about (now w)
            Input.success None))
    (λ e,
     let* w := get in
     ret (Result number "" false false "" (now w) Input.error (message e))).

(** [results.slice(-n)] *)
Definition slice_last {A} (n : nat) (l : list A) : list A :=
  drop (length l - n) l.

(** [this.progress.lastIndex = i + 1; this.progress.totalChecked++] *)
Definition advance_progress (i : nat) : M unit :=
  modify (λ w, World (now w) (timers w) (calls w)
                 (Checkpoint (S i) (S (totalChecked (progress w)))
                    (startTime (progress w)))
                 (progressFile w) (sink w) (log w)).

(** The [for] loop of [validateBatch] from index [i] on, [rest] being
    [numbers[i..]] and [results] the results so far. *)
Fixpoint batch_loop (cfg : config) (c : client) (lag : nat → Z)
    (total i : nat) (rest : list item) (results : list result)
    : M (list result) :=
  match rest with
  | [] => ret results
  | number :: rest' =>
      emit (Checked i) ;;
      let* result := validateNumber c (number_of number) in
      let results := results ++ [result] in
      advance_progress i ;;
      when (Js.rem_is_zero (Z.of_nat i + 1) 10)
        (saveProgress ;; saveResults_append (slice_last 10 results)) ;;
      when (Z.of_nat i <? Z.of_nat total - 1) (delay lag (checkDelay cfg)) ;;
      when (Js.rem_is_zero (Z.of_nat i + 1) (batchSize cfg))
        (delay lag 10000) ;;
      batch_loop cfg c lag total (S i) rest' results
  end.

Definition validateBatch (cfg : config) (c : client) (lag : nat → Z)
    (numbers : list item) (startIndex : nat) : M (list result) :=
  batch_loop cfg c lag (length numbers) startIndex (drop startIndex numbers) [].

(** The counts of [generateReport]. *)
Record summary := Summary {
  total_checked : nat; registered_on_whatsapp : nat;
  with_profile_picture : nat; errors : nat }.

Definition generateReport (results : list result) : summary :=
  Summary (length results)
    (length (filter (λ r, is_registered r = true) results))
    (length (filter (λ r, has_profile_pic r = true) results))
    (length (filter (λ r, status r = Input.error) results)).

(** The world of a validator constructed at time [t] over the given
    files: the constructor calls [loadProgress()]. *)
Definition constructed (t : Z) (file : option checkpoint)
    (rows : option (list result)) : world :=
  World t 0 0 (loadProgress file t) file rows [].

(** [main]: resume from [validator.progress.lastIndex]. *)
Definition main_validate (cfg : config) (c : client) (lag : nat → Z)
    (numbers : list item) : M (list result) :=
  let* w := get in
  let startIndex := lastIndex (progress w) in
  validateBatch cfg c lag numbers startIndex.

(** The readiness wait:
<<
    const checkInterval = setInterval(() => {
        if (this.isReady) { clearInterval(checkInterval); resolve(); }
    }, 1000);
>>
    [ready_at n] is [this.isReady] when the interval fires for the
    [n]-th time; the result is the number of firings until the promise
    resolves, [None] when it has not resolved after [fuel] firings. *)
Fixpoint waitForReady (ready_at : nat → bool) (fuel n : nat) : option nat :=
  match fuel with
  | O => None
  | S fuel' =>
      if ready_at n then Some (S n)
      else waitForReady ready_at fuel' (S n)
  end.


(** *** Notions used to state the checkpoint properties *)

(** The indices checked, the checkpoints saved and the batches flushed,
    in the order of the log. *)
Definition checked (l : list event) : list nat :=
  omap (λ ev, match ev with Checked i => Some i | _ => None end) l.

Definition saved (l : list event) : list checkpoint :=
  omap (λ ev, match ev with Saved cp => Some cp | _ => None end) l.

Definition flushed (l : list event) : list (list result) :=
  omap (λ ev, match ev with Flushed rs => Some rs | _ => None end) l.

(** A result without its time stamp. *)
Definition untimed (r : result) : result :=
  Result (number r) (whatsapp_id r) (is_registered r) (has_profile_pic r)
    (about r) 0 (status r) (error r).

(** A checkpoint that some run of [validateBatch] has written, whatever
    list, start index and store that run had. *)
Definition persisted (cp : checkpoint) : Prop :=
  ∃ cfg c lag numbers startIndex t file rows,
    Saved cp ∈ log (validateBatch cfg c lag numbers startIndex
                      (constructed t file rows)).2.

(** The store a run may find: no progress file, or one that holds a
    checkpoint written by an earlier run. *)
Definition found (file : option checkpoint) : Prop :=
  match file with
  | Some cp => persisted cp
  | None => True
  end.

(** The [j]-th batch of ten of [rs]. *)
Definition batch_of_ten (rs : list result) (j : nat) : list result :=
  take 10 (drop (10 * j) rs).

(** A transport on which every number is registered, and a list of
    twenty-five numbers. *)
Definition all_registered : client :=
  Client (λ _ _, Reply (Normal true) 0)
         (λ _ _, Reply (Normal None) 0)
         (λ _ _, Reply (Normal None) 0).

Definition twenty_five : list item :=
  (λ i, Row i "0790000000") <$> seq 0 25.

Definition sample_config : config := Config 2000 50.

(** The run on [twenty_five] from an empty store. *)
Definition first_run : completion (list result) * world :=
  main_validate sample_config all_registered (λ _, 0) twenty_five
    (constructed 0 None None).


(** *** The report *)

(** [results.filter(r => r.number.startsWith(p)).length]: a [TypeError]
    at the first result whose [number] is not a string. *)
Fixpoint count_startsWith (p : string) (results : list result)
    : completion nat :=
  match results with
  | [] => Normal 0%nat
  | r :: rest =>
      match number r with
      | Str s =>
          match count_startsWith p rest with
          | Normal n => Normal (if Js.startsWith p s then S n else n)
          | Throw err => Throw err
          end
      | Row _ _ =>
          Throw (Eff.Error (Some "r.number.startsWith is not a function"))
      end
  end.

Record carriers := Carriers {
  orange_077 : nat; zain_umniah_078 : nat; zain_079 : nat }.

(** The [carrier_breakdown] of [generateReport], the three filters in
    the order of the object literal. *)
Definition carrier_breakdown (results : list result) : completion carriers :=
  match count_startsWith "077" results with
  | Throw err => Throw err
  | Normal a =>
      match count_startsWith "078" results with
      | Throw err => Throw err
      | Normal b =>
          match count_startsWith "079" results with
          | Throw err => Throw err
          | Normal c => Normal (Carriers a b c)
          end
      end
  end.

(** A result is sound when only a success carries a verdict, and only a
    positive verdict a picture or an about text. *)
Definition sound (r : result) : Prop :=
  (status r = Input.error →
   is_registered r = false ∧ whatsapp_id r = "") ∧
  (is_registered r = false → has_profile_pic r = false ∧ about r = "").

(** A row of the CSV whose [number] field is empty. *)
Definition has_empty_number (it : item) : Prop :=
  match it with
  | Row _ n => Js.truthy_string n = false
  | Str _ => False
  end.


(** The part of [main] that validates and saves:
<<
    const startIndex = validator.progress.lastIndex;
    const results = await validator.validateBatch(numbers, startIndex);
    const outputFile = `validated_${Date.now()}.csv`;
    if (startIndex === 0) {
        await validator.saveResults(results, false, outputFile);
    }
>>
    The second component is the content of the output file, [None] when
    it is not written. *)
Definition main_results (cfg : config) (c : client) (lag : nat → Z)
    (numbers : list item) : M (list result * option (list result)) :=
  let* w := get in
  let startIndex := lastIndex (progress w) in
  let* results := validateBatch cfg c lag numbers startIndex in
  ret (results, if decide (startIndex = 0%nat) then Some results else None).

End Basic.

(** ** [OptimizedWhatsAppValidator]: concurrent workers over a shared queue *)
Module Optimized.
Import Input.

Record options := Options {
  sessions : nat; concurrentPerSession : nat; batchSize : nat;
  batchDelay : nat; maxRetries : nat }.

Record constructor_options := ConstructorOptions {
  given_sessions : option nat; given_concurrentPerSession : option nat;
  given_batchSize : option nat; given_batchDelay : option nat;
  given_maxRetries : option nat }.

(** [options.k || d] *)
Definition or_default (given : option nat) (d : nat) : nat :=
  match given with
  | Some (S n) => S n
  | _ => d
  end.

(** [{ k: v, ...options }]: a key present in [options] overrides [v]. *)
Definition spread (given : option nat) (v : nat) : nat :=
  match given with Some g => g | None => v end.

Definition constructor (c : constructor_options) : options :=
  Options
    (spread (given_sessions c) (or_default (given_sessions c) 1))
    (spread (given_concurrentPerSession c)
       (or_default (given_concurrentPerSession c) 10))
    (spread (given_batchSize c) (or_default (given_batchSize c) 20))
    (spread (given_batchDelay c) (or_default (given_batchDelay c) 100))
    (spread (given_maxRetries c) (or_default (given_maxRetries c) 2)).

(** A session object; its [client] is the transport below, its [name]
    and its never-updated [processing] counter are left out. *)
Record session := Session {
  id : nat; ready : bool;
  checked : nat; verified : nat; errors : nat;
  lastError : option string }.

Record statistics := Statistics {
  total : nat; processed : nat; total_verified : nat; total_errors : nat;
  startTime : option Z; endTime : option Z }.

Record result := Result {
  number : item; whatsapp_id : string; is_registered : bool;
  checked_at : Z; status : Input.status; error : option string;
  session_id : nat }.

(** [session.client.isRegisteredUser]: what the call with the given
    ordinal, made on the session with the given id for the given
    identifier, ends with. *)
Definition transport := nat → nat → string → Eff.completion bool.

(** Where an invocation of [processNumber] stands. *)
Inductive task_pc :=
| Calling (retries call : nat) (whatsappId : string)
    (* awaiting isRegisteredUser(whatsappId), the call-th call *)
| Backoff (retries : nat)           (* awaiting this.delay(100 * retries) *)
| Settled (r : option result).      (* returned r, undefined when None *)

(** An invocation of [processNumber(session, numberObj)].  [issued] and
    [caught] count the transport calls it has made and the exceptions
    it has caught; the code does not read them. *)
Record task := Task {
  owner : nat; numberObj : item; pc : task_pc;
  issued : nat; caught : nat }.

(** Where an invocation of [sessionWorker] stands. *)
Inductive worker_pc :=
| AtLoop                     (* about to test the while condition *)
| AwaitRace                  (* await Promise.race(concurrentTasks) *)
| AwaitResolved (i : nat) (settled_at_call : bool)
                             (* await this.isPromiseResolved(concurrentTasks[i]) *)
| AwaitIdle                  (* await this.delay(100) *)
| AwaitPause                 (* await this.delay(10) *)
| AwaitAll                   (* await Promise.all(concurrentTasks) *)
| Finished.

Record worker := Worker {
  driven : nat;                  (* index of its session in whatsappSessions *)
  concurrentTasks : list nat;    (* the promises, as indices into tasks *)
  at_pc : worker_pc }.

Record state := State {
  workQueue : list item;
  processing : gset item;
  results : list result;
  whatsappSessions : list session;
  stats : statistics;
  tasks : list task;
  workers : list worker;
  calls : nat }.

Definition set_workQueue (q : list item) (st : state) : state :=
  State q (processing st) (results st) (whatsappSessions st) (stats st)
    (tasks st) (workers st) (calls st).
Definition set_processing (p : gset item) (st : state) : state :=
  State (workQueue st) p (results st) (whatsappSessions st) (stats st)
    (tasks st) (workers st) (calls st).
Definition set_results (rs : list result) (st : state) : state :=
  State (workQueue st) (processing st) rs (whatsappSessions st) (stats st)
    (tasks st) (workers st) (calls st).
Definition set_sessions (ss : list session) (st : state) : state :=
  State (workQueue st) (processing st) (results st) ss (stats st)
    (tasks st) (workers st) (calls st).
Definition set_stats (s : statistics) (st : state) : state :=
  State (workQueue st) (processing st) (results st) (whatsappSessions st) s
    (tasks st) (workers st) (calls st).
Definition set_tasks (ts : list task) (st : state) : state :=
  State (workQueue st) (processing st) (results st) (whatsappSessions st)
    (stats st) ts (workers st) (calls st).
Definition set_workers (ws : list worker) (st : state) : state :=
  State (workQueue st) (processing st) (results st) (whatsappSessions st)
    (stats st) (tasks st) ws (calls st).
Definition set_calls (n : nat) (st : state) : state :=
  State (workQueue st) (processing st) (results st) (whatsappSessions st)
    (stats st) (tasks st) (workers st) n.

Definition update_session (s : nat) (f : session → session) (st : state) : state :=
  set_sessions (alter f s (whatsappSessions st)) st.

Definition set_pc (w : nat) (p : worker_pc) (st : state) : state :=
  set_workers
    (alter (λ x, Worker (driven x) (concurrentTasks x) p) w (workers st)) st.

Definition set_concurrentTasks (w : nat) (ts : list nat) (st : state) : state :=
  set_workers (alter (λ x, Worker (driven x) ts (at_pc x)) w (workers st)) st.

(** [session.id] of the session at index [s]. *)
Definition session_id_of (st : state) (s : nat) : nat :=
  match whatsappSessions st !! s with Some x => id x | None => 0%nat end.

Definition is_settled (t : task) : bool :=
  match pc t with Settled _ => true | _ => false end.

Definition task_settled (st : state) (tid : nat) : bool :=
  match tasks st !! tid with Some t => is_settled t | None => false end.

(** The [try] block of [processNumber] after the transport call
    returned [isRegistered]. *)
Definition on_success (now : Z) (t : task) (whatsappId : string)
    (isRegistered : bool) (st : state) : task * state :=
  let r := Result (number_of (numberObj t)) whatsappId isRegistered now
             Input.success None (session_id_of st (owner t)) in
  let st := set_results (results st ++ [r]) st in
  let st := update_session (owner t)
              (λ s, Session (id s) (ready s) (S (checked s)) (verified s)
                      (errors s) (lastError s)) st in
  let st := set_stats (let s := stats st in
                       Statistics (total s) (S (processed s))
                         (total_verified s) (total_errors s)
                         (startTime s) (endTime s)) st in
  let st :=
    if isRegistered
    then set_stats (let s := stats st in
                    Statistics (total s) (processed s)
                      (S (total_verified s)) (total_errors s)
                      (startTime s) (endTime s))
           (update_session (owner t)
              (λ s, Session (id s) (ready s) (checked s) (S (verified s))
                      (errors s) (lastError s)) st)
    else st in
  let st := set_processing (processing st ∖ {[numberObj t]}) st in
  (Task (owner t) (numberObj t) (Settled (Some r)) (issued t) (caught t), st).

(** The [catch] block of [processNumber], entered with [retries]
    failures so far. *)
Definition on_error (o : options) (now : Z) (t : task) (retries : nat)
    (err : Eff.error) (st : state) : task * state :=
  let retries := S retries in
  let st := update_session (owner t)
              (λ s, Session (id s) (ready s) (checked s) (verified s)
                      (errors s) (Eff.message err)) st in
  if (maxRetries o <=? retries)%nat then
    let st := update_session (owner t)
                (λ s, Session (id s) (ready s) (checked s) (verified s)
                        (S (errors s)) (lastError s)) st in
    let st := set_stats (let s := stats st in
                         Statistics (total s) (processed s)
                           (total_verified s) (S (total_errors s))
                           (startTime s) (endTime s)) st in
    let r := Result (number_of (numberObj t)) "" false now Input.error
               (Eff.message err) (session_id_of st (owner t)) in
    let st := set_results (results st ++ [r]) st in
    let st := set_stats (let s := stats st in
                         Statistics (total s) (S (processed s))
                           (total_verified s) (total_errors s)
                           (startTime s) (endTime s)) st in
    let st := set_processing (processing st ∖ {[numberObj t]}) st in
    (Task (owner t) (numberObj t) (Settled (Some r)) (issued t)
       (S (caught t)), st)
  else
    (Task (owner t) (numberObj t) (Backoff retries) (issued t)
       (S (caught t)), st).

(** The test of [while (retries < this.options.maxRetries)] and the
    body up to its first [await] (or to the [return]). *)
Definition attempt (o : options) (now : Z) (t : task) (retries : nat)
    (st : state) : task * state :=
  if (retries <? maxRetries o)%nat then
    match number_of (numberObj t) with
    | Str s =>
        let formattedNumber := Js.replace_non_digits s in
        let whatsappId :=
          if Js.startsWith "962" formattedNumber
          then formattedNumber +:+ "@c.us"
          else "962" +:+ Js.substring 1 formattedNumber +:+ "@c.us" in
        (Task (owner t) (numberObj t) (Calling retries (calls st) whatsappId)
           (S (issued t)) (caught t),
         set_calls (S (calls st)) st)
    | Row _ _ => on_error o now t retries Eff.not_a_function st
    end
  else
    (Task (owner t) (numberObj t) (Settled None) (issued t) (caught t), st).

(** [this.processNumber(session, numberObj)]: runs up to the first
    [await]; the promise is the index of the new task. *)
Definition processNumber (o : options) (now : Z) (s : nat) (x : item)
    (st : state) : nat * state :=
  let '(t, st') := attempt o now (Task s x (Backoff 0) 0 0) 0 st in
  (length (tasks st'), set_tasks (tasks st' ++ [t]) st').

Definition tasks_of (st : state) (w : nat) : list nat :=
  match workers st !! w with Some x => concurrentTasks x | None => [] end.

Definition pc_of (st : state) (w : nat) : worker_pc :=
  match workers st !! w with Some x => at_pc x | None => Finished end.

Definition session_of (st : state) (w : nat) : nat :=
  match workers st !! w with Some x => driven x | None => 0%nat end.

(** "Fill up concurrent slots": [queue] is [this.workQueue]. *)
Fixpoint fill (o : options) (now : Z) (w : nat) (queue : list item)
    (st : state) : state :=
  match queue with
  | [] => st
  | x :: rest =>
      if (length (tasks_of st w) <? concurrentPerSession o)%nat then
        let st := set_workQueue rest st in
        if truthy x then
          let st := set_processing ({[x]} ∪ processing st) st in
          let '(p, st) := processNumber o now (session_of st w) x st in
          fill o now w rest (set_concurrentTasks w (tasks_of st w ++ [p]) st)
        else fill o now w rest st
      else st
  end.

Definition queue_empty (st : state) : bool :=
  bool_decide (workQueue st = []).

Definition none_processing (st : state) : bool :=
  bool_decide (processing st = ∅).

(** After the loop: [if (concurrentTasks.length > 0) await Promise.all]. *)
Definition leave_loop (w : nat) (st : state) : state :=
  match tasks_of st w with
  | [] => set_pc w Finished st
  | _ :: _ => set_pc w AwaitAll st
  end.

(** One test of the loop condition and, when it holds, the body up to
    its first [await].  When the body awaits nothing the worker is back
    at the test. *)
Definition iterate (o : options) (now : Z) (w : nat) (st : state) : state :=
  if negb (queue_empty st) || negb (none_processing st) then
    let st := fill o now w (workQueue st) st in
    match tasks_of st w with
    | _ :: _ => set_pc w AwaitRace st
    | [] =>
        if queue_empty st && negb (none_processing st)
        then set_pc w AwaitIdle st
        else if negb (queue_empty st) then set_pc w AwaitPause st
        else set_pc w AtLoop st
    end
  else leave_loop w st.

(** Control arrives at the loop test: the worker runs until it awaits. *)
Definition loop_head (o : options) (now : Z) (w : nat) (st : state) : state :=
  let st := iterate o now w st in
  match pc_of st w with
  | AtLoop => iterate o now w st
  | _ => st
  end.

(** The end of the loop body: [if (this.workQueue.length > 0) await
    this.delay(10)], then back to the test. *)
Definition end_of_body (o : options) (now : Z) (w : nat) (st : state) : state :=
  if negb (queue_empty st) then set_pc w AwaitPause st
  else loop_head o now w st.

(** [concurrentTasks.splice(i, 1)] *)
Definition splice1 {A} (i : nat) (l : list A) : list A := delete i l.

(** What the scheduler and the environment decide. *)
Inductive action :=
| Resume (w : nat)                 (* the awaited timer or race of w fires *)
| Resolved (w : nat) (b : bool)    (* isPromiseResolved answers b to w *)
| Settle (t : nat)                 (* the transport call of t ends *)
| Wake (t : nat).                  (* the retry delay of t is over *)

Record label := Label { at_time : Z; act : action }.

Definition resume (o : options) (now : Z) (w : nat) (st : state)
  : option state :=
  match pc_of st w with
  | AtLoop => Some (loop_head o now w st)
  | AwaitRace =>
      if existsb (task_settled st) (tasks_of st w) then
        match length (tasks_of st w) with
        | O => None
        | S i =>
            Some (set_pc w (AwaitResolved i
                    (match tasks_of st w !! i with
                     | Some p => task_settled st p
                     | None => false
                     end)) st)
        end
      else None
  | AwaitIdle => Some (end_of_body o now w st)
  | AwaitPause => Some (loop_head o now w st)
  | AwaitAll =>
      if forallb (task_settled st) (tasks_of st w)
      then Some (set_pc w Finished st) else None
  | AwaitResolved _ _ | Finished => None
  end.

(** The removal loop of [sessionWorker], resumed with the answer [b] of
    [isPromiseResolved]: [true] only for a settled promise, and always
    [true] for a promise that was settled when the question was asked. *)
Definition resolved (o : options) (now : Z) (w : nat) (b : bool)
    (st : state) : option state :=
  match pc_of st w with
  | AwaitResolved i settled_at_call =>
      match tasks_of st w !! i with
      | None => None
      | Some p =>
          if (if b then task_settled st p else negb settled_at_call) then
            let st := if b then set_concurrentTasks w
                                  (splice1 i (tasks_of st w)) st
                      else st in
            match i with
            | O => Some (end_of_body o now w st)
            | S i' =>
                Some (set_pc w (AwaitResolved i'
                        (match tasks_of st w !! i' with
                         | Some p' => task_settled st p'
                         | None => false
                         end)) st)
            end
          else None
      end
  | _ => None
  end.

Definition put_task (tid : nat) (ts : task * state) : state :=
  set_tasks (<[tid := ts.1]> (tasks ts.2)) ts.2.

Definition settle (o : options) (tr : transport) (now : Z) (tid : nat)
    (st : state) : option state :=
  match tasks st !! tid with
  | Some t =>
      match pc t with
      | Calling retries call whatsappId =>
          match tr (session_id_of st (owner t)) call whatsappId with
          | Eff.Normal isRegistered =>
              Some (put_task tid (on_success now t whatsappId isRegistered st))
          | Eff.Throw err =>
              Some (put_task tid (on_error o now t retries err st))
          end
      | _ => None
      end
  | None => None
  end.

Definition wake (o : options) (now : Z) (tid : nat) (st : state)
  : option state :=
  match tasks st !! tid with
  | Some t =>
      match pc t with
      | Backoff retries => Some (put_task tid (attempt o now t retries st))
      | _ => None
      end
  | None => None
  end.

(** One atomic step; [None] when the action is not enabled. *)
Definition step (o : options) (tr : transport) (l : label) (st : state)
  : option state :=
  match act l with
  | Resume w => resume o (at_time l) w st
  | Resolved w b => resolved o (at_time l) w b st
  | Settle t => settle o tr (at_time l) t st
  | Wake t => wake o (at_time l) t st
  end.

Fixpoint exec (o : options) (tr : transport) (ls : list label) (st : state)
  : option state :=
  match ls with
  | [] => Some st
  | l :: ls' =>
      match step o tr l st with
      | Some st' => exec o tr ls' st'
      | None => None
      end
  end.

(** The validator before [validateBatch]: [initialize] has filled
    [whatsappSessions]; nothing is queued, in flight or recorded. *)
Definition initialized (ss : list session) : state :=
  State [] ∅ [] ss (Statistics 0 0 0 0 None None) [] [] 0.

(** [validateBatch(numbers)] up to its [await Promise.all(workers)]:
    every [sessionWorker] is started in turn and runs to its first
    [await]. *)
Definition validateBatch (o : options) (now : Z) (ss : list session)
    (numbers : list item) : state :=
  let st := initialized ss in
  let st := set_stats (Statistics (length numbers) 0 0 0 (Some now) None) st in
  let st := set_workQueue numbers st in
  let st := set_workers ((λ s, Worker s [] AtLoop) <$> seq 0 (length ss)) st in
  foldl (λ st w, loop_head o now w st) st (seq 0 (length ss)).

(** [Promise.all(workers)] is fulfilled: [validateBatch] reports
    completion and returns [this.results]. *)
Definition completed (st : state) : bool :=
  forallb (λ x, match at_pc x with Finished => true | _ => false end)
    (workers st).


(** *** Notions used to state the properties of the scheduler *)

(** The result an invocation of [processNumber] has returned, if any. *)
Definition result_of (t : task) : option result :=
  match pc t with Settled r => r | _ => None end.

(** The account an invocation keeps of its attempts: while it runs it
    has caught [retries] exceptions, fewer than [maxRetries], and has
    made at most one call more than that; a success is returned before
    [maxRetries] exceptions were caught, an error result exactly when
    the [maxRetries]-th was; [undefined] is returned only when
    [maxRetries] is zero. *)
Definition task_ok (o : options) (t : task) : Prop :=
  match pc t with
  | Calling retries _ _ =>
      retries = caught t ∧ (retries < maxRetries o)%nat ∧
      (issued t ≤ S retries)%nat
  | Backoff retries =>
      retries = caught t ∧ (retries < maxRetries o)%nat ∧
      (issued t ≤ retries)%nat
  | Settled (Some r) =>
      number r = number_of (numberObj t) ∧
      match status r with
      | Input.success =>
          (caught t < maxRetries o)%nat ∧ (issued t ≤ S (caught t))%nat
      | Input.error =>
          caught t = maxRetries o ∧ (issued t ≤ caught t)%nat ∧
          is_registered r = false
      end
  | Settled None => maxRetries o = 0%nat ∧ issued t = 0%nat
  end.

(** The items taken off the queue so far are a prefix of [numbers], and
    [processNumber] was invoked once for each truthy one, in order. *)
Definition accounted (numbers : list item) (st : state) : Prop :=
  ∃ shifted,
    numbers = shifted ++ workQueue st ∧
    numberObj <$> tasks st = filter (λ x, truthy x = true) shifted.

(** [this.results] holds the results the invocations have returned. *)
Definition recorded (st : state) : Prop :=
  results st ≡ₚ omap result_of (tasks st).

(** A promise that is not settled is in the [concurrentTasks] of some
    worker. *)
Definition held (st : state) : Prop :=
  ∀ tid t, tasks st !! tid = Some t → is_settled t = false →
    ∃ w x, workers st !! w = Some x ∧ tid ∈ concurrentTasks x.

(** A worker that has returned holds settled promises only. *)
Definition finished_clear (st : state) : Prop :=
  ∀ w x, workers st !! w = Some x → at_pc x = Finished →
    Forall (λ p, task_settled st p = true) (concurrentTasks x).

(** A worker has left its loop. *)
Definition past_loop (x : worker) : Prop :=
  at_pc x = AwaitAll ∨ at_pc x = Finished.

(** Once a worker has left its loop the queue is empty. *)
Definition drained (st : state) : Prop :=
  workQueue st = [] ∨ ∀ w x, workers st !! w = Some x → ¬ past_loop x.

(** What one run of [processNumber] between two [await]s does: it
    touches neither the queue nor the workers nor the promises, and
    records the result it returns, if it returns one. *)
Definition advances (o : options) (t : task) (st : state)
    (ts : task * state) : Prop :=
  numberObj ts.1 = numberObj t ∧
  tasks ts.2 = tasks st ∧ workers ts.2 = workers st ∧
  workQueue ts.2 = workQueue st ∧
  results ts.2 = results st ++ from_option (λ r, [r]) [] (result_of ts.1) ∧
  task_ok o ts.1.

(** The invariant of a run with [n] sessions over [numbers]. *)
Record inv (o : options) (n : nat) (numbers : list item) (st : state)
  : Prop := Inv {
  inv_workers : length (workers st) = n;
  inv_accounted : accounted numbers st;
  inv_recorded : recorded st;
  inv_held : held st;
  inv_finished : finished_clear st;
  inv_drained : drained st;
  inv_tasks : Forall (task_ok o) (tasks st) }.

(** With [maxRetries] zero: something is queued or in flight, no worker
    has left its loop, every invocation has returned [undefined], and
    nothing was called or recorded. *)
Definition pending (st : state) : Prop :=
  Exists (λ x, truthy x = true) (workQueue st) ∨ processing st ≠ ∅.

Record stuck (st : state) : Prop := Stuck {
  stuck_pending : pending st;
  stuck_loop : ∀ w x, workers st !! w = Some x → ¬ past_loop x;
  stuck_tasks : Forall (λ t, pc t = Settled None ∧ issued t = 0%nat) (tasks st);
  stuck_results : results st = [];
  stuck_calls : calls st = 0%nat;
  stuck_stats : processed (stats st) = 0%nat ∧ total_verified (stats st) = 0%nat
                ∧ total_errors (stats st) = 0%nat }.

(** The options of [new OptimizedWhatsAppValidator()], one ready
    session, and a transport whose first call throws. *)
Definition default_options : options :=
  constructor (ConstructorOptions None None None None None).

(** The options of [new OptimizedWhatsAppValidator({ maxRetries: 0 })]. *)
Definition zero_retries : options :=
  constructor (ConstructorOptions None None None None (Some 0%nat)).

Definition one_session : list session := [Session 0 true 0 0 0 None].

Definition flaky : transport :=
  λ _ call _,
    match call with
    | O => Eff.Throw (Eff.Error (Some "Evaluation failed"))
    | 1%nat => Eff.Normal true
    | _ => Eff.Normal false
    end.

Definition three_items : list item :=
  [Str "0791234567"; Str ""; Row 7 "0781234567"].

(** A schedule of the run over [three_items]: the first call fails and
    is retried while the second one succeeds. *)
Definition sample_schedule : list label :=
  [Label 10 (Settle 0); Label 20 (Settle 1); Label 30 (Resume 0);
   Label 31 (Resolved 0 true); Label 32 (Resolved 0 false);
   Label 110 (Wake 0); Label 120 (Settle 0); Label 130 (Resume 0);
   Label 131 (Resolved 0 true)].

Definition sample_run : option state :=
  exec default_options flaky sample_schedule
    (validateBatch default_options 0 one_session three_items).

(** A schedule of the run over a single empty string. *)
Definition empty_string_run : option state :=
  exec default_options flaky []
    (validateBatch default_options 0 one_session [Str ""]).


(** *** Notions used to state the bookkeeping of the scheduler *)

(** [this.stats] agrees with [this.results]. *)
Definition counted (st : state) : Prop :=
  processed (stats st) = length (results st) ∧
  total_verified (stats st)
  = length (filter (λ r, is_registered r = true) (results st)) ∧
  total_errors (stats st)
  = length (filter (λ r, status r = Input.error) (results st)).

(** No worker holds more than [concurrentPerSession] promises. *)
Definition bounded (o : options) (st : state) : Prop :=
  ∀ w x, workers st !! w = Some x →
    (length (concurrentTasks x) ≤ concurrentPerSession o)%nat.

(** The transport was called once for every call an invocation of
    [processNumber] has issued. *)
Definition calls_counted (st : state) : Prop :=
  calls st = sum_list (issued <$> tasks st).

Record tally (o : options) (st : state) : Prop := Tally {
  tally_counted : counted st;
  tally_bounded : bounded o st;
  tally_calls : calls_counted st }.

(** What one run of [processNumber] between two [await]s does to the
    books: it keeps [this.stats] in step with [this.results] and counts
    the call it issues, if any. *)
Definition books (t : task) (st : state) (ts : task * state) : Prop :=
  (counted st → counted ts.2) ∧
  (calls ts.2 + issued t = calls st + issued ts.1)%nat.


(** The promises that are not settled, by index. *)
Definition in_flight (st : state) : list nat :=
  filter (λ tid, task_settled st tid = false) (seq 0 (length (tasks st))).


(** *** Notions used to show that a run can always be completed *)

(** An item in [this.processing] belongs to an invocation of
    [processNumber] that has not returned. *)
Definition processing_in_flight (st : state) : Prop :=
  ∀ x, x ∈ processing st →
    ∃ tid t, tasks st !! tid = Some t ∧ numberObj t = x ∧ is_settled t = false.

(** The promises the workers hold exist. *)
Definition promises_exist (st : state) : Prop :=
  ∀ w x p, workers st !! w = Some x → p ∈ concurrentTasks x →
    (p < length (tasks st))%nat.

(** A worker that awaits the race holds a promise, and the index of its
    removal loop is within [concurrentTasks]. *)
Definition pc_ok (x : worker) : Prop :=
  match at_pc x with
  | AwaitRace => concurrentTasks x ≠ []
  | AwaitResolved i _ => (i < length (concurrentTasks x))%nat
  | _ => True
  end.

(** With [running = Some w] the last condition is left open for the
    worker [w], which is between two [await]s. *)
Record alive_but (running : option nat) (st : state) : Prop := Alive {
  alive_processing : processing_in_flight st;
  alive_promises : promises_exist st;
  alive_pcs : ∀ w x, running ≠ Some w → workers st !! w = Some x → pc_ok x }.

Definition alive : state → Prop := alive_but None.

(** What one run of [processNumber] between two [await]s does to
    [this.processing]: the number is deleted when the invocation
    returns. *)
Definition clears (t : task) (st : state) (ts : task * state) : Prop :=
  processing ts.2
  = if is_settled ts.1 then processing st ∖ {[numberObj t]}
    else processing st.

(** What is left to do: the attempts of an invocation, the promises and
    the suspensions of a worker. *)
Definition task_work (o : options) (t : task) : nat :=
  match pc t with
  | Calling retries _ _ => (2 * (maxRetries o - retries))%nat
  | Backoff retries => (2 * (maxRetries o - retries) + 1)%nat
  | Settled _ => 0%nat
  end.

Definition pc_work (p : worker_pc) : nat :=
  match p with
  | Finished => 0%nat
  | AwaitAll => 1%nat
  | AwaitResolved _ _ => 2%nat
  | AwaitRace => 3%nat
  | AwaitPause => 4%nat
  | AwaitIdle => 5%nat
  | AtLoop => 6%nat
  end.

Definition worker_work (x : worker) : nat :=
  (7 * length (concurrentTasks x) + pc_work (at_pc x))%nat.

(** The order in which every step of the schedule built below goes
    down: by the queue, then by the attempts left, then by the workers. *)
Definition smaller (o : options) (st' st : state) : Prop :=
  (length (workQueue st') < length (workQueue st))%nat ∨
  (length (workQueue st') = length (workQueue st) ∧
   ((sum_list (task_work o <$> tasks st')
     < sum_list (task_work o <$> tasks st))%nat ∨
    (sum_list (task_work o <$> tasks st')
     = sum_list (task_work o <$> tasks st) ∧
     (sum_list (worker_work <$> workers st')
      < sum_list (worker_work <$> workers st))%nat))).


(** *** Notions used for a run with [concurrentPerSession] zero *)

(** Nothing was taken off the queue or started, and every worker is at
    the loop test or in the pause at the end of the loop body. *)
Record starved (numbers : list item) (st : state) : Prop := Starved {
  starved_queue : workQueue st = numbers;
  starved_tasks : tasks st = [];
  starved_results : results st = [];
  starved_calls : calls st = 0%nat;
  starved_workers :
    Forall (λ x, concurrentTasks x = [] ∧
                 (at_pc x = AtLoop ∨ at_pc x = AwaitPause)) (workers st) }.

(** The options of [new OptimizedWhatsAppValidator({
    concurrentPerSession: 0 })]. *)
Definition no_slots : options :=
  constructor (ConstructorOptions None (Some 0%nat) None None None).

End Optimized.

(** ** [MultiWhatsAppValidator]: chunks and batches *)
Module MultiBatch.
Import Eff Input Multi.
Local Open Scope eff_scope.

Record options := Options { sessions : nat; checkDelay : Z; batchSize : Z }.

(** [array.slice(start, end)] *)
Definition slice {A} (start stop : nat) (array : list A) : list A :=
  take (stop - start) (drop start array).

(** [distributeWork(array, chunks)], the same text as in the rate-limited
    validator.  [Math.ceil(array.length / chunks)] is only used when the
    loop runs, that is for [chunks > 0]. *)
Definition distributeWork {A} (array : list A) (chunks : nat) : list (list A) :=
  let chunkSize := ((length array + chunks - 1) / chunks)%nat in
  (λ i, let start := (i * chunkSize)%nat in
        let stop := ((start + chunkSize) `min` length array)%nat in
        slice start stop array) <$> seq 0 chunks.

(** [await this.delay(ms)], the timer firing [late] milliseconds after
    it is due. *)
Definition delay (late ms : Z) : M unit :=
  modify (λ w, World (now w + Z.max 0 ms + late) (calls w) (sess w)).

(** [session.checked++] *)
Definition count_checked : M unit :=
  modify (λ w, World (now w) (calls w)
    (let s := sess w in
     Session (id s) (ready s) (busy s) (S (checked s)) (verified s) (errors s))).

(** [session.verified++] *)
Definition count_verified : M unit :=
  modify (λ w, World (now w) (calls w)
    (let s := sess w in
     Session (id s) (ready s) (busy s) (checked s) (S (verified s)) (errors s))).

(** The [for] loop of [validateSessionChunk] from index [i] on, [rest]
    being [numbers[i..]] and [results] the results so far.  [lag i b] is
    the lateness of the timers of turn [i]: of the delay between checks
    for [b = false], of the five-second break for [b = true]. *)
Fixpoint chunk_loop (o : options) (c : client) (lag : nat → bool → Z)
    (total i : nat) (rest : list item) (results : list result)
    : M (list result) :=
  match rest with
  | [] => ret results
  | numberObj :: rest' =>
      let number := number_of numberObj in
      let* result := validateNumber c number in
      let results := results ++ [result] in
      count_checked ;;
      when (is_registered result) count_verified ;;
      let more := Z.of_nat i <? Z.of_nat total - 1 in
      when more (delay (lag i false) (checkDelay o)) ;;
      when (Js.rem_is_zero (Z.of_nat i + 1) (batchSize o) && more)
        (delay (lag i true) 5000) ;;
      chunk_loop o c lag total (S i) rest' results
  end.

Definition validateSessionChunk (o : options) (c : client)
    (lag : nat → bool → Z) (numbers : list item) : M (list result) :=
  chunk_loop o c lag (length numbers) 0 numbers [].

(** [session.id] of [undefined]: what [validateSessionChunk] throws when
    [this.whatsappSessions[i]] does not exist. *)
Definition missing_session : Eff.error :=
  Error (Some "Cannot read properties of undefined (reading 'id')").

(** The promise [validateBatch] pushes for index [i], if any: there is
    one when the chunk exists and is not empty.  Each driver has its own
    client and timers and starts at time [t]. *)
Definition promise_of (o : options) (clients : nat → client)
    (lags : nat → nat → bool → Z) (t : Z) (whatsappSessions : list session)
    (chunks : list (list item)) (i : nat)
    : option (completion (list result) * option world) :=
  match chunks !! i with
  | Some chunk =>
      if bool_decide (chunk = []) then None
      else Some
             match whatsappSessions !! i with
             | Some s =>
                 let out := validateSessionChunk o (clients i) (lags i) chunk
                              (World t 0 s) in
                 (out.1, Some out.2)
             | None => (Throw missing_session, None)
             end
  | None => None
  end.

(** The promises [validateBatch] collects, for the indices below
    [options.sessions] in order. *)
Definition promises (o : options) (clients : nat → client)
    (lags : nat → nat → bool → Z) (t : Z) (whatsappSessions : list session)
    (numbers : list item) : list (completion (list result) * option world) :=
  omap (promise_of o clients lags t whatsappSessions
          (distributeWork numbers (sessions o)))
       (seq 0 (sessions o)).

(** [await Promise.all(promises)]: the values in the order of the
    promises, or a rejection.  When several promises reject, the one
    that rejects first in time wins; here the first in the list is
    taken. *)
Fixpoint promise_all {A} (ps : list (completion A)) : completion (list A) :=
  match ps with
  | [] => Normal []
  | Throw err :: _ => Throw err
  | Normal x :: ps' =>
      match promise_all ps' with
      | Normal l => Normal (x :: l)
      | Throw err => Throw err
      end
  end.

(** [validateBatch(numbers)]: [this.results = results.flat()] *)
Definition validateBatch (o : options) (clients : nat → client)
    (lags : nat → nat → bool → Z) (t : Z) (whatsappSessions : list session)
    (numbers : list item) : completion (list result) :=
  match promise_all ((λ p, p.1) <$>
          promises o clients lags t whatsappSessions numbers) with
  | Normal rss => Normal (concat rss)
  | Throw err => Throw err
  end.

(** [Math.min(hi, Math.max(lo, parseInt(input) || d))] of [main]:
    [parsed] is what [parseInt] returns, [None] for [NaN]. *)
Definition parsed_or (parsed : option Z) (d : Z) : Z :=
  match parsed with
  | Some v => if v =? 0 then d else v
  | None => d
  end.

(** [const sessions = Math.min(10, Math.max(1, parseInt(sessionsInput) || 1))] *)
Definition chosen_sessions (parsed : option Z) : Z :=
  Z.min 10 (Z.max 1 (parsed_or parsed 1)).

(** [const checkDelay = Math.max(100, parseInt(delayInput) || 1000)] *)
Definition chosen_checkDelay (parsed : option Z) : Z :=
  Z.max 100 (parsed_or parsed 1000).

(** A result is sound when it carries a verdict only with status
    success, and a picture only with a positive verdict. *)
Definition sound (r : result) : Prop :=
  (status r = Input.error → is_registered r = false ∧ whatsapp_id r = "") ∧
  (has_profile_pic r = true → is_registered r = true).

(** A client that finds every number registered, without a picture. *)
Definition all_registered : client :=
  Client (λ _ _, Reply (Normal true) 0) (λ _ _, Reply (Normal None) 0).

Definition two_sessions : list session :=
  [Session 0 true false 0 0 0; Session 1 true false 0 0 0].

Definition three_numbers : list item :=
  [Str "0791234567"; Row 1 "0781234567"; Str "0771234567"].

End MultiBatch.

(** ** [WhatsAppAggregator]: the master file of verified numbers *)
Module Aggregator.

(** A row as [csv-parser] yields it: every column of the header holds a
    string, a column the file does not have is [undefined] ([None]).
    A value read from a CSV file is never the boolean [true]. *)
Record row := Row {
  number : option string; whatsapp_id : option string;
  is_registered : option string; has_profile_pic : option string;
  about : option string; checked_at : option string }.

(** [row.has_profile_pic || false] *)
Inductive pic := PicFalse | PicText (s : string).

Record verified_entry := VerifiedEntry {
  entry_number : option string; entry_whatsapp_id : string;
  entry_has_profile_pic : pic; entry_about : string;
  carrier_prefix : string;
  first_verified_at : string; last_verified_at : string }.

(** Truthiness of a string or [undefined]. *)
Definition truthy (v : option string) : bool :=
  match v with Some s => Js.truthy_string s | None => false end.

(** [v || '']*)
Definition or_empty (v : option string) : string :=
  match v with Some s => s | None => "" end.

(** What [fs] and the aggregator object hold: the rows of the master
    file ([None] when it does not exist), the [verifiedNumbers] set,
    whose keys are strings or [undefined], and the number of [Date]
    objects constructed so far. *)
Record state := State {
  masterFile : option (list verified_entry);
  verifiedNumbers : gset (option string);
  dates : nat }.

(** The [number] column of a master-file row when it is read back:
    [csv-writer] writes [undefined] as an empty field. *)
Definition read_number (e : verified_entry) : string :=
  or_empty (entry_number e).

(** [loadExistingNumbers()] *)
Definition loadExistingNumbers (st : state) : state :=
  match masterFile st with
  | None => st
  | Some rows =>
      State (masterFile st)
        (foldl (λ v e, if Js.truthy_string (read_number e)
                       then {[Some (read_number e)]} ∪ v else v)
           (verifiedNumbers st) rows)
        (dates st)
  end.

(** [row.is_registered === true || row.is_registered === 'true' ||
    row.is_registered === '1'] *)
Definition isRegistered (r : row) : bool :=
  bool_decide (is_registered r = Some "true") ||
  bool_decide (is_registered r = Some "1").

(** The accumulators of [aggregateResults]. *)
Record progress := Progress {
  newVerifiedNumbers : list verified_entry;
  totalProcessed : nat; newlyAdded : nat }.

(** [new Date().toISOString()], by the ordinal of the [Date]. *)
Definition clock := nat → string.

(** The ['data'] handler of [aggregateResults].  The object literal of
    the entry constructs a [Date] for [first_verified_at] only when
    [row.checked_at] is falsy, and then one for [last_verified_at]. *)
Definition on_data (iso : clock) (r : row) (acc : progress * state)
  : progress * state :=
  let '(p, st) := acc in
  let p := Progress (newVerifiedNumbers p) (S (totalProcessed p))
             (newlyAdded p) in
  if isRegistered r && negb (bool_decide (number r ∈ verifiedNumbers st))
  then
    let stamped := truthy (checked_at r) in
    let first_at := if stamped then or_empty (checked_at r)
                    else iso (dates st) in
    let d := if stamped then dates st else S (dates st) in
    let entry :=
      VerifiedEntry (number r) (or_empty (whatsapp_id r))
        (if truthy (has_profile_pic r)
         then PicText (or_empty (has_profile_pic r)) else PicFalse)
        (or_empty (about r))
        (if truthy (number r)
         then String.substring 0 3 (or_empty (number r)) else "")
        first_at (iso d) in
    (Progress (newVerifiedNumbers p ++ [entry]) (totalProcessed p)
       (S (newlyAdded p)),
     State (masterFile st) ({[number r]} ∪ verifiedNumbers st) (S d))
  else (p, st).

(** [appendToMasterFile(newNumbers)]: [append: fileExists] *)
Definition appendToMasterFile (newNumbers : list verified_entry)
    (st : state) : state :=
  State (match masterFile st with
         | Some old => Some (old ++ newNumbers)
         | None => Some newNumbers
         end)
    (verifiedNumbers st) (dates st).

Record summary := Summary {
  sum_totalProcessed : nat; sum_newlyAdded : nat; totalVerified : nat }.

(** [aggregateResults(validationResultsFile)], [rows] being the rows of
    the file. *)
Definition aggregateResults (iso : clock) (rows : list row) (st : state)
  : summary * state :=
  let '(p, st) := foldl (λ acc r, on_data iso r acc)
                    (Progress [] 0 0, st) rows in
  let st := match newVerifiedNumbers p with
            | [] => st
            | _ :: _ => appendToMasterFile (newVerifiedNumbers p) st
            end in
  (Summary (totalProcessed p) (newlyAdded p) (size (verifiedNumbers st)), st).

(** [new WhatsAppAggregator()] over the given master file. *)
Definition fresh (master : option (list verified_entry)) (d : nat) : state :=
  State master ∅ d.

(** [await aggregator.loadExistingNumbers();
     await aggregator.aggregateResults(file)] on a new aggregator, as the
    validators do after saving their results. *)
Definition aggregate_run (iso : clock) (rows : list row)
    (master : option (list verified_entry)) (d : nat) : summary * state :=
  aggregateResults iso rows (loadExistingNumbers (fresh master d)).

(** [`+962${number.substring(1)}`] of [exportVerifiedNumbers] *)
Definition formatted (number : string) : string :=
  "+962" +:+ Js.substring 1 number.

(** [getCarrier(number)] *)
Definition getCarrier (number : string) : string :=
  let prefix := String.substring 0 3 number in
  if String.eqb prefix "077" then "Orange Jordan"
  else if String.eqb prefix "078" then "Zain/Umniah"
  else if String.eqb prefix "079" then "Zain Jordan"
  else "Unknown".

(** The entries a run appended: the master file without the rows it had
    before. *)
Definition appended (before after : option (list verified_entry))
  : list verified_entry :=
  drop (length (default [] before)) (default [] after).

(** Two result rows, one of them without a number. *)
Definition sample_rows : list row :=
  [Row (Some "0791234567") (Some "962791234567@c.us") (Some "true")
     (Some "false") (Some "") (Some "2024-01-01T00:00:00.000Z");
   Row (Some "") (Some "") (Some "true") None None None].

End Aggregator.

(** * Properties *)

(** ** Normalization *)
Module NormalizeFacts.
Import Normalize.

Lemma of_chars_app (a b : list ascii) :
  of_chars (a ++ b) = of_chars a +:+ of_chars b.
Proof. induction a as [|c a IH]; simpl; [done | by rewrite IH]. Qed.

Lemma replace_non_digits_chars (s : string) :
  Js.replace_non_digits s = of_chars (digits_of s).
Proof.
  unfold digits_of, chars_of.
  induction s as [|c s IH]; simpl; [done |].
  rewrite filter_cons. destruct (Js.is_digit c) eqn:E.
  - rewrite decide_True by done. simpl. by rewrite IH.
  - rewrite decide_False by (by intros ?). exact IH.
Qed.

Lemma startsWith_chars (p d : list ascii) :
  Js.startsWith (of_chars p) (of_chars d)
  = bool_decide (take (length p) d = p).
Proof.
  revert d. induction p as [|a p IH]; intros d; simpl.
  - done.
  - destruct d as [|b d]; simpl; [done |].
    destruct (decide (a = b)) as [->|Hne].
    + rewrite IH. apply bool_decide_ext. split; [by intros -> | congruence].
    + symmetry. apply bool_decide_eq_false. congruence.
Qed.

Lemma substring_chars (n : nat) (d : list ascii) :
  Js.substring n (of_chars d) = of_chars (drop n d).
Proof.
  revert d. induction n as [|n IH]; intros d; simpl; [done |].
  destruct d as [|c d]; simpl; [done | apply IH].
Qed.

Lemma startsWith_962 (d : list ascii) :
  Js.startsWith "962" (of_chars d)
  = bool_decide (take 3 d = chars_of "962").
Proof. exact (startsWith_chars (chars_of "962") d). Qed.

(** The validators' two lines compute the rule of the specification. *)
Lemma normalize_is_spec (x : string) : normalize x = normalize_spec x.
Proof.
  unfold normalize, normalize_spec.
  rewrite replace_non_digits_chars, startsWith_962, substring_chars.
  destruct (decide (take 3 (digits_of x) = chars_of "962")) as [H|H].
  - by rewrite bool_decide_eq_true_2.
  - rewrite bool_decide_eq_false_2 by done. by rewrite of_chars_app.
Qed.

Lemma whatsappId_normalize (x : string) :
  whatsappId x = normalize x +:+ "@c.us".
Proof.
  unfold whatsappId, normalize.
  by destruct (Js.startsWith "962" (Js.replace_non_digits x)).
Qed.

Lemma replace_non_digits_all_digits (s : string) :
  all_digits (Js.replace_non_digits s).
Proof.
  unfold all_digits, chars_of.
  induction s as [|c s IH]; simpl; [constructor |].
  destruct (Js.is_digit c) eqn:E; simpl; [by constructor | done].
Qed.

Lemma replace_non_digits_fixed (s : string) :
  all_digits s → Js.replace_non_digits s = s.
Proof.
  unfold all_digits, chars_of.
  induction s as [|c s IH]; simpl; [done |].
  intros H. apply Forall_cons in H as [Hc Hs].
  rewrite Hc. by rewrite IH.
Qed.

Lemma substring_all_digits (n : nat) (s : string) :
  all_digits s → all_digits (Js.substring n s).
Proof.
  unfold all_digits, chars_of. revert s.
  induction n as [|n IH]; intros s H; simpl; [done |].
  destruct s as [|c s]; simpl in *; [done |].
  apply IH. by apply Forall_cons in H as [_ ?].
Qed.

Lemma normalize_all_digits (x : string) : all_digits (normalize x).
Proof.
  unfold normalize.
  destruct (Js.startsWith "962" (Js.replace_non_digits x)).
  - apply replace_non_digits_all_digits.
  - unfold all_digits, chars_of. simpl.
    repeat (constructor; [done |]).
    apply (substring_all_digits 1), replace_non_digits_all_digits.
Qed.

Lemma normalize_starts_with_962 (x : string) :
  Js.startsWith "962" (normalize x) = true.
Proof.
  unfold normalize.
  by destruct (Js.startsWith "962" (Js.replace_non_digits x)) eqn:E.
Qed.

(** The true half of the idempotence property: normalizing twice is
    normalizing once. *)
Lemma normalize_idempotent (x : string) :
  normalize (normalize x) = normalize x.
Proof.
  unfold normalize at 1.
  rewrite (replace_non_digits_fixed _ (normalize_all_digits x)).
  by rewrite normalize_starts_with_962.
Qed.

(** C5, as the code has it.  Normalization is idempotent, and the
    spelling of a number with a leading zero and its spelling with the
    country prefix normalize to the same identifier: for every string
    of digits [d], both ["0" ++ d] and ["962" ++ d] normalize to
    ["962" ++ d], so that "0791234567" and "962791234567" both give
    "962791234567".  A bare spelling is not equivalent to them: of a
    number whose digits do not start with 962 the first digit is
    dropped, whatever it is, so that "791234567" gives "96291234567". *)
Theorem normalize_idempotent_and_variants :
  (∀ x, normalize (normalize x) = normalize x) ∧
  (∀ d, all_digits d →
     normalize ("0" +:+ d) = "962" +:+ d ∧
     normalize ("962" +:+ d) = "962" +:+ d) ∧
  (∀ x, Js.startsWith "962" (Js.replace_non_digits x) = false →
     normalize x = "962" +:+ Js.substring 1 (Js.replace_non_digits x)) ∧
  normalize "0791234567" = "962791234567" ∧
  normalize "962791234567" = "962791234567" ∧
  normalize "791234567" = "96291234567".
Proof.
  split_and!; try reflexivity.
  - exact normalize_idempotent.
  - intros d Hd. unfold normalize.
    change (Js.replace_non_digits ("0" +:+ d))
      with (String "0" (Js.replace_non_digits d)).
    change (Js.replace_non_digits ("962" +:+ d))
      with (String "9" (String "6" (String "2" (Js.replace_non_digits d)))).
    rewrite (replace_non_digits_fixed d Hd). split; reflexivity.
  - intros x Hx. unfold normalize. by rewrite Hx.
Qed.

(** C5 as stated fails: the bare spelling of a number does not
    normalize to the identifier of its spelling with a leading zero. *)
Lemma bare_variant_is_not_equivalent :
  ¬ (normalize "0791234567" = normalize "791234567" ∧
     normalize "791234567" = "962791234567").
Proof. intros [H _]. vm_compute in H. discriminate. Qed.

End NormalizeFacts.

(** Unfolding of the monadic primitives. *)
Ltac eff_unfold :=
unfold Eff.when, Eff.bind, Eff.ret, Eff.try_catch, Eff.get, Eff.gets,
  Eff.modify, Eff.throw in *.

(** ** The per-number check of the chunked validator *)
Module MultiFacts.
Import Eff Input Multi.

(** What [validateNumber] returns, by the kind of its argument and the
    answer of the transport: it always returns a result. *)
Lemma validateNumber_returns (c : client) (number : item) (w : world) :
  ∃ r w', validateNumber c number w = (Normal r, w') ∧
    Multi.number r = number ∧ session_id r = id (sess w) ∧
    match number with
    | Str x =>
        match outcome (isRegisteredUser c (calls w) (Normalize.whatsappId x)) with
        | Normal b =>
            status r = success ∧ is_registered r = b ∧
            whatsapp_id r = Normalize.whatsappId x ∧ error r = None ∧
            errors (sess w') = errors (sess w)
        | Throw e =>
            status r = Input.error ∧ is_registered r = false ∧
            whatsapp_id r = "" ∧ error r = message e ∧
            errors (sess w') = S (errors (sess w))
        end
    | Row _ _ =>
        status r = Input.error ∧ is_registered r = false ∧
        whatsapp_id r = "" ∧ error r = message not_a_function ∧
        errors (sess w') = S (errors (sess w))
    end.
Proof.
  destruct number as [x|ref n].
  - unfold validateNumber, call_isRegisteredUser, call_getProfilePicUrl,
      await_call, count_error, Input.replace_non_digits.
    eff_unfold. fold (Normalize.whatsappId x). simpl.
    destruct (outcome (isRegisteredUser c (calls w) (Normalize.whatsappId x)))
      as [[|]|e]; simpl.
    + destruct (outcome (getProfilePicUrl c (S (calls w)) (Normalize.whatsappId x)));
        simpl; eauto 10.
    + eauto 10.
    + eauto 10.
  - unfold validateNumber, count_error, Input.replace_non_digits.
    eff_unfold. simpl. eauto 10.
Qed.

End MultiFacts.

(** ** The rate-limited validator *)
Module SafeFacts.
Import Eff Input Safe.
Local Arguments Qfloor : simpl never.
Local Arguments Qmult : simpl never.
Local Arguments Qplus : simpl never.
Local Arguments inject_Z : simpl never.

(** Reduction of the record projections and of the control flow, and
    of nothing else. *)
Ltac world_reduce :=
  cbv beta iota zeta delta
    [now timers draws calls writes sess results verifiedNumbers masterFile
     log id ready busy checked verified errors lastCheckTime
     totalChecksThisHour hourStartTime number whatsapp_id is_registered
     checked_at status error session_id outcome took message andb negb
     fst snd].

Ltac safe_unfold :=
  unfold validateNumber, appendVerifiedNumberImmediately, shared_verified,
    append_to_master, remember_verified, carrier_prefix_of, call_isRegisteredUser,
    checkRateLimit, reset_window, delay, date_now, math_random, emit,
    update_session, push_result, Input.replace_non_digits;
  eff_unfold; world_reduce.

(** Case analysis on the answer of a reply, reducing as it goes. *)
Ltac on_reply r :=
  let o := fresh "out" in
  let d := fresh "d" in
  destruct r as [o d]; world_reduce; destruct o; world_reduce.

Lemma whatsappId_inline (x : string) :
  (if Js.startsWith "962" (Js.replace_non_digits x)
   then Js.replace_non_digits x +:+ "@c.us"
   else "962" +:+ Js.substring 1 (Js.replace_non_digits x) +:+ "@c.us")
  = Normalize.whatsappId x.
Proof. reflexivity. Qed.

(** The per-number check of the rate-limited validator, by what its
    [catch] block gets to see. *)
Lemma validateNumber_cases (e : env) (number : item) (w : world) :
  match caught e number w with
  | None =>
      ∃ x b w',
        number = Str x ∧
        outcome (isRegisteredUser e (calls w) (Normalize.whatsappId x)) = Normal b ∧
        validateNumber e number w
        = (Normal (Result number (Normalize.whatsappId x) b
                     (now w + took (isRegisteredUser e (calls w) (Normalize.whatsappId x)))
                     success None (id (sess w))), w') ∧
        errors (sess w') = errors (sess w)
  | Some err =>
      if ban_signature err then
        ∃ w', validateNumber e number w = (Throw err, w') ∧
              errors (sess w') = S (errors (sess w)) ∧
              ∃ l, log w' = l ++ [EvBanAlert (id (sess w))]
      else
        ∃ w' r, validateNumber e number w = (Normal r, w') ∧
                r = Result number "" false (now w') Input.error
                      (message err) (id (sess w)) ∧
                errors (sess w') = S (errors (sess w))
  end.
Proof.
  destruct w as [t tm dr ca wr [i rd bs ch vf er lc tc hs] rs vn mf lg].
  destruct number as [x|ref n]; unfold caught; world_reduce.
  - pose proof (whatsappId_inline x) as Hwid.
    safe_unfold. rewrite Hwid.
    destruct (isRegisteredUser e ca (Normalize.whatsappId x))
      as [[[|]|err] d] eqn:Hrep; world_reduce.
    + destruct (bool_decide (Str x ∈ vn ∪ others e (S ca))); world_reduce.
      * eexists x, true, _. rewrite Hrep. by world_reduce.
      * destruct (writeRecords e wr) as [[[]|err] d']; world_reduce.
        -- eexists x, true, _. rewrite Hrep. by world_reduce.
        -- destruct (ban_signature err); world_reduce;
             [eexists; split_and!; [done | done | by eexists]
             | by eexists _, _].
    + eexists x, false, _. rewrite Hrep. by world_reduce.
    + destruct (ban_signature err); world_reduce;
        [eexists; split_and!; [done | done | by eexists]
        | by eexists _, _].
  - safe_unfold. change (ban_signature not_a_function) with false.
    world_reduce. by eexists _, _.
Qed.

(** What [validateNumber] leaves alone and what it logs. *)
Lemma validateNumber_frame (e : env) (number : item) (w : world)
    (c : completion result) (w' : world) :
  validateNumber e number w = (c, w') →
  draws w' = draws w ∧ timers w' = timers w ∧ results w' = results w ∧
  id (sess w') = id (sess w) ∧
  totalChecksThisHour (sess w') = totalChecksThisHour (sess w) ∧
  hourStartTime (sess w') = hourStartTime (sess w) ∧
  log w' = log w
           ++ match number with
              | Str x => [EvCheck (now w) (Normalize.whatsappId x)]
              | Row _ _ => []
              end
           ++ match c with
              | Throw _ => [EvBanAlert (id (sess w))]
              | Normal _ => []
              end ∧
  match c with Throw err => ban_signature err = true | Normal _ => True end ∧
  (monotone e → now w ≤ now w').
Proof.
  destruct w as [t tm dr ca wr [i rd bs ch vf er lc tc hs] rs vn mf lg].
  destruct number as [x|ref n].
  - pose proof (whatsappId_inline x) as Hwid.
    safe_unfold. rewrite Hwid.
    assert (Hmono : monotone e →
              0 ≤ took (isRegisteredUser e ca (Normalize.whatsappId x)) ∧
              0 ≤ took (writeRecords e wr)).
    { intros (_ & H1 & H2). split; [apply H1 | apply H2]. }
    destruct (isRegisteredUser e ca (Normalize.whatsappId x))
      as [[[|]|err] d]; world_reduce.
    + destruct (bool_decide (Str x ∈ vn ∪ others e (S ca))); world_reduce.
      * intros [= <- <-]; world_reduce. rewrite <- ?app_assoc, ?app_nil_r.
        split_and!; try done. intros H; apply Hmono in H. simpl in H. lia.
      * destruct (writeRecords e wr) as [[[]|err] d']; world_reduce.
        -- intros [= <- <-]; world_reduce. rewrite <- ?app_assoc, ?app_nil_r.
           split_and!; try done. intros H; apply Hmono in H. simpl in H. lia.
        -- destruct (ban_signature err) eqn:Hb; world_reduce;
             intros [= <- <-]; world_reduce;
             rewrite <- ?app_assoc, ?app_nil_r;
             (split_and!; try done); intros H; apply Hmono in H;
             simpl in H; lia.
    + intros [= <- <-]; world_reduce. rewrite <- ?app_assoc, ?app_nil_r.
      split_and!; try done. intros H; apply Hmono in H. simpl in H. lia.
    + destruct (ban_signature err) eqn:Hb; world_reduce;
        intros [= <- <-]; world_reduce; rewrite <- ?app_assoc, ?app_nil_r;
        (split_and!; try done); intros H; apply Hmono in H; simpl in H; lia.
  - safe_unfold. change (ban_signature not_a_function) with false.
    world_reduce. intros [= <- <-]; world_reduce. rewrite ?app_nil_r.
    split_and!; try done.
Qed.

(** The rate-limit gate, case by case. *)
Lemma checkRateLimit_spec (o : options) (e : env) (w : world) :
  ∃ w', checkRateLimit o e w = (Normal tt, w') ∧
    draws w' = draws w ∧ calls w' = calls w ∧ writes w' = writes w ∧
    results w' = results w ∧ verifiedNumbers w' = verifiedNumbers w ∧
    id (sess w') = id (sess w) ∧
    let elapsed := now w - hourStartTime (sess w) in
    if elapsed >? 3600000 then
      1 ≤ maxChecksPerHour o →
      now w' = now w ∧ log w' = log w ++ [EvWindow (now w)] ∧
      totalChecksThisHour (sess w') = 1 ∧ hourStartTime (sess w') = now w
    else if totalChecksThisHour (sess w) >=? maxChecksPerHour o then
      now w' = now w + Z.max 0 (3600000 - elapsed) + lag e (timers w) ∧
      log w' = log w ++ [EvDelay RateLimitWait (inject_Z (3600000 - elapsed));
                         EvWindow (now w')] ∧
      totalChecksThisHour (sess w') = 1 ∧ hourStartTime (sess w') = now w'
    else
      now w' = now w ∧ log w' = log w ∧
      totalChecksThisHour (sess w') = totalChecksThisHour (sess w) + 1 ∧
      hourStartTime (sess w') = hourStartTime (sess w).
Proof.
  destruct w as [t tm dr ca wr [i rd bs ch vf er lc tc hs] rs vn mf lg].
  safe_unfold.
  destruct (t - hs >? 3600000) eqn:E1; world_reduce.
  - destruct (0 >=? maxChecksPerHour o) eqn:E2; world_reduce.
    + apply Z.geb_le in E2. eexists; split_and!; try done. lia.
    + eexists; split_and!; done.
  - destruct (tc >=? maxChecksPerHour o) eqn:E2; world_reduce.
    + eexists; split_and!; try done.
      * by rewrite Qfloor_Z.
      * by rewrite <- app_assoc, Qfloor_Z.
    + eexists; split_and!; done.
Qed.
Lemma rem_is_zero_whole (m n : Z) : Js.rem_is_zero m n = whole_batches n m.
Proof.
  unfold Js.rem_is_zero, whole_batches.
  destruct (Z.eqb_spec n 0) as [->|Hn].
  - symmetry. apply bool_decide_eq_false. tauto.
  - destruct (Z.eqb_spec (Z.rem m n) 0) as [Hr|Hr]; symmetry.
    + apply bool_decide_eq_true. split; [done |].
      apply Z.mod_divide; [done |]. by apply Z.rem_divide.
    + apply bool_decide_eq_false. intros [_ Hm]. apply Hr.
      apply Z.rem_divide; [done |]. by apply Z.mod_divide.
Qed.


(** The part of a turn that follows the check. *)
Lemma after_check (o : options) (e : env) (more : bool) (m : Z)
    (u : Q) (r : result) (w2 : world) :
  ∃ w',
    (push_result r ;;
     update_session (λ s, Session (id s) (ready s) (busy s) (S (checked s))
                            (verified s) (errors s) (lastCheckTime s)
                            (totalChecksThisHour s) (hourStartTime s)) ;;
     when (is_registered r)
       (update_session (λ s, Session (id s) (ready s) (busy s) (checked s)
                               (S (verified s)) (errors s) (lastCheckTime s)
                               (totalChecksThisHour s) (hourStartTime s))) ;;
     when more
       (delay e CheckDelay
          (inject_Z (checkDelay o) * ((8 # 10) + u * (4 # 10)))%Q) ;;
     when (whole_batches (batchSize o) m && more)
       (let* r' := math_random e in
        delay e Break (inject_Z (breakDuration o) + r' * inject_Z 2000)%Q) ;;
     when (whole_batches 200 m && more)
       (delay e ExtendedBreak (inject_Z 10000)))%eff w2 = (Normal tt, w') ∧
    results w' = results w2 ++ [r] ∧
    log w' = log w2 ++ policy_pauses o more m u (random e (draws w2)) ∧
    id (sess w') = id (sess w2) ∧
    totalChecksThisHour (sess w') = totalChecksThisHour (sess w2) ∧
    hourStartTime (sess w') = hourStartTime (sess w2) ∧
    (monotone e → now w2 ≤ now w').
Proof.
  destruct w2 as [t tm dr ca wr [i rd bs ch vf er lc tc hs] rs vn mf lg].
  destruct r as [rn rw rr rc rst rer rsi].
  unfold policy_pauses, jitter. safe_unfold.
  destruct rr; world_reduce;
    destruct more; world_reduce;
    destruct (whole_batches (batchSize o) m); world_reduce;
    destruct (whole_batches 200 m); world_reduce;
    (eexists; split; [reflexivity |]); world_reduce;
    (split_and!;
     [reflexivity | by rewrite <- ?app_assoc, ?app_nil_r
     | reflexivity | reflexivity | reflexivity |]);
    intros (Hlag & _);
    pose proof (Hlag tm); pose proof (Hlag (S tm));
    pose proof (Hlag (S (S tm))); lia.
Qed.

(** One turn of the loop: the gate, the draw, the check, and then
    either the rethrown ban error or the push and the pauses. *)
Lemma iteration_run (o : options) (e : env) (total i processed : nat)
    (numberObj : item) (w : world) :
  ∃ w1 c2 w2,
    checkRateLimit o e w = (Normal tt, w1) ∧
    validateNumber e (number_of numberObj) (math_random e w1).2 = (c2, w2) ∧
    match c2 with
    | Throw err =>
        iteration o e total i processed numberObj w = (Throw err, w2)
    | Normal r =>
        ∃ w', iteration o e total i processed numberObj w = (Normal tt, w') ∧
          results w' = results w2 ++ [r] ∧
          log w' = log w2
                   ++ policy_pauses o (Z.of_nat i <? Z.of_nat total - 1)
                        (Z.of_nat (S processed))
                        (random e (draws w1)) (random e (S (draws w1))) ∧
          id (sess w') = id (sess w2) ∧
          totalChecksThisHour (sess w') = totalChecksThisHour (sess w2) ∧
          hourStartTime (sess w') = hourStartTime (sess w2) ∧
          (monotone e → now w2 ≤ now w')
    end.
Proof.
  destruct (checkRateLimit_spec o e w) as (w1 & Hrl & _).
  destruct (validateNumber e (number_of numberObj) (math_random e w1).2)
    as [c2 w2] eqn:Hv.
  exists w1, c2, w2. split; [done |]. split; [done |].
  pose proof (validateNumber_frame _ _ _ _ _ Hv) as (Hd & _).
  simpl in Hd.
  assert (Hstep : ∀ k : Q → result → M unit,
    (checkRateLimit o e ;; let* r := math_random e in
     let* result := validateNumber e (number_of numberObj) in k r result)%eff w
    = match c2 with
      | Normal r => k (random e (draws w1)) r w2
      | Throw err => (Throw err, w2)
      end).
  { intros k. unfold Eff.bind at 1. rewrite Hrl.
    unfold Eff.bind at 1. unfold math_random at 1.
    unfold Eff.bind at 1. unfold math_random in Hv. simpl in Hv.
    rewrite Hv. by destruct c2. }
  destruct c2 as [r|err].
  2: { unfold iteration. apply (Hstep (λ _ _, _)). }
  unfold iteration.
  rewrite (Hstep (λ r result, _)).
  rewrite !rem_is_zero_whole, <- Hd.
  apply after_check.
Qed.

(** *** The window counter along the log *)

Lemma window_count_app (l evs : list event) :
  window_count (l ++ evs) = foldl count_step (window_count l) evs.
Proof. unfold window_count. by rewrite foldl_app. Qed.

Lemma window_bound_nil (o : options) :
  0 ≤ maxChecksPerHour o → window_bound o [].
Proof.
  intros Hmax l1 l2 H. symmetry in H. apply app_eq_nil in H as [-> _].
  exact Hmax.
Qed.

Lemma window_bound_app (o : options) (l evs : list event) :
  window_bound o l →
  (∀ p s, evs = p ++ s →
          foldl count_step (window_count l) p ≤ maxChecksPerHour o) →
  window_bound o (l ++ evs).
Proof.
  intros Hl Hevs l1 l2 Heq.
  apply app_eq_app in Heq as [k [[-> ->]|[-> ->]]].
  - by eapply Hl.
  - rewrite window_count_app. by eapply Hevs.
Qed.

Lemma waits_bounded_app (l evs : list event) :
  waits_bounded l →
  (∀ ms, EvDelay RateLimitWait ms ∈ evs →
         (0 <= ms)%Q ∧ (ms <= inject_Z 3600000)%Q) →
  waits_bounded (l ++ evs).
Proof.
  intros Hl Hevs ms Hin. apply elem_of_app in Hin as [Hin|Hin]; auto.
Qed.

Lemma policy_pauses_no_gate (o : options) (more : bool) (m : Z) (u u' : Q) :
  Forall (λ ev, ¬ gate_event ev) (policy_pauses o more m u u').
Proof.
  unfold policy_pauses.
  destruct more, (whole_batches (batchSize o) m), (whole_batches 200 m);
    simpl; repeat constructor; tauto.
Qed.

Lemma foldl_count_pauses (c : Z) (evs : list event) :
  Forall (λ ev, ¬ gate_event ev) evs → foldl count_step c evs = c.
Proof.
  induction 1 as [|ev evs Hev _ IH]; simpl; [done |].
  rewrite <- IH at 2. f_equal.
  destruct ev as [| [] | |]; simpl in *; tauto.
Qed.

(** Appending pauses of the delay policy changes no window. *)
Lemma window_pauses (o : options) (l evs : list event) :
  Forall (λ ev, ¬ gate_event ev) evs →
  window_count l ≤ maxChecksPerHour o →
  window_bound o l → waits_bounded l →
  window_count (l ++ evs) = window_count l ∧
  window_bound o (l ++ evs) ∧ waits_bounded (l ++ evs).
Proof.
  intros Hevs Hc Hb Hw. split; [| split].
  - rewrite window_count_app. by apply foldl_count_pauses.
  - apply window_bound_app; [done |]. intros p s' ->.
    apply Forall_app in Hevs as [Hp _].
    by rewrite foldl_count_pauses.
  - apply waits_bounded_app; [done |]. intros ms Hin.
    rewrite Forall_forall in Hevs. by destruct (Hevs _ Hin).
Qed.

(** After the gate there is room for one check in the window. *)
Lemma gate_window (o : options) (e : env) (w w1 : world) :
  1 ≤ maxChecksPerHour o → monotone e → window_ok o w →
  checkRateLimit o e w = (Normal tt, w1) →
  hourStartTime (sess w1) ≤ now w1 ∧
  window_count (log w1) + 1 ≤ totalChecksThisHour (sess w1) ∧
  totalChecksThisHour (sess w1) ≤ maxChecksPerHour o ∧
  window_bound o (log w1) ∧ waits_bounded (log w1) ∧
  id (sess w1) = id (sess w) ∧ results w1 = results w.
Proof.
  intros Hmax (Hlag & _) (Hhs & Hc & Ht & Hb & Hw) Hrl.
  destruct (checkRateLimit_spec o e w)
    as (w1' & Hrl' & _ & _ & _ & Hres & _ & Hid & Hcase).
  rewrite Hrl in Hrl'. injection Hrl' as <-.
  simpl in Hcase.
  destruct (now w - hourStartTime (sess w) >? 3600000) eqn:E1.
  - destruct (Hcase Hmax) as (Hn & Hl & Ht1 & Hh1).
    rewrite Hl, Ht1, Hh1, Hn, window_count_app. simpl.
    split_and!; try done; try lia.
    + apply window_bound_app; [done |]. intros p s' Heq.
      destruct p as [|? [|? p]]; simplify_eq/=; lia.
    + apply waits_bounded_app; [done |]. intros ms Hin.
      apply list_elem_of_singleton in Hin. done.
  - rewrite Z.gtb_ltb in E1. apply Z.ltb_ge in E1.
    destruct (totalChecksThisHour (sess w) >=? maxChecksPerHour o) eqn:E2.
    + destruct Hcase as (Hn & Hl & Ht1 & Hh1).
      rewrite Hl, Ht1, Hh1, window_count_app. simpl.
      split_and!; try done; try lia.
      * apply window_bound_app; [done |]. intros p s' Heq.
        destruct p as [|? [|? [|? p]]]; simplify_eq/=; lia.
      * apply waits_bounded_app; [done |]. intros ms Hin.
        apply elem_of_cons in Hin as [[= ->]|Hin].
        -- split.
           ++ change 0%Q with (inject_Z 0). rewrite <- Zle_Qle. lia.
           ++ rewrite <- Zle_Qle. lia.
        -- apply list_elem_of_singleton in Hin. done.
    + destruct Hcase as (Hn & Hl & Ht1 & Hh1).
      assert (totalChecksThisHour (sess w) < maxChecksPerHour o).
      { rewrite Z.geb_leb in E2. apply Z.leb_gt in E2. lia. }
      rewrite Hl, Ht1, Hh1, Hn. split_and!; try done; lia.
Qed.

(** One turn of the loop keeps the window consistent; it either
    records one result or stops on a ban error. *)
Lemma iteration_window (o : options) (e : env) (total i processed : nat)
    (numberObj : item) (w : world) (c : completion unit) (w' : world) :
  1 ≤ maxChecksPerHour o → monotone e → window_ok o w →
  iteration o e total i processed numberObj w = (c, w') →
  window_ok o w' ∧ id (sess w') = id (sess w) ∧
  match c with
  | Normal _ => length (results w') = S (length (results w))
  | Throw err =>
      ban_signature err = true ∧ results w' = results w ∧
      ∃ l, log w' = l ++ [EvBanAlert (id (sess w))]
  end.
Proof.
  intros Hmax Hmono Hok Hit.
  destruct (iteration_run o e total i processed numberObj w)
    as (w1 & c2 & w2 & Hrl & Hv & Hcase).
  destruct (gate_window o e w w1 Hmax Hmono Hok Hrl)
    as (Hh1 & Hc1 & Ht1 & Hb1 & Hw1 & Hid1 & Hres1).
  destruct (validateNumber_frame _ _ _ _ _ Hv)
    as (_ & _ & Hres2 & Hid2 & Ht2 & Hh2 & Hl2 & Hban & Hnow2).
  simpl in Hres2, Hid2, Ht2, Hh2, Hl2, Hnow2.
  specialize (Hnow2 Hmono).
  set (chk := match number_of numberObj with
              | Str x => [EvCheck (now w1) (Normalize.whatsappId x)]
              | Row _ _ => []
              end) in *.
  set (alert := match c2 with
                | Throw _ => [EvBanAlert (id (sess w1))]
                | Normal _ => []
                end) in *.
  assert (Hfold : ∀ p s, chk ++ alert = p ++ s →
             foldl count_step (window_count (log w1)) p
             ≤ window_count (log w1) + 1).
  { intros p s Heq. subst chk alert.
    destruct (number_of numberObj), c2; simpl in Heq;
      destruct p as [|? [|? [|? p]]]; simplify_eq/=; lia. }
  assert (Hok2 : window_ok o w2).
  { unfold window_ok. rewrite Hh2, Ht2, Hl2. split_and!; try done.
    - lia.
    - rewrite window_count_app.
      specialize (Hfold (chk ++ alert) [] (eq_sym (app_nil_r _))). lia.
    - apply window_bound_app; [done |]. intros p s Heq.
      specialize (Hfold p s Heq). lia.
    - apply waits_bounded_app; [done |]. intros ms Hin. subst chk alert.
      destruct (number_of numberObj), c2; simpl in Hin;
        repeat (apply elem_of_cons in Hin as [[=]|Hin]);
        by apply elem_of_nil in Hin. }
  destruct c2 as [r|err].
  - destruct Hcase as (w'' & Hit' & Hres' & Hl' & Hid' & Ht' & Hh' & Hnow').
    rewrite Hit in Hit'. simplify_eq.
    destruct Hok2 as (Hhs2 & Hc2 & Htm2 & Hb2 & Hwt2).
    pose proof (window_pauses o (log w2) _
                  (policy_pauses_no_gate o (Z.of_nat i <? Z.of_nat total - 1)
                     (Z.of_nat (S processed)) (random e (draws w1))
                     (random e (S (draws w1))))
                  ltac:(lia) Hb2 Hwt2) as (Hc' & Hb' & Hw').
    rewrite <- Hl' in Hc', Hb', Hw'.
    split_and!.
    + unfold window_ok. rewrite Hh', Ht', Hc'. split_and!; try done.
      specialize (Hnow' Hmono). lia.
    + congruence.
    + rewrite Hres', Hres2, Hres1, length_app. simpl. lia.
  - rewrite Hit in Hcase. simplify_eq.
    split_and!; try done; try congruence.
    exists (log w1 ++ chk). rewrite Hl2, <- Hid1. subst alert.
    by rewrite app_assoc.
Qed.

(** The loop of a driver keeps the window consistent; it records one
    result per number unless it stops on a ban error. *)
Lemma chunk_loop_window (o : options) (e : env) (total : nat)
    (numbers : list item) :
  1 ≤ maxChecksPerHour o → monotone e →
  ∀ (i processed : nat) (w : world) (c : completion unit) (w' : world),
    window_ok o w →
    chunk_loop o e total i processed numbers w = (c, w') →
    window_ok o w' ∧ id (sess w') = id (sess w) ∧
    match c with
    | Normal _ => length (results w') = (length (results w) + length numbers)%nat
    | Throw err =>
        ban_signature err = true ∧
        (length (results w') < length (results w) + length numbers)%nat ∧
        ∃ l, log w' = l ++ [EvBanAlert (id (sess w))]
    end.
Proof.
  intros Hmax Hmono.
  induction numbers as [|numberObj rest IH]; intros i processed w c w' Hok Hrun.
  - simpl in Hrun. unfold Eff.ret in Hrun. simplify_eq.
    split_and!; try done; simpl; lia.
  - simpl in Hrun. unfold Eff.bind in Hrun.
    destruct (iteration o e total i processed numberObj w) as [c1 w1] eqn:Hit.
    destruct (iteration_window _ _ _ _ _ _ _ _ _ Hmax Hmono Hok Hit)
      as (Hok1 & Hid1 & Hc1).
    destruct c1 as [[]|err].
    + destruct (IH _ _ _ _ _ Hok1 Hrun) as (Hok' & Hid' & Hc').
      split_and!; [done | congruence |].
      destruct c as [?|err'].
      * rewrite Hc', Hc1. simpl. lia.
      * destruct Hc' as (Hb & Hlen & l & Hl). split_and!; [done | |].
        -- rewrite Hc1 in Hlen. simpl. lia.
        -- exists l. by rewrite Hl, Hid1.
    + simplify_eq. destruct Hc1 as (Hb & Hres & l & Hl).
      split_and!; try done. 
      * rewrite Hres. simpl. lia.
      * by exists l.
Qed.

(** *** The pauses between consecutive checks *)






(** *** How a driver ends *)

Lemma iteration_outcome (o : options) (e : env) (total i processed : nat)
    (numberObj : item) (w : world) (c : completion unit) (w' : world) :
  iteration o e total i processed numberObj w = (c, w') →
  id (sess w') = id (sess w) ∧
  match c with
  | Normal _ => length (results w') = S (length (results w))
  | Throw err =>
      ban_signature err = true ∧ results w' = results w ∧
      ∃ l, log w' = l ++ [EvBanAlert (id (sess w))]
  end.
Proof.
  intros Hit.
  destruct (iteration_run o e total i processed numberObj w)
    as (w1 & c2 & w2 & Hrl & Hv & Hcase).
  destruct (checkRateLimit_spec o e w)
    as (w1' & Hrl' & _ & _ & _ & Hres1 & _ & Hid1 & _).
  rewrite Hrl in Hrl'. simplify_eq.
  destruct (validateNumber_frame _ _ _ _ _ Hv)
    as (_ & _ & Hres2 & Hid2 & _ & _ & Hl2 & Hban & _).
  simpl in Hres2, Hid2, Hl2.
  destruct c2 as [r|err].
  - destruct Hcase as (w'' & Hit' & Hres' & _ & Hid' & _).
    rewrite Hit in Hit'. simplify_eq. split; [congruence |].
    rewrite Hres', Hres2, Hres1, length_app. simpl. lia.
  - rewrite Hit in Hcase. simplify_eq.
    split_and!; try done; try congruence.
    eexists. rewrite Hl2, <- Hid1, app_assoc. reflexivity.
Qed.

Lemma chunk_loop_outcome (o : options) (e : env) (total : nat)
    (numbers : list item) :
  ∀ (i processed : nat) (w : world) (c : completion unit) (w' : world),
    chunk_loop o e total i processed numbers w = (c, w') →
    id (sess w') = id (sess w) ∧
    match c with
    | Normal _ =>
        length (results w') = (length (results w) + length numbers)%nat
    | Throw err =>
        ban_signature err = true ∧
        (length (results w') < length (results w) + length numbers)%nat ∧
        ∃ l, log w' = l ++ [EvBanAlert (id (sess w))]
    end.
Proof.
  induction numbers as [|numberObj rest IH]; intros i processed w c w' Hrun.
  - simpl in Hrun. unfold Eff.ret in Hrun. simplify_eq.
    split; [done |]. simpl. lia.
  - simpl in Hrun. unfold Eff.bind in Hrun.
    destruct (iteration o e total i processed numberObj w) as [c1 w1] eqn:Hit.
    destruct (iteration_outcome _ _ _ _ _ _ _ _ _ Hit) as (Hid1 & Hc1).
    destruct c1 as [[]|err].
    + destruct (IH _ _ _ _ _ Hrun) as (Hid' & Hc').
      split; [congruence |].
      destruct c as [?|err'].
      * rewrite Hc', Hc1. simpl. lia.
      * destruct Hc' as (Hb & Hlen & l & Hl). split_and!; [done | |].
        -- rewrite Hc1 in Hlen. simpl. lia.
        -- exists l. by rewrite Hl, Hid1.
    + simplify_eq. destruct Hc1 as (Hb & Hres & l & Hl).
      split_and!; try done.
      * rewrite Hres. simpl. lia.
      * by exists l.
Qed.

(** *** [Promise.all] over the drivers *)

Lemma no_later_trans (d1 d2 d3 : completion unit * option world) :
  no_later d1 d2 → no_later d2 d3 → no_later d1 d3.
Proof.
  unfold no_later.
  destruct (d1.2) as [w1|], (d2.2) as [w2|], (d3.2) as [w3|]; try done. lia.
Qed.

Lemma no_later_total (d d' : completion unit * option world) :
  no_later d d' ∨ no_later d' d.
Proof.
  unfold no_later. destruct (d.2) as [w|], (d'.2) as [w'|]; try tauto. lia.
Qed.

Lemma no_later_refl (d : completion unit * option world) : no_later d d.
Proof. by destruct (no_later_total d d). Qed.

Lemma first_thrower (ds : list (completion unit * option world)) :
  Forall (λ d, d.1 = Normal tt) ds ∨
  ∃ i d err, ds !! i = Some d ∧ d.1 = Throw err ∧
    ∀ j d' err', ds !! j = Some d' → d'.1 = Throw err' → no_later d d'.
Proof.
  induction ds as [|d ds IH]; [by left |].
  destruct (d.1) as [[]|err] eqn:Hd, IH as [Hall|(i & d0 & err0 & Hi & Hd0 & Hmin)].
  - left. by constructor.
  - right. exists (S i), d0, err0. split_and!; [done | done |].
    intros [|j] d' err' Hj Hd'; simpl in Hj; [| by eapply Hmin].
    simplify_eq. congruence.
  - right. exists 0%nat, d, err. split_and!; [done | done |].
    intros [|j] d' err' Hj Hd'; simpl in Hj.
    + simplify_eq. apply no_later_refl.
    + rewrite Forall_lookup in Hall. specialize (Hall _ _ Hj). congruence.
  - right. destruct (no_later_total d d0) as [Hle|Hle].
    + exists 0%nat, d, err. split_and!; [done | done |].
      intros [|j] d' err' Hj Hd'; simpl in Hj.
      * simplify_eq. apply no_later_refl.
      * eapply no_later_trans; [exact Hle | by eapply Hmin].
    + exists (S i), d0, err0. split_and!; [done | done |].
      intros [|j] d' err' Hj Hd'; simpl in Hj; [by simplify_eq |].
      by eapply Hmin.
Qed.

Lemma distributeWork_sessions {A} (array : list A) (chunks : nat) :
  length (distributeWork array chunks) = chunks.
Proof. unfold distributeWork. by rewrite length_fmap, length_seq. Qed.

Lemma drivers_lookup (o : options) (envs : nat → env) (t : Z)
    (known : gset item) (ss : list session) (numbers : list item)
    (i : nat) (d : completion unit * option world) :
  drivers o envs t known ss numbers !! i = Some d →
  ∃ sessionIndex chunk,
    (sessionIndex < sessions o)%nat ∧
    distributeWork numbers (sessions o) !! sessionIndex = Some chunk ∧
    chunk ≠ [] ∧
    match ss !! sessionIndex with
    | Some s =>
        d = ((validateSessionChunk o (envs sessionIndex) chunk
                (start_world t known s)).1,
             Some (validateSessionChunk o (envs sessionIndex) chunk
                     (start_world t known s)).2)
    | None => d = (Throw missing_session, None)
    end.
Proof.
  unfold drivers. intros Hd. apply list_elem_of_lookup_2 in Hd.
  apply list_elem_of_omap in Hd as (sessionIndex & Hin & Hd).
  apply elem_of_seq in Hin. unfold driver in Hd.
  destruct (distributeWork numbers (sessions o) !! sessionIndex)
    as [chunk|] eqn:Hc; [| done].
  destruct (bool_decide (chunk = [])) eqn:Hne; [done |].
  apply bool_decide_eq_false in Hne.
  exists sessionIndex, chunk. split_and!; [lia | done | done |].
  destruct (ss !! sessionIndex) as [s|]; by simplify_eq.
Qed.

(** A driver that throws has a missing session or was stopped by a ban
    error. *)
Lemma drivers_throw (o : options) (envs : nat → env) (t : Z)
    (known : gset item) (ss : list session) (numbers : list item)
    (i : nat) (d : completion unit * option world) (err : Eff.error) :
  drivers o envs t known ss numbers !! i = Some d → d.1 = Throw err →
  ban_signature err = true ∨
  (err = missing_session ∧ (length ss < sessions o)%nat).
Proof.
  intros Hd Herr.
  destruct (drivers_lookup _ _ _ _ _ _ _ _ Hd)
    as (sessionIndex & chunk & Hlt & _ & _ & Hcase).
  destruct (ss !! sessionIndex) as [s|] eqn:Hs.
  - left. subst d. cbn [fst] in Herr.
    destruct (validateSessionChunk o (envs sessionIndex) chunk
                (start_world t known s)) as [c w'] eqn:Hrun.
    cbn [fst] in Herr. subst c.
    by destruct (chunk_loop_outcome _ _ _ _ _ _ _ _ _ Hrun) as (_ & ? & _).
  - right. subst d. cbn [fst] in Herr. injection Herr as <-.
    apply lookup_ge_None in Hs. split; [done | lia].
Qed.

Lemma drivers_elem (o : options) (envs : nat → env) (t : Z)
    (known : gset item) (ss : list session) (numbers : list item)
    (i : nat) (chunk : list item) :
  distributeWork numbers (sessions o) !! i = Some chunk → chunk ≠ [] →
  ∃ j, drivers o envs t known ss numbers !! j
       = Some match ss !! i with
              | Some s =>
                  ((validateSessionChunk o (envs i) chunk
                      (start_world t known s)).1,
                   Some (validateSessionChunk o (envs i) chunk
                           (start_world t known s)).2)
              | None => (Throw missing_session, None)
              end.
Proof.
  intros Hc Hne. apply list_elem_of_lookup. unfold drivers.
  apply list_elem_of_omap. exists i. split.
  - apply elem_of_seq. apply lookup_lt_Some in Hc.
    rewrite distributeWork_sessions in Hc. lia.
  - unfold driver. rewrite Hc, bool_decide_eq_false_2 by done.
    by destruct (ss !! i).
Qed.

(** Once a driver has thrown, the batch ends, by rejection only, and
    [main] exits without saving. *)
Lemma thrower_rejects (o : options) (envs : nat → env) (t : Z)
    (known : gset item) (ss : list session) (numbers : list item)
    (j : nat) (d : completion unit * option world) (err : Eff.error) :
  drivers o envs t known ss numbers !! j = Some d → d.1 = Throw err →
  (∃ out, validateBatch o envs t known ss numbers out) ∧
  ∀ out, validateBatch o envs t known ss numbers out →
    ∃ err', out = Rejected err' ∧
      (ban_signature err' = true ∨
       (err' = missing_session ∧ (length ss < sessions o)%nat)) ∧
      ∀ saveResults cleanup,
        main_from_validateBatch out saveResults cleanup
        = MainEnd false false
            (LineError (message err')
             :: if possible_ban err' then [LinePossibleBan] else [])
            0.
Proof.
  intros Hj Hd. split.
  - destruct (first_thrower (drivers o envs t known ss numbers))
      as [Hall|(i0 & d0 & err0 & Hi0 & Hd0 & Hmin)].
    + rewrite Forall_lookup in Hall. specialize (Hall _ _ Hj). congruence.
    + exists (Rejected err0). cbn. by exists i0, d0.
  - intros [err'|rs] Hout; cbn in Hout.
    + destruct Hout as (i' & d' & Hi' & Hd' & _).
      exists err'. split_and!; [done | | done].
      by apply (drivers_throw o envs t known ss numbers i' d').
    + destruct Hout as [Hall _]. rewrite Forall_lookup in Hall.
      specialize (Hall _ _ Hj). congruence.
Qed.

(** *** A driver chunk by chunk *)

Lemma chunk_loop_app (o : options) (e : env) (total : nat)
    (l1 l2 : list item) :
  ∀ (i processed : nat) (w : world),
    chunk_loop o e total i processed (l1 ++ l2) w
    = match chunk_loop o e total i processed l1 w with
      | (Normal _, v) =>
          chunk_loop o e total (i + length l1) (processed + length l1) l2 v
      | (Throw err, v) => (Throw err, v)
      end.
Proof.
  induction l1 as [|x l1 IH]; intros i processed w.
  - cbn [app chunk_loop length]. unfold Eff.ret. by rewrite !Nat.add_0_r.
  - cbn [app chunk_loop length]. unfold Eff.bind.
    destruct (iteration o e total i processed x w) as [[[]|err] w1]; [| done].
    rewrite IH. by rewrite !Nat.add_succ_r.
Qed.


(** What the [catch] block gets to see is decided before the gate. *)
Lemma caught_gate (o : options) (e : env) (number : item) (w w1 : world) :
  checkRateLimit o e w = (Normal tt, w1) →
  caught e number (math_random e w1).2 = caught e number w.
Proof.
  intros Hrl.
  destruct (checkRateLimit_spec o e w)
    as (w1' & Hrl' & _ & Hc & Hwr & _ & Hv & _).
  rewrite Hrl in Hrl'. injection Hrl' as <-.
  unfold caught, math_random. cbn [snd calls writes verifiedNumbers].
  by rewrite Hc, Hwr, Hv.
Qed.

(** A check that throws a ban error ends its turn, and nothing is
    pushed. *)
Lemma iteration_ban (o : options) (e : env) (total i processed : nat)
    (numberObj : item) (w : world) (err : Eff.error) :
  caught e (number_of numberObj) w = Some err → ban_signature err = true →
  ∃ w', iteration o e total i processed numberObj w = (Throw err, w') ∧
        results w' = results w ∧
        ∃ l, log w' = l ++ [EvBanAlert (id (sess w))].
Proof.
  intros Hc Hban.
  destruct (iteration_run o e total i processed numberObj w)
    as (w1 & c2 & w2 & Hrl & Hv & Hcase).
  pose proof (validateNumber_cases e (number_of numberObj)
                (math_random e w1).2) as Hcases.
  rewrite (caught_gate o e _ w w1 Hrl), Hc, Hban in Hcases.
  destruct Hcases as (w3 & Hrun & _). rewrite Hv in Hrun.
  injection Hrun as -> ->.
  exists w3. split; [exact Hcase |].
  by destruct (iteration_outcome _ _ _ _ _ _ _ _ _ Hcase) as (_ & _ & ? & ?).
Qed.

(** The driver whose [k]-th check throws a ban error. *)
Lemma chunk_loop_ban (o : options) (e : env) (total : nat)
    (chunk : list item) (k : nat) (x : item) (w v : world)
    (err : Eff.error) :
  chunk !! k = Some x →
  chunk_loop o e total 0 0 (take k chunk) w = (Normal tt, v) →
  caught e (number_of x) v = Some err → ban_signature err = true →
  ∃ w', chunk_loop o e total 0 0 chunk w = (Throw err, w') ∧
        length (results w') = (length (results w) + k)%nat ∧
        ∃ l, log w' = l ++ [EvBanAlert (id (sess w))].
Proof.
  intros Hk Hpre Hc Hban.
  destruct (chunk_loop_outcome _ _ _ _ _ _ _ _ _ Hpre) as (Hid & Hlen).
  rewrite length_take_le in Hlen
    by (apply lookup_lt_Some in Hk; lia).
  destruct (iteration_ban o e total (0 + length (take k chunk))
              (0 + length (take k chunk)) x v err Hc Hban)
    as (w' & Hit & Hres & l & Hlog).
  exists w'. split_and!.
  - rewrite <- (take_drop_middle chunk k x Hk) at 1.
    rewrite chunk_loop_app, Hpre. cbn [chunk_loop]. unfold Eff.bind.
    by rewrite Hit.
  - by rewrite Hres.
  - exists l. by rewrite Hlog, Hid.
Qed.

(** *** The clock of a turn *)




(** *** The readiness wait *)

Lemma wait_until_ready_spec (ready_at : nat → bool) (fuel k n : nat) :
  wait_until_ready ready_at fuel k = Some n ↔
  (k ≤ n < k + fuel)%nat ∧ ready_at n = true ∧
  ∀ m, (k ≤ m < n)%nat → ready_at m = false.
Proof.
  revert k. induction fuel as [|fuel IH]; intros k; simpl.
  - split; [done | lia].
  - destruct (ready_at k) eqn:Hk.
    + split.
      * intros [= <-]. split_and!; [lia | lia | done | intros m; lia].
      * intros (Hn & Hr & Hbefore). f_equal.
        destruct (decide (k = n)) as [|Hne]; [done |].
        rewrite (Hbefore k) in Hk by lia. done.
    + rewrite IH. split.
      * intros (Hn & Hr & Hbefore). split_and!; [lia | lia | done |].
        intros m Hm. destruct (decide (m = k)) as [->|]; [done |].
        apply Hbefore. lia.
      * intros (Hn & Hr & Hbefore).
        assert (k ≠ n) by (intros ->; congruence).
        split_and!; [lia | lia | done |]. intros m Hm. apply Hbefore. lia.
Qed.

Lemma waitForReady_spec (ready_at : nat → bool) (fuel k n : nat) :
  Basic.waitForReady ready_at fuel k = Some (S n) ↔
  (k ≤ n < k + fuel)%nat ∧ ready_at n = true ∧
  ∀ m, (k ≤ m < n)%nat → ready_at m = false.
Proof.
  revert k. induction fuel as [|fuel IH]; intros k; simpl.
  - split; [done | lia].
  - destruct (ready_at k) eqn:Hk.
    + split.
      * intros [= <-]. split_and!; [lia | lia | done | intros m; lia].
      * intros (Hn & Hr & Hbefore). do 2 f_equal.
        destruct (decide (k = n)) as [|Hne]; [done |].
        rewrite (Hbefore k) in Hk by lia. done.
    + rewrite IH. split.
      * intros (Hn & Hr & Hbefore). split_and!; [lia | lia | done |].
        intros m Hm. destruct (decide (m = k)) as [->|]; [done |].
        apply Hbefore. lia.
      * intros (Hn & Hr & Hbefore).
        assert (k ≠ n) by (intros ->; congruence).
        split_and!; [lia | lia | done |]. intros m Hm. apply Hbefore. lia.
Qed.

Lemma never_ready_never_returns (ready_at : nat → bool) :
  (∀ n, ready_at n = false) →
  ∀ fuel k, wait_until_ready ready_at fuel k = None ∧
            Basic.waitForReady ready_at fuel k = None.
Proof.
  intros Hnever. induction fuel as [|fuel IH]; intros k; simpl; [done |].
  rewrite Hnever. apply IH.
Qed.
End SafeFacts.

(** ** Claims about the rate-limited and the chunked validators *)
Module SafeClaims.
Import Eff Input Safe SafeFacts.
Local Arguments Qfloor : simpl never.

(** C2, as the code has it.  When a check on a session fails with an
    error whose message contains "ban" or "block" (in any letter
    case), the driver of that session alerts the operator and stops:
    the error is thrown on, the [k] numbers before the failed check
    have their results and no later number of the chunk gets one.
    The run does not go on to completion: [validateBatch] ends, and
    every way it can end is a rejection, with a ban error or, when a
    session is missing, with the error of reading its [id]; [main] then
    prints the error, calls neither [saveResults] nor [cleanup], and
    exits.  Conversely, an error that stops a driver always carries a
    ban signature. *)
Theorem ban_stops_driver_and_rejects_batch (o : options) (envs : nat → env)
    (t : Z) (known : gset item) (ss : list session) (numbers : list item)
    (i k : nat) (chunk : list item) (s : session) (x : item) (v : world)
    (err : Eff.error) :
  distributeWork numbers (sessions o) !! i = Some chunk →
  ss !! i = Some s →
  chunk !! k = Some x →
  chunk_loop o (envs i) (length chunk) 0 0 (take k chunk)
    (start_world t known s) = (Normal tt, v) →
  caught (envs i) (number_of x) v = Some err →
  ban_signature err = true →
  (∃ w', validateSessionChunk o (envs i) chunk (start_world t known s)
         = (Throw err, w') ∧
         length (results w') = k ∧
         ∃ l, log w' = l ++ [EvBanAlert (id s)]) ∧
  (∃ out, validateBatch o envs t known ss numbers out) ∧
  (∀ out, validateBatch o envs t known ss numbers out →
     ∃ err', out = Rejected err' ∧
       (ban_signature err' = true ∨
        (err' = missing_session ∧ (length ss < sessions o)%nat)) ∧
       ∀ saveResults cleanup,
         main_from_validateBatch out saveResults cleanup
         = MainEnd false false
             (LineError (message err')
              :: if possible_ban err' then [LinePossibleBan] else [])
             0) ∧
  (∀ e chunk' w err' w',
      validateSessionChunk o e chunk' w = (Throw err', w') →
      ban_signature err' = true ∧
      (∃ l, log w' = l ++ [EvBanAlert (id (sess w))]) ∧
      (length (results w') < length (results w) + length chunk')%nat).
Proof.
  intros Hchunk Hs Hk Hpre Hc Hban.
  destruct (chunk_loop_ban o (envs i) (length chunk) chunk k x
              (start_world t known s) v err Hk Hpre Hc Hban)
    as (w' & Hrun & Hlen & Hlog).
  assert (Hne : chunk ≠ []) by (intros ->; by rewrite lookup_nil in Hk).
  destruct (drivers_elem o envs t known ss numbers i chunk Hchunk Hne)
    as [j Hj].
  rewrite Hs in Hj. unfold validateSessionChunk in Hj. rewrite Hrun in Hj.
  cbn [fst snd] in Hj.
  destruct (thrower_rejects o envs t known ss numbers j _ err Hj eq_refl)
    as [Hex Hall].
  split_and!; [| exact Hex | exact Hall |].
  - exists w'. split_and!; [exact Hrun | exact Hlen | exact Hlog].
  - intros e chunk' w err' w'' Hrun'.
    destruct (chunk_loop_outcome _ _ _ _ _ _ _ _ _ Hrun')
      as (_ & Hb & Hl & Hlg).
    done.
Qed.

(** The amended C2 at the run of two sessions in which the first check
    of session 0 finds the account banned. *)
Lemma ban_stops_driver_and_rejects_batch_witness :
  (∃ w', validateSessionChunk (main_options 2) (ban_envs 0)
           [Str "0790000001"] (start_world 0 ∅ (fresh_session 0 0))
         = (Throw (Error (Some "Account banned")), w') ∧
         length (results w') = 0%nat) ∧
  ∃ out, validateBatch (main_options 2) ban_envs 0 ∅ ban_sessions
           ban_numbers out.
Proof.
  destruct (ban_stops_driver_and_rejects_batch (main_options 2) ban_envs 0 ∅
              ban_sessions ban_numbers 0 0 [Str "0790000001"]
              (fresh_session 0 0) (Str "0790000001")
              (start_world 0 ∅ (fresh_session 0 0))
              (Error (Some "Account banned")))
    as ((w' & Hrun & Hlen & _) & Hex & _).
  - reflexivity.
  - reflexivity.
  - reflexivity.
  - reflexivity.
  - reflexivity.
  - reflexivity.
  - split; [| exact Hex]. exists w'. split; [exact Hrun | exact Hlen].
Defined.

(** C2 as stated fails: with session 0 banned, the run of two sessions
    does not complete with the results of the other session. *)
Lemma banned_session_aborts_batch :
  ¬ ∃ rs, validateBatch (main_options 2) ban_envs 0 ∅ ban_sessions
            ban_numbers (Resolved rs).
Proof.
  intros (rs & Hall & _). rewrite Forall_lookup in Hall.
  assert (∃ d, drivers (main_options 2) ban_envs 0 ∅ ban_sessions ban_numbers
                 !! 0%nat = Some d ∧
               d.1 = Throw (Error (Some "Account banned"))) as (d & Hd & Hthrow).
  { eexists. split; [vm_compute; reflexivity | reflexivity]. }
  specialize (Hall _ _ Hd). cbv beta in Hall. congruence.
Qed.

(** C3, as the code has it: the cap holds per fixed window, not per
    rolling hour.  With a cap of at least one and a clock that does not
    run backwards, a driver that starts from a consistent window never
    issues more than [maxChecksPerHour] checks between two starts of
    the window, at any point of its run; every rate-limit wait lasts
    between nothing and one hour; no number is dropped (a driver that
    is not stopped by a ban error records one result per number); and
    the gate works as described: the window and the counter are reset
    when more than an hour has passed since the window started, and
    when the counter has reached the cap the driver waits for the rest
    of the hour, [3600000 - (now - hourStartTime)], and then resets. *)
Theorem fixed_window_cap (o : options) (e : env) (numbers : list item)
    (w : world) (c : completion unit) (w' : world) :
  1 ≤ maxChecksPerHour o → monotone e → window_ok o w →
  validateSessionChunk o e numbers w = (c, w') →
  window_bound o (log w') ∧
  totalChecksThisHour (sess w') ≤ maxChecksPerHour o ∧
  waits_bounded (log w') ∧
  (c = Normal tt →
   length (results w') = (length (results w) + length numbers)%nat) ∧
  ∀ v, ∃ v', checkRateLimit o e v = (Normal tt, v') ∧
    let elapsed := now v - hourStartTime (sess v) in
    if elapsed >? 3600000 then
      now v' = now v ∧ log v' = log v ++ [EvWindow (now v)] ∧
      totalChecksThisHour (sess v') = 1 ∧ hourStartTime (sess v') = now v
    else if totalChecksThisHour (sess v) >=? maxChecksPerHour o then
      log v' = log v ++ [EvDelay RateLimitWait (inject_Z (3600000 - elapsed));
                         EvWindow (now v')] ∧
      now v + (3600000 - elapsed) ≤ now v' ∧
      totalChecksThisHour (sess v') = 1 ∧ hourStartTime (sess v') = now v'
    else
      now v' = now v ∧ log v' = log v ∧
      totalChecksThisHour (sess v') = totalChecksThisHour (sess v) + 1 ∧
      hourStartTime (sess v') = hourStartTime (sess v).
Proof.
  intros Hmax Hmono Hok Hrun.
  destruct (chunk_loop_window o e _ numbers Hmax Hmono _ _ _ _ _ Hok Hrun)
    as ((_ & _ & Ht & Hb & Hw) & _).
  destruct (chunk_loop_outcome _ _ _ _ _ _ _ _ _ Hrun) as (_ & Hc).
  split_and!; try done.
  - intros ->. exact Hc.
  - intros v.
    destruct (checkRateLimit_spec o e v) as (v' & Hrl & _ & _ & _ & _ & _ & _ & Hcase).
    exists v'. split; [done |]. simpl in *.
    destruct (now v - hourStartTime (sess v) >? 3600000); [by apply Hcase |].
    destruct (totalChecksThisHour (sess v) >=? maxChecksPerHour o); [| done].
    destruct Hcase as (Hn & Hl & Ht' & Hh'). split_and!; try done.
    destruct Hmono as (Hlag & _). specialize (Hlag (timers v)). lia.
Qed.

Lemma quiet_env_monotone : monotone quiet_env.
Proof. by repeat split. Qed.

Lemma fresh_window_ok (o : options) (t0 t : Z) (known : gset item) (i : nat) :
  0 ≤ maxChecksPerHour o → t0 ≤ t →
  window_ok o (start_world t known (fresh_session i t0)).
Proof.
  intros Hmax Ht. unfold window_ok. simpl. split_and!; try done.
  - by apply window_bound_nil.
  - intros ms Hin. by apply elem_of_nil in Hin.
Qed.

(** The amended C3 at the driver that starts late in the hour of its
    session. *)
Lemma fixed_window_cap_witness :
  1 ≤ maxChecksPerHour late_options ∧ monotone quiet_env ∧
  window_bound late_options (log late_run.2) ∧
  length (results late_run.2) = 4%nat.
Proof.
  split; [done |]. split; [exact quiet_env_monotone |].
  destruct (fixed_window_cap late_options quiet_env
              [Str "0790000001"; Str "0790000002"; Str "0790000003";
               Str "0790000004"]
              (start_world 3590000 ∅ (fresh_session 0 0))
              late_run.1 late_run.2)
    as (Hb & _ & _ & Hlen & _).
  - done.
  - exact quiet_env_monotone.
  - apply fresh_window_ok; done.
  - unfold late_run. by destruct (validateSessionChunk _ _ _ _).
  - split; [exact Hb |]. by apply Hlen.
Defined.

(** C3 as stated fails: the driver that starts ten seconds before the
    end of the hour of its session, with a cap of two checks per hour,
    issues four checks within eleven seconds. *)
Lemma rolling_window_overshoot :
  ¬ rolling_bound late_options (log late_run.2).
Proof.
  intros H. specialize (H 3590000). vm_compute in H. by apply H.
Qed.

(** C7, as the code has it.  The per-number check of the chunked
    validator never throws: it returns a result for the number, with
    status success and the transport's boolean when the transport
    answered, and with status error and the message when the transport
    threw or the number is not a string.  The per-number check of the
    rate-limited validator captures in the same way every failure whose
    message does not contain "ban" or "block"; a failure whose message
    does is counted, alerted and thrown on to the caller.  The failures
    it catches are those of the transport, of a non-string number, and
    of the master-file append that follows a first positive answer. *)
Theorem validateNumber_captures_failures :
  (∀ (c : Multi.client) (number : item) (w : Multi.world),
      ∃ r w', Multi.validateNumber c number w = (Normal r, w') ∧
        Multi.number r = number ∧
        match number with
        | Str x =>
            match outcome (Multi.isRegisteredUser c (Multi.calls w)
                             (Normalize.whatsappId x)) with
            | Normal b =>
                Multi.status r = success ∧ Multi.is_registered r = b ∧
                Multi.error r = None
            | Throw err =>
                Multi.status r = Input.error ∧
                Multi.is_registered r = false ∧
                Multi.error r = message err
            end
        | Row _ _ =>
            Multi.status r = Input.error ∧ Multi.is_registered r = false ∧
            Multi.error r = message not_a_function
        end) ∧
  (∀ (e : env) (number : item) (w : world),
      match caught e number w with
      | None =>
          ∃ x b r w',
            number = Str x ∧
            outcome (isRegisteredUser e (calls w) (Normalize.whatsappId x))
            = Normal b ∧
            validateNumber e number w = (Normal r, w') ∧
            Safe.number r = number ∧ status r = success ∧
            is_registered r = b ∧ error r = None
      | Some err =>
          if ban_signature err then
            ∃ w', validateNumber e number w = (Throw err, w') ∧
                  errors (sess w') = S (errors (sess w)) ∧
                  ∃ l, log w' = l ++ [EvBanAlert (id (sess w))]
          else
            ∃ r w', validateNumber e number w = (Normal r, w') ∧
                    Safe.number r = number ∧ status r = Input.error ∧
                    is_registered r = false ∧ error r = message err ∧
                    errors (sess w') = S (errors (sess w))
      end).
Proof.
  split.
  - intros c number w.
    destruct (MultiFacts.validateNumber_returns c number w)
      as (r & w' & Hrun & Hnum & _ & Hcase).
    exists r, w'. split_and!; try done.
    destruct number as [x|]; [| tauto].
    destruct (outcome _); tauto.
  - intros e number w. pose proof (validateNumber_cases e number w) as H.
    destruct (caught e number w) as [err|].
    + destruct (ban_signature err); [done |].
      destruct H as (w' & r & Hrun & -> & Herr).
      eexists _, w'. by split; [exact Hrun |].
    + destruct H as (x & b & w' & -> & Hout & Hrun & Herr).
      eexists x, b, _, w'. by split_and!; [| | exact Hrun | ..].
Qed.

(** C7 as stated fails for the rate-limited validator: when the
    transport throws "Account banned", [validateNumber] throws to its
    caller instead of returning an error result. *)
Lemma ban_error_is_thrown_to_caller :
  ¬ ∃ r w', validateNumber banned_env (Str "0790000001")
              (start_world 0 ∅ (fresh_session 0 0)) = (Normal r, w').
Proof. intros (r & w' & H). vm_compute in H. discriminate. Qed.

(** C8, as the code has it: the readiness waits have no timeout.
    Either wait returns at the first poll that finds the session ready
    (whatever number of polls that takes) and never returns when the
    session never becomes ready; nothing is reported in that case.
    The computed wait of the rate limiter is bounded by the hour of the
    window. *)
Theorem readiness_wait_has_no_timeout :
  (∀ ready_at fuel n,
      wait_until_ready ready_at fuel 0 = Some n ↔
      (n < fuel)%nat ∧ ready_at n = true ∧
      ∀ m, (m < n)%nat → ready_at m = false) ∧
  (∀ ready_at fuel n,
      Basic.waitForReady ready_at fuel 0 = Some (S n) ↔
      (n < fuel)%nat ∧ ready_at n = true ∧
      ∀ m, (m < n)%nat → ready_at m = false) ∧
  (∀ ready_at, (∀ n, ready_at n = false) →
      ∀ fuel, wait_until_ready ready_at fuel 0 = None ∧
              Basic.waitForReady ready_at fuel 0 = None) ∧
  (∀ o e numbers w c w',
      1 ≤ maxChecksPerHour o → monotone e → window_ok o w →
      validateSessionChunk o e numbers w = (c, w') →
      waits_bounded (log w')).
Proof.
  split_and!.
  - intros ready_at fuel n. rewrite wait_until_ready_spec.
    split; intros (Hn & Hr & Hb); (split_and!; try lia; try done);
      intros m Hm; apply Hb; lia.
  - intros ready_at fuel n. rewrite waitForReady_spec.
    split; intros (Hn & Hr & Hb); (split_and!; try lia; try done);
      intros m Hm; apply Hb; lia.
  - intros ready_at Hnever fuel. by apply never_ready_never_returns.
  - intros o e numbers w c w' Hmax Hmono Hok Hrun.
    by destruct (chunk_loop_window o e _ numbers Hmax Hmono _ _ _ _ _ Hok Hrun)
      as ((_ & _ & _ & _ & Hw) & _).
Qed.

(** The amended C8 at a session that becomes ready at the third poll,
    at a session that never does, and at the late driver. *)
Lemma readiness_wait_has_no_timeout_witness :
  wait_until_ready (λ n, bool_decide (n = 3%nat)) 10 0 = Some 3%nat ∧
  Basic.waitForReady (λ _, false) 1000 0 = None ∧
  waits_bounded (log late_run.2).
Proof.
  destruct readiness_wait_has_no_timeout as (H1 & _ & H3 & H4).
  split_and!.
  - apply H1. split_and!; [lia | done |].
    intros m Hm. apply bool_decide_eq_false. lia.
  - by apply (H3 (λ _, false)).
  - apply (H4 late_options quiet_env
             [Str "0790000001"; Str "0790000002"; Str "0790000003";
              Str "0790000004"]
             (start_world 3590000 ∅ (fresh_session 0 0))
             late_run.1 late_run.2).
    + done.
    + exact quiet_env_monotone.
    + by apply fresh_window_ok.
    + unfold late_run. by destruct (validateSessionChunk _ _ _ _).
Defined.

(** C8 as stated fails: for a session that never becomes ready, no
    number of polls ends the wait of either validator. *)
Lemma readiness_wait_can_hang :
  ¬ ∃ fuel, is_Some (wait_until_ready (λ _, false) fuel 0) ∨
            is_Some (Basic.waitForReady (λ _, false) fuel 0).
Proof.
  intros (fuel & H).
  destruct (never_ready_never_returns (λ _, false) (λ _, eq_refl) fuel 0%nat)
    as [H1 H2].
  rewrite H1, H2 in H. by destruct H as [[? ?]|[? ?]].
Qed.



End SafeClaims.

(** ** The single-session validator and its checkpoints *)
Module BasicFacts.
Import Eff Input Basic.

Ltac world_reduce :=
  cbv beta iota zeta delta
    [now timers calls progress progressFile sink log lastIndex totalChecked
     startTime number whatsapp_id is_registered has_profile_pic about
     checked_at status error outcome took message andb negb fst snd].

Ltac basic_unfold :=
  unfold validateNumber, await_call, delay, emit, saveProgress,
    saveResults_append, advance_progress, Input.replace_non_digits;
  eff_unfold; world_reduce.

(** [validateNumber] always returns a result, touches neither the
    progress nor the files, and its verdict only depends on the number
    and on how many calls were made before. *)
Lemma single_validateNumber_returns (c : client) (number : item) (w : world) :
  ∃ r w', validateNumber c number w = (Normal r, w') ∧
    Basic.number r = number ∧
    progress w' = progress w ∧ progressFile w' = progressFile w ∧
    sink w' = sink w ∧ log w' = log w ∧ timers w' = timers w ∧
    (match number with
     | Str x =>
         match outcome (isRegisteredUser c (calls w) (Normalize.whatsappId x)) with
         | Normal b =>
             status r = success ∧ is_registered r = b ∧
             whatsapp_id r = Normalize.whatsappId x
         | Throw err =>
             status r = Input.error ∧ is_registered r = false ∧
             whatsapp_id r = "" ∧ error r = message err
         end
     | Row _ _ =>
         status r = Input.error ∧ is_registered r = false ∧
         whatsapp_id r = ""
     end) ∧
    ∀ v, calls v = calls w →
      ∃ r2 v', validateNumber c number v = (Normal r2, v') ∧
               untimed r2 = untimed r ∧ calls v' = calls w'.
Proof.
  destruct w as [t tm ca pr pf sk lg].
  destruct number as [x|ref n].
  - pose proof (SafeFacts.whatsappId_inline x) as Hwid.
    basic_unfold. rewrite Hwid.
    destruct (isRegisteredUser c ca (Normalize.whatsappId x))
      as [[[|]|err] d] eqn:Hrep; world_reduce.
    + destruct (getProfilePicUrl c (S ca) (Normalize.whatsappId x))
        as [[u|err] d1] eqn:Hpic; world_reduce;
        (destruct (getContactById c (S (S ca)) (Normalize.whatsappId x))
           as [[a|err'] d2] eqn:Hcon; world_reduce);
        (eexists _, _; split_and!; try done);
        intros [t' tm' ca' pr' pf' sk' lg'] [= ->]; world_reduce;
        rewrite Hrep; world_reduce; rewrite Hpic; world_reduce;
        rewrite Hcon; world_reduce; by eexists _, _.
    + eexists _, _; split_and!; try done.
      intros [t' tm' ca' pr' pf' sk' lg'] [= ->]; world_reduce.
      rewrite Hrep; world_reduce. by eexists _, _.
    + eexists _, _; split_and!; try done.
      intros [t' tm' ca' pr' pf' sk' lg'] [= ->]; world_reduce.
      rewrite Hrep; world_reduce. by eexists _, _.
  - basic_unfold. eexists _, _; split_and!; try done.
    intros [t' tm' ca' pr' pf' sk' lg'] Hc. world_reduce. by eexists _, _.
Qed.

Lemma bind_normal {W A B} (m : Eff.M W A) (k : A → Eff.M W B)
    (w w' : W) (a : A) :
  m w = (Normal a, w') → Eff.bind m k w = k a w'.
Proof. unfold Eff.bind. by intros ->. Qed.

Lemma tenth_spec (i : nat) :
  Js.rem_is_zero (Z.of_nat i + 1) 10 = bool_decide (S i `mod` 10 = 0)%nat.
Proof.
  unfold Js.rem_is_zero. simpl (10 =? 0).
  rewrite Z.rem_mod_nonneg by lia.
  replace (Z.of_nat i + 1) with (Z.of_nat (S i)) by lia.
  change 10 with (Z.of_nat 10). rewrite <- Nat2Z.inj_mod.
  destruct (Z.eqb_spec (Z.of_nat (S i `mod` 10)) 0) as [H|H]; symmetry;
    [apply bool_decide_eq_true | apply bool_decide_eq_false]; lia.
Qed.

(** The part of a turn of the loop that follows the check. *)
Lemma after_result (cfg : config) (lag : nat → Z) (total i : nat)
    (results : list result) (w1 : world) :
  ∃ w2,
    (∀ A (k : M A),
        (advance_progress i ;;
         when (Js.rem_is_zero (Z.of_nat i + 1) 10)
           (saveProgress ;; saveResults_append (slice_last 10 results)) ;;
         when (Z.of_nat i <? Z.of_nat total - 1) (delay lag (checkDelay cfg)) ;;
         when (Js.rem_is_zero (Z.of_nat i + 1) (batchSize cfg))
           (delay lag 10000) ;;
         k)%eff w1 = k w2) ∧
    calls w2 = calls w1 ∧
    progress w2 = Checkpoint (S i) (S (totalChecked (progress w1)))
                    (startTime (progress w1)) ∧
    if bool_decide (S i `mod` 10 = 0)%nat then
      log w2 = log w1 ++ [Saved (progress w2); Flushed (slice_last 10 results)] ∧
      progressFile w2 = Some (progress w2) ∧
      sink w2 = Some (default [] (sink w1) ++ slice_last 10 results)
    else
      log w2 = log w1 ∧ progressFile w2 = progressFile w1 ∧ sink w2 = sink w1.
Proof.
  destruct w1 as [t tm ca [li tc st] pf sk lg].
  rewrite tenth_spec. basic_unfold.
  destruct (bool_decide (S i `mod` 10 = 0)%nat); world_reduce;
    destruct (Z.of_nat i <? Z.of_nat total - 1); world_reduce;
    destruct (Js.rem_is_zero (Z.of_nat i + 1) (batchSize cfg)); world_reduce;
    (eexists; split; [intros A k; reflexivity |]); world_reduce;
    (split_and!; try done; try (by rewrite <- app_assoc));
    by destruct sk.
Qed.

Lemma emit_then {A} (ev : event) (k : M A) (w : world) :
  (emit ev ;; k)%eff w
  = k (World (now w) (timers w) (calls w) (progress w) (progressFile w)
         (sink w) (log w ++ [ev])).
Proof. reflexivity. Qed.

Lemma checked_app (l1 l2 : list event) :
  checked (l1 ++ l2) = checked l1 ++ checked l2.
Proof. apply omap_app. Qed.

Lemma saved_app (l1 l2 : list event) : saved (l1 ++ l2) = saved l1 ++ saved l2.
Proof. apply omap_app. Qed.

Lemma flushed_app (l1 l2 : list event) :
  flushed (l1 ++ l2) = flushed l1 ++ flushed l2.
Proof. apply omap_app. Qed.

(** Every checkpoint a run saves is at a multiple of ten. *)
Lemma batch_loop_saves_tens (cfg : config) (c : client) (lag : nat → Z)
    (total : nat) (rest : list item) :
  ∀ i results w,
    Forall (λ cp, lastIndex cp `mod` 10 = 0)%nat (saved (log w)) →
    Forall (λ cp, lastIndex cp `mod` 10 = 0)%nat
      (saved (log (batch_loop cfg c lag total i rest results w).2)).
Proof.
  induction rest as [|number rest IH]; intros i results w Hw; [done |].
  simpl. rewrite emit_then.
  set (w0 := World _ _ _ _ _ _ _).
  destruct (single_validateNumber_returns c (number_of number) w0)
    as (r & w1 & Hv & _ & _ & _ & _ & Hl1 & _).
  unfold Eff.bind at 1. rewrite Hv.
  destruct (after_result cfg lag total i (results ++ [r]) w1)
    as (w2 & Hk & _ & Hp2 & Hcase).
  rewrite Hk. apply IH.
  destruct (bool_decide (S i `mod` 10 = 0)%nat) eqn:Hten.
  - destruct Hcase as (-> & _). rewrite Hl1, saved_app. subst w0. simpl.
    rewrite saved_app. simpl. rewrite app_nil_r.
    apply Forall_app. split; [done |]. constructor; [| done].
    rewrite Hp2. simpl. by apply bool_decide_eq_true in Hten.
  - destruct Hcase as (-> & _). rewrite Hl1. subst w0. simpl.
    rewrite saved_app. simpl. by rewrite app_nil_r.
Qed.

(** The files follow the log: the progress file holds the checkpoint
    saved last, the sink the batches flushed, in order. *)
Lemma batch_loop_store (cfg : config) (c : client) (lag : nat → Z)
    (total : nat) (rest : list item) :
  ∀ i results w rs w',
    batch_loop cfg c lag total i rest results w = (Normal rs, w') →
    ∃ sv fl,
      saved (log w') = saved (log w) ++ sv ∧
      flushed (log w') = flushed (log w) ++ fl ∧
      progressFile w' = foldl (λ _ cp, Some cp) (progressFile w) sv ∧
      sink w' = foldl (λ s b, Some (default [] s ++ b)) (sink w) fl.
Proof.
  induction rest as [|number rest IH]; intros i results w rs w' Hrun.
  - simpl in Hrun. unfold Eff.ret in Hrun. simplify_eq.
    exists [], []. by rewrite !app_nil_r.
  - simpl in Hrun. rewrite emit_then in Hrun.
    set (w0 := World _ _ _ _ _ _ _) in Hrun.
    destruct (single_validateNumber_returns c (number_of number) w0)
      as (r & w1 & Hv & _ & _ & Hf1 & Hs1 & Hl1 & _).
    unfold Eff.bind at 1 in Hrun. rewrite Hv in Hrun.
    destruct (after_result cfg lag total i (results ++ [r]) w1)
      as (w2 & Hk & _ & Hp2 & Hcase).
    rewrite Hk in Hrun.
    destruct (IH _ _ _ _ _ Hrun) as (sv & fl & Hsv & Hfl & Hpf & Hsk).
    assert (Hl0 : saved (log w1) = saved (log w) ∧
                  flushed (log w1) = flushed (log w)).
    { rewrite Hl1. subst w0. simpl. rewrite saved_app, flushed_app. simpl.
      by rewrite !app_nil_r. }
    destruct Hl0 as [Hsv0 Hfl0].
    destruct (bool_decide (S i `mod` 10 = 0)%nat).
    + destruct Hcase as (Hl2 & Hf2 & Hs2).
      exists (progress w2 :: sv), (slice_last 10 (results ++ [r]) :: fl).
      rewrite Hsv, Hfl, Hl2, saved_app, flushed_app, Hsv0, Hfl0. simpl.
      rewrite <- !app_assoc. split_and!; try done.
      * by rewrite Hpf, Hf2.
      * rewrite Hsk, Hs2, Hs1. by subst w0.
    + destruct Hcase as (Hl2 & Hf2 & Hs2).
      exists sv, fl. rewrite Hsv, Hfl, Hl2, Hsv0, Hfl0.
      split_and!; try done.
      * rewrite Hpf, Hf2, Hf1. by subst w0.
      * rewrite Hsk, Hs2, Hs1. by subst w0.
Qed.

Lemma saved_flush (cp : checkpoint) (rs : list result) :
  checked [Saved cp; Flushed rs] = [] ∧
  saved [Saved cp; Flushed rs] = [cp] ∧
  flushed [Saved cp; Flushed rs] = [rs].
Proof. done. Qed.

Lemma div_ten_succ (n : nat) :
  (if bool_decide (S n `mod` 10 = 0) then S n / 10 = S (n / 10) ∧ S n = 10 * S (n / 10)
   else S n / 10 = n / 10)%nat.
Proof.
  pose proof (Nat.div_mod_eq n 10). pose proof (Nat.div_mod_eq (S n) 10).
  pose proof (Nat.mod_upper_bound n 10). pose proof (Nat.mod_upper_bound (S n) 10).
  case_bool_decide; lia.
Qed.

Lemma aligned_mod (k0 n : nat) :
  (k0 `mod` 10 = 0 → (k0 + n) `mod` 10 = n `mod` 10)%nat.
Proof.
  intros Hk. rewrite Nat.Div0.add_mod, Hk, Nat.add_0_l.
  by rewrite Nat.Div0.mod_mod.
Qed.

(** A run that starts at a multiple of ten: which indices it checks,
    which checkpoints it saves and which batches it flushes. *)
Lemma batch_loop_aligned (cfg : config) (c : client) (lag : nat → Z)
    (total k0 : nat) (rest : list item) :
  (k0 `mod` 10 = 0)%nat →
  ∀ results w, ∃ new w',
    batch_loop cfg c lag total (k0 + length results) rest results w
    = (Normal (results ++ new), w') ∧
    length new = length rest ∧
    checked (log w')
    = checked (log w) ++ seq (k0 + length results) (length rest) ∧
    let js := seq (length results / 10)
                ((length results + length rest) / 10 - length results / 10) in
    flushed (log w')
    = flushed (log w) ++ (batch_of_ten (results ++ new) <$> js) ∧
    saved (log w')
    = saved (log w)
      ++ ((λ j, Checkpoint (k0 + 10 * S j)
                  (totalChecked (progress w) + 10 * S j - length results)
                  (startTime (progress w))) <$> js).
Proof.
  intros Hk0.
  induction rest as [|number rest IH]; intros results w.
  - exists [], w. cbn [batch_loop length]. cbv zeta.
    rewrite !app_nil_r, Nat.add_0_r, Nat.sub_diag.
    cbn [seq fmap list_fmap]. by rewrite !app_nil_r.
  - cbn [batch_loop]. rewrite emit_then.
    set (w0 := World _ _ _ _ _ _ _).
    destruct (single_validateNumber_returns c (number_of number) w0)
      as (r & w1 & Hv & _ & Hp1 & _ & _ & Hl1 & _).
    unfold Eff.bind at 1. rewrite Hv.
    destruct (after_result cfg lag total (k0 + length results)
                (results ++ [r]) w1) as (w2 & Hk & _ & Hp2 & Hcase).
    rewrite Hk.
    destruct (IH (results ++ [r]) w2)
      as (new & w' & Hrun & Hlen & Hch & Hfl & Hsv).
    cbv zeta in Hfl, Hsv.
    rewrite length_app in Hrun, Hch, Hfl, Hsv.
    change (length [r]) with 1%nat in Hrun, Hch, Hfl, Hsv.
    rewrite !Nat.add_1_r in Hfl, Hsv.
    rewrite Nat.add_1_r, Nat.add_succ_r in Hrun, Hch.
    exists (r :: new), w'.
    replace (results ++ r :: new) with ((results ++ [r]) ++ new)
      by (by rewrite <- app_assoc).
    split; [done |]. split; [cbn [length]; lia |].
    assert (Hc1 : checked (log w1) = checked (log w) ++ [(k0 + length results)%nat]).
    { rewrite Hl1. subst w0. cbn [log]. by rewrite checked_app. }
    assert (Hs1 : saved (log w1) = saved (log w) ∧
                  flushed (log w1) = flushed (log w)).
    { rewrite Hl1. subst w0. cbn [log]. rewrite saved_app, flushed_app.
      cbn. by rewrite !app_nil_r. }
    destruct Hs1 as [Hsv1 Hfl1].
    assert (Hmod : (S (k0 + length results) `mod` 10
                    = S (length results) `mod` 10)%nat).
    { replace (S (k0 + length results)) with (k0 + S (length results))%nat by lia.
      by apply aligned_mod. }
    rewrite Hmod in Hcase.
    pose proof (div_ten_succ (length results)) as Hdiv.
    cbn [length]. rewrite Nat.add_succ_r. cbv zeta.
    assert (Hp2' : totalChecked (progress w2) = S (totalChecked (progress w)) ∧
                   startTime (progress w2) = startTime (progress w)).
    { rewrite Hp2, Hp1. by subst w0. }
    destruct Hp2' as [Htc2 Hst2].
    destruct (bool_decide (S (length results) `mod` 10 = 0)%nat).
    + destruct Hcase as (Hl2 & _). destruct Hdiv as [Hq Hten].
      assert (Hge : (S (length results / 10)
                     ≤ S (length results + length rest) / 10)%nat).
      { rewrite <- Hq. apply Nat.Div0.div_le_mono. lia. }
      replace (S (length results + length rest) / 10 - length results / 10)%nat
        with (S (S (length results + length rest) / 10 - S (length results / 10)))
        by lia.
      rewrite Hq in Hfl, Hsv. cbn [seq]. rewrite !fmap_cons.
      rewrite Hch, Hfl, Hsv, Hl2, checked_app, flushed_app, saved_app.
      destruct (saved_flush (progress w2) (slice_last 10 (results ++ [r])))
        as (-> & -> & ->).
      rewrite Hc1, Hsv1, Hfl1, <- !app_assoc. cbn [app].
      split_and!.
      * done.
      * f_equal. f_equal.
        unfold batch_of_ten, slice_last.
        rewrite length_app. cbn [length].
        replace (length results + 1 - 10)%nat
          with (10 * (length results / 10))%nat by lia.
        replace (results ++ r :: new) with ((results ++ [r]) ++ new)
          by (by rewrite <- app_assoc).
        rewrite (drop_app_le (results ++ [r]) new)
          by (rewrite length_app; cbn [length]; lia).
        rewrite take_app_le.
        -- rewrite take_ge; [done |].
           rewrite length_drop, length_app. cbn [length]. lia.
        -- rewrite length_drop, length_app. cbn [length]. lia.
      * f_equal. f_equal.
        -- rewrite Hp2, Hp1. subst w0. cbn [progress]. f_equal; lia.
        -- apply list_fmap_ext. intros ix j Hj.
           apply lookup_seq in Hj as [-> _].
           rewrite Htc2, Hst2. f_equal.
    + destruct Hcase as (Hl2 & _). rewrite Hdiv in Hfl, Hsv.
      rewrite Hch, Hfl, Hsv, Hl2, Hc1, Hsv1, Hfl1, <- !app_assoc. cbn [app].
      split_and!.
      * done.
      * done.
      * f_equal. apply list_fmap_ext. intros ix j Hj.
        apply lookup_seq in Hj as [-> Hlt].
        by rewrite Htc2, Hst2.
Qed.

(** Two runs over the same numbers with the same transport reach the
    same verdicts, whatever their indices, pauses and clocks. *)
Lemma batch_loop_same_verdicts (c : client) (rest : list item) :
  ∀ cfg1 lag1 total1 i1 results1 w1 cfg2 lag2 total2 i2 results2 w2,
    calls w1 = calls w2 →
    untimed <$> results1 = untimed <$> results2 →
    ∃ rs1 w1' rs2 w2',
      batch_loop cfg1 c lag1 total1 i1 rest results1 w1 = (Normal rs1, w1') ∧
      batch_loop cfg2 c lag2 total2 i2 rest results2 w2 = (Normal rs2, w2') ∧
      untimed <$> rs1 = untimed <$> rs2.
Proof.
  induction rest as [|number rest IH];
    intros cfg1 lag1 total1 i1 results1 w1 cfg2 lag2 total2 i2 results2 w2
      Hcalls Hres.
  - by exists results1, w1, results2, w2.
  - cbn [batch_loop]. rewrite !emit_then.
    set (v1 := World _ _ _ _ _ _ (log w1 ++ _)).
    set (v2 := World _ _ _ _ _ _ (log w2 ++ _)).
    destruct (single_validateNumber_returns c (number_of number) v1)
      as (r1 & v1' & Hv1 & _ & _ & _ & _ & _ & _ & _ & Hsame).
    destruct (Hsame v2) as (r2 & v2' & Hv2 & Hr & Hc'); [by subst v1 v2 |].
    rewrite (bind_normal _ _ _ _ _ Hv1), (bind_normal _ _ _ _ _ Hv2).
    destruct (after_result cfg1 lag1 total1 i1 (results1 ++ [r1]) v1')
      as (u1 & Hk1 & Hcu1 & _).
    destruct (after_result cfg2 lag2 total2 i2 (results2 ++ [r2]) v2')
      as (u2 & Hk2 & Hcu2 & _).
    rewrite Hk1, Hk2. apply IH; [congruence |].
    rewrite !fmap_app. cbn [fmap list_fmap]. by rewrite Hres, Hr.
Qed.

Lemma count_untimed (P : result → Prop) `{!∀ r, Decision (P r)}
    (rs1 rs2 : list result) :
  (∀ r, P r ↔ P (untimed r)) →
  untimed <$> rs1 = untimed <$> rs2 →
  length (filter P rs1) = length (filter P rs2).
Proof.
  intros HP. revert rs2.
  induction rs1 as [|r1 rs1 IH]; intros [|r2 rs2] Heq; try done.
  rewrite !fmap_cons in Heq.
  apply (f_equal head) in Heq as Hr. apply (f_equal tail) in Heq as Hrs.
  cbn [head tail] in Hr, Hrs. apply (inj Some) in Hr.
  rewrite !filter_cons.
  specialize (IH _ Hrs).
  assert (P r1 ↔ P r2) as HP12 by (rewrite (HP r1), (HP r2), Hr; done).
  destruct (decide (P r1)), (decide (P r2)); simpl; tauto || lia.
Qed.

Lemma report_untimed (rs1 rs2 : list result) :
  untimed <$> rs1 = untimed <$> rs2 →
  generateReport rs1 = generateReport rs2.
Proof.
  intros Heq. unfold generateReport. f_equal.
  - apply (f_equal length) in Heq. by rewrite !length_fmap in Heq.
  - by apply count_untimed.
  - by apply count_untimed.
  - by apply count_untimed.
Qed.

(** Flushing the first [q] batches of ten appends the first [10 q]
    results to the sink. *)
Lemma flush_batches (rs : list result) (rows : option (list result)) (q : nat) :
  foldl (λ s b, Some (default [] s ++ b)) rows (batch_of_ten rs <$> seq 0 q)
  = if decide (q = 0%nat) then rows
    else Some (default [] rows ++ take (10 * q) rs).
Proof.
  induction q as [|q IH]; [reflexivity |].
  rewrite seq_S, fmap_app, foldl_app, IH. cbn [fmap list_fmap foldl].
  rewrite (decide_False (P := S q = 0%nat)) by lia. f_equal.
  unfold batch_of_ten. destruct (decide (q = 0%nat)) as [->|Hq].
  - by rewrite Nat.add_0_l, Nat.mul_0_r, drop_0.
  - unfold default at 1. unfold id. rewrite <- app_assoc, Nat.add_0_l. f_equal.
    rewrite take_take_drop. f_equal. lia.
Qed.

Lemma save_checkpoints (f : nat → checkpoint) (file : option checkpoint)
    (q : nat) :
  foldl (λ _ cp, Some cp) file (f <$> seq 0 q)
  = if decide (q = 0%nat) then file else Some (f (q - 1)%nat).
Proof.
  destruct q as [|q]; [reflexivity |].
  rewrite seq_S, fmap_app, foldl_app. cbn [fmap list_fmap foldl].
  rewrite (decide_False (P := S q = 0%nat)) by lia. do 2 f_equal. lia.
Qed.

Lemma persisted_tens (cp : checkpoint) :
  persisted cp → (lastIndex cp `mod` 10 = 0)%nat.
Proof.
  intros (cfg & c & lag & numbers & startIndex & t & file & rows & Hin).
  unfold validateBatch in Hin.
  pose proof (batch_loop_saves_tens cfg c lag (length numbers)
                (drop startIndex numbers) startIndex []
                (constructed t file rows) ltac:(constructor)) as Hall.
  rewrite Forall_forall in Hall. apply Hall.
  unfold saved. apply list_elem_of_omap. by exists (Saved cp).
Qed.
Lemma found_tens (file : option checkpoint) (t : Z) :
  found file → (lastIndex (loadProgress file t) `mod` 10 = 0)%nat.
Proof.
  destruct file as [cp|]; [apply persisted_tens | reflexivity].
Qed.

Lemma batch_of_ten_full (rs : list result) (j : nat) :
  (j < length rs / 10)%nat → length (batch_of_ten rs j) = 10%nat.
Proof.
  intros Hj. unfold batch_of_ten. rewrite length_take, length_drop.
  pose proof (Nat.div_mod_eq (length rs) 10) as Hdiv.
  pose proof (Nat.mod_upper_bound (length rs) 10 ltac:(lia)) as Hmod.
  lia.
Qed.
End BasicFacts.

Module BasicClaims.
Import Eff Input Basic BasicFacts.

(** C6.  A run of [main] over a store that holds no progress file, or
    one written by an earlier run, resumes at the stored [lastIndex]
    [k]: it checks exactly the indices [k, k+1, ...] up to the end of
    the list and returns one result for each; after each ten of them it
    writes the checkpoint [{lastIndex, totalChecked, startTime}]
    advanced by that many items and appends those ten results to the
    sink, so that the files end up holding the last such checkpoint and
    all full batches; and the counts of [generateReport] over its
    results are those of a run from index 0 on the remaining slice. *)
Theorem resume_from_checkpoint (cfg : config) (c : client) (lag : nat → Z)
    (numbers : list item) (t : Z) (file : option checkpoint)
    (rows : option (list result)) :
  found file →
  let cp := loadProgress file t in
  let k := lastIndex cp in
  let n := (length numbers - k)%nat in
  let q := (n / 10)%nat in
  let cp_after (j : nat) :=
    Checkpoint (k + 10 * S j) (totalChecked cp + 10 * S j) (startTime cp) in
  ∃ rs w',
    main_validate cfg c lag numbers (constructed t file rows)
    = (Normal rs, w') ∧
    length rs = n ∧
    checked (log w') = seq k n ∧
    saved (log w') = cp_after <$> seq 0 q ∧
    flushed (log w') = batch_of_ten rs <$> seq 0 q ∧
    Forall (λ b, length b = 10%nat) (flushed (log w')) ∧
    progressFile w'
    = (if decide (q = 0%nat) then file else Some (cp_after (q - 1)%nat)) ∧
    sink w'
    = (if decide (q = 0%nat) then rows
       else Some (default [] rows ++ take (10 * q) rs)) ∧
    ∀ cfg' lag' t', ∃ rs0 w0,
      validateBatch cfg' c lag' (drop k numbers) 0 (constructed t' None None)
      = (Normal rs0, w0) ∧
      generateReport rs = generateReport rs0.
Proof.
  intros Hfound cp k n q cp_after.
  pose proof (found_tens file t Hfound) as Hk. fold cp k in Hk.
  destruct (batch_loop_aligned cfg c lag (length numbers) k
              (drop k numbers) Hk [] (constructed t file rows))
    as (rs & w' & Hrun & Hlen & Hchk & Hfl & Hsv).
  cbv zeta in Hfl, Hsv. cbn [length app] in Hrun, Hchk, Hfl, Hsv.
  rewrite Nat.add_0_r in Hrun, Hchk.
  rewrite length_drop in Hlen, Hchk, Hfl, Hsv. fold n in Hlen, Hchk, Hfl, Hsv.
  change (0 / 10)%nat with 0%nat in Hfl, Hsv.
  rewrite Nat.add_0_l, Nat.sub_0_r in Hfl, Hsv. fold q in Hfl, Hsv.
  change (log (constructed t file rows)) with (@nil event) in Hchk, Hfl, Hsv.
  change (progress (constructed t file rows)) with cp in Hsv.
  cbn [checked saved flushed omap list_omap app] in Hchk, Hfl, Hsv.
  assert (Hsv' : saved (log w') = cp_after <$> seq 0 q).
  { rewrite Hsv. apply list_fmap_ext. intros ix j Hj. subst cp_after.
    cbv beta. f_equal. lia. }
  exists rs, w'. split_and!; try done.
  - rewrite Hfl. apply Forall_fmap, Forall_forall. intros j Hj.
    apply elem_of_seq in Hj. apply batch_of_ten_full. rewrite Hlen.
    fold q. lia.
  - destruct (batch_loop_store _ _ _ _ _ _ _ _ _ _ Hrun)
      as (sv & fl & Hsv2 & _ & Hpf & _).
    change (log (constructed t file rows)) with (@nil event) in Hsv2.
    cbn [saved omap list_omap app] in Hsv2.
    rewrite Hpf, <- Hsv2, Hsv'. apply save_checkpoints.
  - destruct (batch_loop_store _ _ _ _ _ _ _ _ _ _ Hrun)
      as (sv & fl & _ & Hfl2 & _ & Hsk).
    change (log (constructed t file rows)) with (@nil event) in Hfl2.
    cbn [flushed omap list_omap app] in Hfl2.
    rewrite Hsk, <- Hfl2, Hfl. apply flush_batches.
  - intros cfg' lag' t'.
    destruct (batch_loop_same_verdicts c (drop k numbers)
                cfg lag (length numbers) k [] (constructed t file rows)
                cfg' lag' (length (drop k numbers)) 0%nat []
                (constructed t' None None) eq_refl eq_refl)
      as (rs1 & w1 & rs0 & w0 & Hrun1 & Hrun0 & Hsame).
    rewrite Hrun in Hrun1. injection Hrun1 as <- <-.
    exists rs0, w0. split; [| apply report_untimed; exact Hsame].
    unfold validateBatch. rewrite drop_0. exact Hrun0.
Qed.

Lemma resume_from_checkpoint_witness :
  found (Some (Checkpoint 20 20 0)) ∧
  ∃ rs w',
    main_validate sample_config all_registered (λ _, 0) twenty_five
      (constructed 7 (Some (Checkpoint 20 20 0)) (sink first_run.2))
    = (Normal rs, w') ∧
    checked (log w') = [20; 21; 22; 23; 24]%nat ∧
    saved (log w') = [].
Proof.
  assert (Hfound : found (Some (Checkpoint 20 20 0))).
  { exists sample_config, all_registered, (λ _, 0), twenty_five, 0%nat, 0,
      None, None.
    apply list_elem_of_In. vm_compute. tauto. }
  split; [exact Hfound |].
  destruct (resume_from_checkpoint sample_config all_registered (λ _, 0)
              twenty_five 7 (Some (Checkpoint 20 20 0)) (sink first_run.2)
              Hfound)
    as (rs & w' & Hrun & _ & Hchk & Hsv & _).
  exists rs, w'. split_and!; [exact Hrun | exact Hchk | exact Hsv].
Defined.
End BasicClaims.

(** ** The concurrent scheduler *)
Module OptimizedFacts.
Import Input Optimized.

Lemma omap_insert_none {A B} (f : A → option B) (l : list A) (i : nat)
    (x y : A) :
  l !! i = Some x → f x = None →
  omap f (<[i:=y]> l) ≡ₚ omap f l ++ from_option (λ r, [r]) [] (f y).
Proof.
  revert i. induction l as [|a l IH]; intros [|i] Hl Hx; simplify_eq/=.
  - rewrite Hx. destruct (f y); simpl; [| by rewrite app_nil_r].
    apply Permutation_cons_append.
  - destruct (f a); simpl; [f_equiv |]; by apply IH.
Qed.

Lemma unsettled_no_result (t : task) : is_settled t = false → result_of t = None.
Proof. unfold is_settled, result_of. by destruct (pc t). Qed.

Lemma on_success_advances (o : options) (now : Z) (t : task)
    (retries call : nat) (wid : string) (b : bool) (st : state) :
  pc t = Calling retries call wid → task_ok o t →
  advances o t st (on_success now t wid b st).
Proof.
  intros Hpc Hok. unfold task_ok in Hok. rewrite Hpc in Hok.
  destruct Hok as (-> & Hlt & Hiss).
  unfold advances, on_success.
  destruct b; cbn; repeat apply conj; done || lia.
Qed.

Lemma on_error_advances (o : options) (now : Z) (t : task) (retries : nat)
    (err : Eff.error) (st : state) :
  retries = caught t → (retries < maxRetries o)%nat →
  (issued t ≤ S retries)%nat →
  advances o t st (on_error o now t retries err st).
Proof.
  intros -> Hlt Hiss. unfold advances, on_error.
  destruct (maxRetries o <=? S (caught t))%nat eqn:E; cbn.
  - apply Nat.leb_le in E. repeat apply conj; done || lia.
  - apply Nat.leb_gt in E. rewrite app_nil_r.
    repeat apply conj; done || lia.
Qed.

Lemma attempt_advances (o : options) (now : Z) (t : task) (retries : nat)
    (st : state) :
  retries = caught t → (issued t ≤ retries)%nat →
  (retries < maxRetries o)%nat ∨ retries = 0%nat →
  advances o t st (attempt o now t retries st).
Proof.
  intros Hc Hiss Hr. unfold attempt.
  destruct (retries <? maxRetries o)%nat eqn:E.
  - apply Nat.ltb_lt in E. destruct (number_of (numberObj t)).
    + unfold advances; cbn. rewrite app_nil_r.
      repeat apply conj; done || lia.
    + apply on_error_advances; done || lia.
  - apply Nat.ltb_ge in E. unfold advances; cbn. rewrite app_nil_r.
    repeat apply conj; done || lia.
Qed.

Lemma task_settled_put (tid : nat) (t : task) (ts : task * state)
    (st : state) (p : nat) :
  tasks st !! tid = Some t → is_settled t = false → tasks ts.2 = tasks st →
  task_settled st p = true → task_settled (put_task tid ts) p = true.
Proof.
  intros Ht Hun Htasks Hp. unfold task_settled, put_task in *. cbn.
  rewrite Htasks. destruct (decide (tid = p)) as [->|Hne].
  - rewrite Ht in Hp. congruence.
  - by rewrite list_lookup_insert_ne.
Qed.

Lemma put_task_inv (o : options) (n : nat) (numbers : list item) (tid : nat)
    (t : task) (st : state) (ts : task * state) :
  inv o n numbers st → tasks st !! tid = Some t → is_settled t = false →
  advances o t st ts → inv o n numbers (put_task tid ts).
Proof.
  intros [Hw Ha Hr Hh Hf Hd Ht] Htid Hun (Hnum & Htasks & Hworkers & Hq & Hres & Hok).
  split; unfold put_task; cbn.
  - by rewrite Hworkers.
  - destruct Ha as (shifted & Hsh & Hobj). exists shifted. cbn.
    rewrite Hq, Htasks. split; [done |].
    rewrite list_fmap_insert, list_insert_id; [done |].
    by rewrite list_lookup_fmap, Htid, Hnum.
  - unfold recorded in *. cbn. rewrite Hres, Htasks, Hr.
    symmetry. apply omap_insert_none with t; [done |].
    by apply unsettled_no_result.
  - intros tid' t' Hl Hun'. cbn in *. rewrite Htasks in Hl. rewrite Hworkers.
    destruct (decide (tid = tid')) as [<-|Hne].
    + by apply (Hh tid t).
    + rewrite list_lookup_insert_ne in Hl by done. by apply (Hh tid' t').
  - intros w x Hx Hfin. cbn in Hx. rewrite Hworkers in Hx.
    eapply Forall_impl; [by apply (Hf w x) |].
    intros p Hp. by apply (task_settled_put tid t ts st).
  - destruct Hd as [Hd|Hd]; [left | right]; cbn; by rewrite ?Hq, ?Hworkers.
  - rewrite Htasks. by apply Forall_insert.
Qed.
Lemma pc_of_Some (st : state) (w : nat) :
  pc_of st w ≠ Finished →
  ∃ x, workers st !! w = Some x ∧ at_pc x = pc_of st w.
Proof. unfold pc_of. destruct (workers st !! w); [eauto | done]. Qed.

Lemma unsettled_task (st : state) (tid : nat) (t : task) :
  tasks st !! tid = Some t → is_settled t = false →
  task_settled st tid = false.
Proof. intros Ht Hun. unfold task_settled. by rewrite Ht. Qed.

Lemma elem_of_delete_other {A} (l : list A) (i : nat) (x p : A) :
  x ∈ l → l !! i = Some p → x ≠ p → x ∈ delete i l.
Proof.
  intros Hx Hi Hne. apply list_elem_of_lookup in Hx as [j Hj].
  apply list_elem_of_lookup.
  destruct (decide (j < i)%nat).
  - exists j. by rewrite list_lookup_delete_lt.
  - destruct (decide (j = i)) as [->|]; [congruence |].
    exists (j - 1)%nat. rewrite list_lookup_delete_ge by lia.
    by replace (S (j - 1)) with j by lia.
Qed.

Lemma set_pc_inv (o : options) (n : nat) (numbers : list item) (w : nat)
    (p : worker_pc) (st : state) :
  inv o n numbers st →
  (p = Finished → Forall (λ q, task_settled st q = true) (tasks_of st w)) →
  (p = AwaitAll ∨ p = Finished → workQueue st = []) →
  inv o n numbers (set_pc w p st).
Proof.
  intros [Hw Ha Hr Hh Hf Hd Ht] Hfin Hpast. split.
  - unfold set_pc; cbn. by rewrite length_alter.
  - exact Ha.
  - exact Hr.
  - intros tid t Hl Hun. destruct (Hh tid t Hl Hun) as (w' & x & Hx & Hin).
    unfold set_pc; cbn. destruct (decide (w = w')) as [<-|Hne].
    + exists w, (Worker (driven x) (concurrentTasks x) p).
      by rewrite list_lookup_alter_eq, Hx.
    + exists w', x. by rewrite list_lookup_alter_ne.
  - intros w' x Hx Hfin'. unfold set_pc in Hx; cbn in Hx.
    destruct (decide (w = w')) as [<-|Hne].
    + rewrite list_lookup_alter_eq in Hx.
      destruct (workers st !! w) as [x0|] eqn:Hx0; [| done].
      cbn in Hx. apply (inj Some) in Hx. subst x. cbn in *.
      specialize (Hfin Hfin'). unfold tasks_of in Hfin.
      rewrite Hx0 in Hfin. exact Hfin.
    + rewrite list_lookup_alter_ne in Hx by done. exact (Hf w' x Hx Hfin').
  - destruct (workQueue st) as [|y q] eqn:Hq; [left; exact Hq | right].
    destruct Hd as [Hd|Hd]; [by rewrite Hq in Hd |].
    intros w' x Hx Hp. unfold set_pc in Hx; cbn in Hx.
    destruct (decide (w = w')) as [<-|Hne].
    + rewrite list_lookup_alter_eq in Hx.
      destruct (workers st !! w) as [x0|] eqn:Hx0; [| done].
      cbn in Hx. apply (inj Some) in Hx. subst x. cbn in Hp.
      by specialize (Hpast Hp).
    + rewrite list_lookup_alter_ne in Hx by done. exact (Hd w' x Hx Hp).
  - exact Ht.
Qed.

Lemma pc_of_set_pc (st : state) (w w' : nat) (p : worker_pc) :
  pc_of (set_pc w p st) w'
  = if decide (w = w') then
      match workers st !! w with Some _ => p | None => Finished end
    else pc_of st w'.
Proof.
  unfold pc_of, set_pc; cbn. destruct (decide (w = w')) as [<-|Hne].
  - rewrite list_lookup_alter_eq. by destruct (workers st !! w).
  - by rewrite list_lookup_alter_ne.
Qed.

Lemma pc_of_set_concurrentTasks (st : state) (w w' : nat) (l : list nat) :
  pc_of (set_concurrentTasks w l st) w' = pc_of st w'.
Proof.
  unfold pc_of, set_concurrentTasks; cbn. destruct (decide (w = w')) as [<-|Hne].
  - rewrite list_lookup_alter_eq. by destruct (workers st !! w).
  - by rewrite list_lookup_alter_ne.
Qed.

Lemma splice_inv (o : options) (n : nat) (numbers : list item) (w i p : nat)
    (st : state) :
  inv o n numbers st → tasks_of st w !! i = Some p →
  task_settled st p = true →
  inv o n numbers (set_concurrentTasks w (splice1 i (tasks_of st w)) st).
Proof.
  intros [Hw Ha Hr Hh Hf Hd Ht] Hi Hp. split.
  - unfold set_concurrentTasks; cbn. by rewrite length_alter.
  - exact Ha.
  - exact Hr.
  - intros tid t Hl Hun. destruct (Hh tid t Hl Hun) as (w' & x & Hx & Hin).
    unfold set_concurrentTasks; cbn. destruct (decide (w = w')) as [<-|Hne].
    + eexists w, _. rewrite list_lookup_alter_eq, Hx. split; [done |]. cbn.
      unfold tasks_of in *. rewrite Hx in *. unfold splice1.
      apply elem_of_delete_other with p; [done | done |].
      intros ->. pose proof (unsettled_task st p t Hl Hun). congruence.
    + exists w', x. by rewrite list_lookup_alter_ne.
  - intros w' x Hx Hfin. unfold set_concurrentTasks in Hx; cbn in Hx.
    destruct (decide (w = w')) as [<-|Hne].
    + rewrite list_lookup_alter_eq in Hx.
      destruct (workers st !! w) as [x0|] eqn:Hx0; [| done].
      cbn in Hx. apply (inj Some) in Hx. subst x. cbn in *.
      unfold tasks_of. rewrite Hx0. apply Forall_delete.
      exact (Hf w x0 Hx0 Hfin).
    + rewrite list_lookup_alter_ne in Hx by done. exact (Hf w' x Hx Hfin).
  - destruct Hd as [Hd|Hd]; [by left | right].
    intros w' x Hx Hpast. unfold set_concurrentTasks in Hx; cbn in Hx.
    destruct (decide (w = w')) as [<-|Hne].
    + rewrite list_lookup_alter_eq in Hx.
      destruct (workers st !! w) as [x0|] eqn:Hx0; [| done].
      cbn in Hx. apply (inj Some) in Hx. subst x. exact (Hd w x0 Hx0 Hpast).
    + rewrite list_lookup_alter_ne in Hx by done. exact (Hd w' x Hx Hpast).
  - exact Ht.
Qed.
(** A falsy item is taken off the queue and dropped. *)
Lemma skip_inv (o : options) (n : nat) (numbers : list item) (x : item)
    (rest : list item) (st : state) :
  inv o n numbers st → workQueue st = x :: rest → truthy x = false →
  inv o n numbers (set_workQueue rest st).
Proof.
  intros [Hw Ha Hr Hh Hf Hd Ht] Hq Hx. split; try done.
  - destruct Ha as (shifted & Hsh & Hobj). exists (shifted ++ [x]). cbn.
    rewrite Hsh, Hq, <- app_assoc. split; [done |].
    rewrite filter_app, filter_cons_False, filter_nil, app_nil_r; [done |].
    by rewrite Hx.
  - right. destruct Hd as [Hd|Hd]; [by rewrite Hq in Hd | exact Hd].
Qed.

(** A truthy item is taken off the queue and handed to [processNumber];
    the promise is pushed on the worker's [concurrentTasks]. *)
Lemma start_inv (o : options) (now : Z) (n : nat) (numbers : list item)
    (w s : nat) (x : item) (rest : list item) (P : gset item) (st : state) :
  inv o n numbers st → workQueue st = x :: rest → truthy x = true →
  pc_of st w ≠ Finished →
  let ps := processNumber o now s x (set_processing P (set_workQueue rest st)) in
  let st' := set_concurrentTasks w (tasks_of ps.2 w ++ [ps.1]) ps.2 in
  inv o n numbers st' ∧ workQueue st' = rest ∧
  ∀ w', pc_of st' w' = pc_of st w'.
Proof.
  intros [Hw Ha Hr Hh Hf Hd Ht] Hq Hx Hpc. unfold processNumber.
  set (st2 := set_processing P (set_workQueue rest st)).
  pose proof (attempt_advances o now (Task s x (Backoff 0) 0 0) 0 st2
                eq_refl (le_n 0) (or_intror eq_refl)) as Hadv.
  destruct (attempt o now (Task s x (Backoff 0) 0 0) 0 st2) as [t' st3].
  destruct Hadv as (Hnum & Htasks & Hworkers & Hwq & Hres & Hok).
  cbn in Hnum, Htasks, Hworkers, Hwq, Hres, Hok. cbn [fst snd].
  destruct (pc_of_Some st w Hpc) as (x0 & Hx0 & Hpc0).
  assert (Htw : tasks_of (set_tasks (tasks st3 ++ [t']) st3) w
                = concurrentTasks x0).
  { unfold tasks_of; cbn. by rewrite Hworkers, Hx0. }
  rewrite Htw. split_and!.
  - split.
    + unfold set_concurrentTasks; cbn. by rewrite length_alter, Hworkers.
    + destruct Ha as (shifted & Hsh & Hobj). exists (shifted ++ [x]). cbn.
      rewrite Hwq, Htasks, Hsh, Hq, <- app_assoc. split; [done |].
      rewrite fmap_app, Hobj, filter_app, filter_cons_True, filter_nil by done.
      cbn. by rewrite Hnum.
    + unfold recorded in *. cbn. rewrite Hres, Htasks, omap_app, Hr.
      f_equiv.
    + intros tid t Hl Hun. cbn in Hl. rewrite Htasks in Hl.
      unfold set_concurrentTasks; cbn. rewrite Hworkers.
      apply lookup_snoc_Some in Hl as [[Hlt Hl]|[-> ->]].
      * destruct (Hh tid t Hl Hun) as (w' & y & Hy & Hin).
        destruct (decide (w = w')) as [<-|Hne].
        -- eexists w, _. rewrite list_lookup_alter_eq, Hy.
           split; [done |]. cbn. rewrite Hx0 in Hy. simplify_eq.
           set_solver.
        -- exists w', y. by rewrite list_lookup_alter_ne.
      * eexists w, _. rewrite list_lookup_alter_eq, Hx0. split; [done |].
        cbn. rewrite Htasks. set_solver.
    + intros w' y Hy Hfin. unfold set_concurrentTasks in Hy; cbn in Hy.
      rewrite Hworkers in Hy. destruct (decide (w = w')) as [<-|Hne].
      * rewrite list_lookup_alter_eq, Hx0 in Hy. cbn in Hy.
        apply (inj Some) in Hy. subst y. cbn in Hfin. congruence.
      * rewrite list_lookup_alter_ne in Hy by done.
        eapply Forall_impl; [exact (Hf w' y Hy Hfin) |].
        intros p Hp. unfold task_settled in *. cbn. rewrite Htasks.
        destruct (tasks st !! p) as [tp|] eqn:Htp; [| done].
        by rewrite (lookup_app_l_Some _ _ _ _ Htp).
    + right. destruct Hd as [Hd|Hd]; [by rewrite Hq in Hd |].
      intros w' y Hy Hpast. unfold set_concurrentTasks in Hy; cbn in Hy.
      rewrite Hworkers in Hy. destruct (decide (w = w')) as [<-|Hne].
      * rewrite list_lookup_alter_eq, Hx0 in Hy. cbn in Hy.
        apply (inj Some) in Hy. subst y. exact (Hd w x0 Hx0 Hpast).
      * rewrite list_lookup_alter_ne in Hy by done. exact (Hd w' y Hy Hpast).
    + cbn. rewrite Htasks. apply Forall_app. split; [done |].
      by constructor.
  - exact Hwq.
  - intros w'. rewrite pc_of_set_concurrentTasks. unfold pc_of; cbn.
    by rewrite Hworkers.
Qed.

Lemma fill_inv (o : options) (now : Z) (n : nat) (numbers : list item)
    (w : nat) (queue : list item) :
  ∀ st, workQueue st = queue → inv o n numbers st → pc_of st w ≠ Finished →
    inv o n numbers (fill o now w queue st) ∧
    ∀ w', pc_of (fill o now w queue st) w' = pc_of st w'.
Proof.
  induction queue as [|x rest IH]; intros st Hq Hinv Hpc; [done |].
  cbn [fill].
  destruct (length (tasks_of st w) <? concurrentPerSession o)%nat; [| done].
  destruct (truthy x) eqn:Hx.
  - pose proof (start_inv o now n numbers w (session_of
                  (set_processing ({[x]} ∪ processing (set_workQueue rest st))
                     (set_workQueue rest st)) w) x rest
                  ({[x]} ∪ processing (set_workQueue rest st)) st
                  Hinv Hq Hx Hpc) as Hstart.
    cbv zeta in Hstart.
    destruct (processNumber o now _ x _) as [p st3].
    cbn [fst snd] in Hstart. destruct Hstart as (Hinv' & Hq' & Hpc').
    destruct (IH _ Hq' Hinv') as [Hfin Hsame]; [by rewrite Hpc' |].
    split; [exact Hfin |]. intros w'. by rewrite Hsame, Hpc'.
  - destruct (IH (set_workQueue rest st) eq_refl
                (skip_inv o n numbers x rest st Hinv Hq Hx) Hpc)
      as [Hfin Hsame].
    split; [exact Hfin |]. intros w'. by rewrite Hsame.
Qed.
Lemma leave_loop_inv (o : options) (n : nat) (numbers : list item) (w : nat)
    (st : state) :
  inv o n numbers st → workQueue st = [] → inv o n numbers (leave_loop w st).
Proof.
  intros Hinv Hq. unfold leave_loop.
  destruct (tasks_of st w) eqn:E; apply set_pc_inv; try done.
  intros _. rewrite E. constructor.
Qed.

Lemma pc_of_leave_loop (st : state) (w w' : nat) :
  w' ≠ w → pc_of (leave_loop w st) w' = pc_of st w'.
Proof.
  intros Hne. unfold leave_loop.
  destruct (tasks_of st w); by rewrite pc_of_set_pc, decide_False.
Qed.

Lemma iterate_inv (o : options) (now : Z) (n : nat) (numbers : list item)
    (w : nat) (st : state) :
  inv o n numbers st → pc_of st w ≠ Finished →
  inv o n numbers (iterate o now w st) ∧
  ∀ w', w' ≠ w → pc_of (iterate o now w st) w' = pc_of st w'.
Proof.
  intros Hinv Hpc. unfold iterate.
  destruct (negb (queue_empty st) || negb (none_processing st)) eqn:Hcond.
  - destruct (fill_inv o now n numbers w (workQueue st) st eq_refl Hinv Hpc)
      as [Hfill Hsame].
    cbv zeta. set (st1 := fill o now w (workQueue st) st) in *.
    assert (Hgo : ∀ p, p ≠ Finished → p ≠ AwaitAll →
              inv o n numbers (set_pc w p st1) ∧
              ∀ w', w' ≠ w → pc_of (set_pc w p st1) w' = pc_of st w').
    { intros p Hp1 Hp2. split.
      - apply set_pc_inv; [done | done | by intros [?|?]].
      - intros w' Hne. rewrite pc_of_set_pc, decide_False by done.
        apply Hsame. }
    destruct (tasks_of st1 w); [| by apply Hgo].
    destruct (queue_empty st1 && negb (none_processing st1));
      [by apply Hgo |].
    destruct (negb (queue_empty st1)); by apply Hgo.
  - apply orb_false_elim in Hcond as [Hq _].
    apply negb_false_iff, bool_decide_eq_true in Hq.
    split; [by apply leave_loop_inv |].
    intros w' Hne. by apply pc_of_leave_loop.
Qed.

Lemma loop_head_inv (o : options) (now : Z) (n : nat) (numbers : list item)
    (w : nat) (st : state) :
  inv o n numbers st → pc_of st w ≠ Finished →
  inv o n numbers (loop_head o now w st) ∧
  ∀ w', w' ≠ w → pc_of (loop_head o now w st) w' = pc_of st w'.
Proof.
  intros Hinv Hpc. unfold loop_head. cbv zeta.
  destruct (iterate_inv o now n numbers w st Hinv Hpc) as [H1 Hsame1].
  destruct (pc_of (iterate o now w st) w) eqn:E; try done.
  destruct (iterate_inv o now n numbers w (iterate o now w st) H1)
    as [H2 Hsame2]; [by rewrite E |].
  split; [exact H2 |]. intros w' Hne. by rewrite Hsame2, Hsame1.
Qed.

Lemma end_of_body_inv (o : options) (now : Z) (n : nat) (numbers : list item)
    (w : nat) (st : state) :
  inv o n numbers st → pc_of st w ≠ Finished →
  inv o n numbers (end_of_body o now w st).
Proof.
  intros Hinv Hpc. unfold end_of_body. destruct (negb (queue_empty st)).
  - apply set_pc_inv; [done | done | by intros [?|?]].
  - by apply loop_head_inv.
Qed.

Lemma forallb_Forall {A} (f : A → bool) (l : list A) :
  forallb f l = true → Forall (λ x, f x = true) l.
Proof.
  intros H. apply Forall_forall. intros x Hx.
  apply list_elem_of_In in Hx. by apply (proj1 (forallb_forall f l) H).
Qed.

Lemma resume_inv (o : options) (now : Z) (n : nat) (numbers : list item)
    (w : nat) (st st' : state) :
  inv o n numbers st → resume o now w st = Some st' → inv o n numbers st'.
Proof.
  intros Hinv Hstep. unfold resume in Hstep.
  destruct (pc_of st w) eqn:E; try done.
  - apply (inj Some) in Hstep as <-. apply loop_head_inv; [done |].
    by rewrite E.
  - destruct (existsb _ _); [| done].
    destruct (length (tasks_of st w)); [done |].
    apply (inj Some) in Hstep as <-.
    apply set_pc_inv; [done | done | by intros [?|?]].
  - apply (inj Some) in Hstep as <-. apply end_of_body_inv; [done |].
    by rewrite E.
  - apply (inj Some) in Hstep as <-. apply loop_head_inv; [done |].
    by rewrite E.
  - destruct (forallb _ _) eqn:Hall; [| done].
    apply (inj Some) in Hstep as <-.
    apply set_pc_inv; [done | intros _; by apply forallb_Forall |].
    intros _. destruct (inv_drained _ _ _ _ Hinv) as [Hd|Hd]; [done |].
    destruct (pc_of_Some st w) as (x & Hx & Hpc); [by rewrite E |].
    exfalso. apply (Hd w x Hx). left. by rewrite Hpc.
Qed.

Lemma resolved_inv (o : options) (now : Z) (n : nat) (numbers : list item)
    (w : nat) (b : bool) (st st' : state) :
  inv o n numbers st → resolved o now w b st = Some st' →
  inv o n numbers st'.
Proof.
  intros Hinv Hstep. unfold resolved in Hstep.
  destruct (pc_of st w) eqn:E; try done.
  destruct (tasks_of st w !! i) as [p|] eqn:Hi; [| done].
  destruct b.
  - destruct (task_settled st p) eqn:Hp; [| done].
    pose proof (splice_inv o n numbers w i p st Hinv Hi Hp) as Hinv'.
    destruct i as [|i']; apply (inj Some) in Hstep as <-.
    + apply end_of_body_inv; [done |].
      by rewrite pc_of_set_concurrentTasks, E.
    + apply set_pc_inv; [done | done | by intros [?|?]].
  - destruct (negb settled_at_call); [| done].
    destruct i as [|i']; apply (inj Some) in Hstep as <-.
    + apply end_of_body_inv; [done |]. by rewrite E.
    + apply set_pc_inv; [done | done | by intros [?|?]].
Qed.

Lemma settle_inv (o : options) (tr : transport) (now : Z) (n : nat)
    (numbers : list item) (tid : nat) (st st' : state) :
  inv o n numbers st → settle o tr now tid st = Some st' →
  inv o n numbers st'.
Proof.
  intros Hinv Hstep. unfold settle in Hstep.
  destruct (tasks st !! tid) as [t|] eqn:Ht; [| done].
  pose proof (Forall_lookup_1 _ _ _ _ (inv_tasks _ _ _ _ Hinv) Ht) as Hok.
  destruct (pc t) as [retries call wid| |] eqn:Hpc; try done.
  assert (Hun : is_settled t = false) by (unfold is_settled; by rewrite Hpc).
  destruct (tr _ call wid) as [b|err]; apply (inj Some) in Hstep as <-.
  - apply (put_task_inv o n numbers tid t st _ Hinv Ht Hun).
    by apply on_success_advances with retries call.
  - apply (put_task_inv o n numbers tid t st _ Hinv Ht Hun).
    unfold task_ok in Hok. rewrite Hpc in Hok.
    destruct Hok as (? & ? & ?). by apply on_error_advances.
Qed.

Lemma wake_inv (o : options) (now : Z) (n : nat) (numbers : list item)
    (tid : nat) (st st' : state) :
  inv o n numbers st → wake o now tid st = Some st' → inv o n numbers st'.
Proof.
  intros Hinv Hstep. unfold wake in Hstep.
  destruct (tasks st !! tid) as [t|] eqn:Ht; [| done].
  pose proof (Forall_lookup_1 _ _ _ _ (inv_tasks _ _ _ _ Hinv) Ht) as Hok.
  destruct (pc t) as [| retries |] eqn:Hpc; try done.
  assert (Hun : is_settled t = false) by (unfold is_settled; by rewrite Hpc).
  apply (inj Some) in Hstep as <-.
  apply (put_task_inv o n numbers tid t st _ Hinv Ht Hun).
  unfold task_ok in Hok. rewrite Hpc in Hok. destruct Hok as (? & ? & ?).
  apply attempt_advances; [done | done | by left].
Qed.

Lemma step_inv (o : options) (tr : transport) (n : nat) (numbers : list item)
    (l : label) (st st' : state) :
  inv o n numbers st → step o tr l st = Some st' → inv o n numbers st'.
Proof.
  intros Hinv Hstep. unfold step in Hstep. destruct (act l).
  - by apply (resume_inv o (at_time l) n numbers w st).
  - by apply (resolved_inv o (at_time l) n numbers w b st).
  - by apply (settle_inv o tr (at_time l) n numbers t st).
  - by apply (wake_inv o (at_time l) n numbers t st).
Qed.

Lemma exec_inv (o : options) (tr : transport) (n : nat) (numbers : list item)
    (ls : list label) :
  ∀ st st', inv o n numbers st → exec o tr ls st = Some st' →
    inv o n numbers st'.
Proof.
  induction ls as [|l ls IH]; intros st st' Hinv Hrun; cbn in Hrun.
  - by apply (inj Some) in Hrun as <-.
  - destruct (step o tr l st) as [st1|] eqn:Hstep; [| done].
    apply (IH st1); [| done]. by apply (step_inv o tr n numbers l st).
Qed.

Lemma start_workers_inv (o : options) (now : Z) (n : nat)
    (numbers : list item) (l : list nat) :
  ∀ st, inv o n numbers st → NoDup l →
    (∀ w, w ∈ l → pc_of st w = AtLoop) →
    inv o n numbers (foldl (λ st w, loop_head o now w st) st l).
Proof.
  induction l as [|w l IH]; intros st Hinv Hnd Hpc; [done |].
  cbn [foldl]. apply NoDup_cons in Hnd as [Hw Hnd].
  destruct (loop_head_inv o now n numbers w st Hinv) as [H1 Hsame].
  { rewrite Hpc; [done | set_solver]. }
  apply IH; [done | done |].
  intros w' Hw'. rewrite Hsame; [| set_solver].
  apply Hpc. set_solver.
Qed.

Lemma validateBatch_inv (o : options) (now : Z) (ss : list session)
    (numbers : list item) :
  inv o (length ss) numbers (validateBatch o now ss numbers).
Proof.
  unfold validateBatch. cbv zeta.
  set (ws := (λ s, Worker s [] AtLoop) <$> seq 0 (length ss)).
  assert (Hws : ∀ w x, ws !! w = Some x → at_pc x = AtLoop).
  { intros w x Hx. subst ws. rewrite list_lookup_fmap in Hx.
    destruct (seq 0 (length ss) !! w); by simplify_eq/=. }
  apply start_workers_inv.
  - split.
    + cbn. subst ws. by rewrite length_fmap, length_seq.
    + by exists [].
    + unfold recorded. cbn. done.
    + by intros tid t Hl.
    + intros w x Hx Hfin. cbn in Hx. apply Hws in Hx. congruence.
    + right. intros w x Hx [Hp|Hp]; cbn in Hx; apply Hws in Hx; congruence.
    + constructor.
  - apply NoDup_seq.
  - intros w Hw. apply elem_of_seq in Hw. unfold pc_of; cbn. subst ws.
    rewrite list_lookup_fmap, lookup_seq_lt by lia. done.
Qed.
Lemma completed_Finished (st : state) :
  completed st = true →
  ∀ w x, workers st !! w = Some x → at_pc x = Finished.
Proof.
  intros Hc w x Hx. apply forallb_Forall in Hc.
  pose proof (Forall_lookup_1 _ _ _ _ Hc Hx) as H. cbv beta in H.
  by destruct (at_pc x).
Qed.

Lemma first_worker (st : state) :
  length (workers st) ≠ 0%nat → ∃ x, workers st !! 0%nat = Some x.
Proof. destruct (workers st) as [|x l]; [done | by exists x]. Qed.

Lemma numbers_of_results (l : list task) :
  Forall (λ t, ∃ r, pc t = Settled (Some r) ∧
               number r = number_of (numberObj t)) l →
  number <$> omap result_of l = number_of <$> (numberObj <$> l).
Proof.
  induction 1 as [|t l (r & Hpc & Hr) _ IH]; [done |].
  cbn. unfold result_of at 1. rewrite Hpc. cbn. by rewrite Hr, IH.
Qed.

(** ** Zero retries *)

Lemma pending_loops (st : state) :
  pending st → negb (queue_empty st) || negb (none_processing st) = true.
Proof.
  intros [Hq|Hp]; apply orb_true_iff; [left | right]; apply negb_true_iff,
    bool_decide_eq_false.
  - intros Heq. rewrite Heq in Hq. by apply Exists_nil in Hq.
  - exact Hp.
Qed.

Lemma stuck_set_pc (w : nat) (p : worker_pc) (st : state) :
  stuck st → p ≠ AwaitAll → p ≠ Finished → stuck (set_pc w p st).
Proof.
  intros [Hp Hl Ht Hr Hc Hs] Hp1 Hp2. split; try done.
  intros w' x Hx Hpast. unfold set_pc in Hx; cbn in Hx.
  destruct (decide (w = w')) as [<-|Hne].
  - rewrite list_lookup_alter_eq in Hx.
    destruct (workers st !! w) as [x0|]; [| done].
    cbn in Hx. apply (inj Some) in Hx. subst x.
    by destruct Hpast.
  - rewrite list_lookup_alter_ne in Hx by done. exact (Hl w' x Hx Hpast).
Qed.

Lemma stuck_set_concurrentTasks (w : nat) (l : list nat) (st : state) :
  stuck st → stuck (set_concurrentTasks w l st).
Proof.
  intros [Hp Hl Ht Hr Hc Hs]. split; try done.
  intros w' x Hx Hpast. unfold set_concurrentTasks in Hx; cbn in Hx.
  destruct (decide (w = w')) as [<-|Hne].
  - rewrite list_lookup_alter_eq in Hx.
    destruct (workers st !! w) as [x0|] eqn:Hx0; [| done].
    cbn in Hx. apply (inj Some) in Hx. subst x. exact (Hl w x0 Hx0 Hpast).
  - rewrite list_lookup_alter_ne in Hx by done. exact (Hl w' x Hx Hpast).
Qed.

(** With [maxRetries] zero [processNumber] returns at once: it only
    creates a promise that is fulfilled with [undefined]. *)
Lemma processNumber_zero (o : options) (now : Z) (s : nat) (x : item)
    (st : state) :
  maxRetries o = 0%nat →
  processNumber o now s x st
  = (length (tasks st),
     set_tasks (tasks st ++ [Task s x (Settled None) 0 0]) st).
Proof. intros Hmax. unfold processNumber, attempt. by rewrite Hmax. Qed.

Lemma stuck_fill (o : options) (now : Z) (w : nat) (queue : list item) :
  maxRetries o = 0%nat →
  ∀ st, workQueue st = queue → stuck st → stuck (fill o now w queue st).
Proof.
  intros Hmax. induction queue as [|x rest IH]; intros st Hq Hst; [done |].
  cbn [fill].
  destruct (length (tasks_of st w) <? concurrentPerSession o)%nat; [| done].
  destruct (truthy x) eqn:Hx.
  - rewrite processNumber_zero by done. apply IH; [done |].
    apply stuck_set_concurrentTasks.
    destruct Hst as [Hp Hl Ht Hr Hc Hs]. split; try done.
    + right. cbn. intros Hempty.
      apply (not_elem_of_empty (C := gset item) x). rewrite <- Hempty.
      apply elem_of_union_l. by apply elem_of_singleton.
    + cbn. apply Forall_app. split; [done |]. by repeat constructor.
  - apply IH; [done |]. destruct Hst as [Hp Hl Ht Hr Hc Hs].
    split; try done. destruct Hp as [Hp|Hp]; [left | by right].
    cbn. rewrite Hq in Hp. apply Exists_cons in Hp as [Hp|Hp]; [| done].
    congruence.
Qed.

Lemma stuck_iterate (o : options) (now : Z) (w : nat) (st : state) :
  maxRetries o = 0%nat → stuck st → stuck (iterate o now w st).
Proof.
  intros Hmax Hst. unfold iterate.
  rewrite (pending_loops st (stuck_pending st Hst)). cbv zeta.
  pose proof (stuck_fill o now w (workQueue st) Hmax st eq_refl Hst) as H1.
  set (st1 := fill o now w (workQueue st) st) in *.
  destruct (tasks_of st1 w); [| by apply stuck_set_pc].
  destruct (queue_empty st1 && negb (none_processing st1));
    [by apply stuck_set_pc |].
  destruct (negb (queue_empty st1)); by apply stuck_set_pc.
Qed.

Lemma stuck_loop_head (o : options) (now : Z) (w : nat) (st : state) :
  maxRetries o = 0%nat → stuck st → stuck (loop_head o now w st).
Proof.
  intros Hmax Hst. unfold loop_head. cbv zeta.
  pose proof (stuck_iterate o now w st Hmax Hst) as H1.
  destruct (pc_of (iterate o now w st) w); try done.
  by apply stuck_iterate.
Qed.

Lemma stuck_end_of_body (o : options) (now : Z) (w : nat) (st : state) :
  maxRetries o = 0%nat → stuck st → stuck (end_of_body o now w st).
Proof.
  intros Hmax Hst. unfold end_of_body. destruct (negb (queue_empty st)).
  - by apply stuck_set_pc.
  - by apply stuck_loop_head.
Qed.

Lemma stuck_step (o : options) (tr : transport) (l : label) (st st' : state) :
  maxRetries o = 0%nat → stuck st → step o tr l st = Some st' → stuck st'.
Proof.
  intros Hmax Hst Hstep. unfold step in Hstep.
  destruct (act l) as [w|w b|tid|tid].
  - unfold resume in Hstep. destruct (pc_of st w) eqn:E; try done.
    + apply (inj Some) in Hstep as <-. by apply stuck_loop_head.
    + destruct (existsb _ _); [| done].
      destruct (length (tasks_of st w)); [done |].
      apply (inj Some) in Hstep as <-. by apply stuck_set_pc.
    + apply (inj Some) in Hstep as <-. by apply stuck_end_of_body.
    + apply (inj Some) in Hstep as <-. by apply stuck_loop_head.
    + destruct (pc_of_Some st w) as (x & Hx & Hpc); [by rewrite E |].
      exfalso. apply (stuck_loop st Hst w x Hx). left. by rewrite Hpc.
  - unfold resolved in Hstep. destruct (pc_of st w) eqn:E; try done.
    destruct (tasks_of st w !! i) as [p|]; [| done].
    destruct (if b then task_settled st p else negb settled_at_call);
      [| done].
    assert (Hst1 : stuck (if b then set_concurrentTasks w
                                      (splice1 i (tasks_of st w)) st
                          else st)).
    { destruct b; [by apply stuck_set_concurrentTasks | done]. }
    destruct i as [|i']; apply (inj Some) in Hstep as <-.
    + by apply stuck_end_of_body.
    + by apply stuck_set_pc.
  - unfold settle in Hstep.
    destruct (tasks st !! tid) as [t|] eqn:Ht; [| done].
    pose proof (Forall_lookup_1 _ _ _ _ (stuck_tasks st Hst) Ht) as [Hpc _].
    by rewrite Hpc in Hstep.
  - unfold wake in Hstep.
    destruct (tasks st !! tid) as [t|] eqn:Ht; [| done].
    pose proof (Forall_lookup_1 _ _ _ _ (stuck_tasks st Hst) Ht) as [Hpc _].
    by rewrite Hpc in Hstep.
Qed.

Lemma stuck_exec (o : options) (tr : transport) (ls : list label) :
  maxRetries o = 0%nat →
  ∀ st st', stuck st → exec o tr ls st = Some st' → stuck st'.
Proof.
  intros Hmax. induction ls as [|l ls IH]; intros st st' Hst Hrun;
    cbn in Hrun.
  - by apply (inj Some) in Hrun as <-.
  - destruct (step o tr l st) as [st1|] eqn:Hstep; [| done].
    apply (IH st1); [| done]. by apply (stuck_step o tr l st).
Qed.

Lemma stuck_validateBatch (o : options) (now : Z) (ss : list session)
    (numbers : list item) :
  maxRetries o = 0%nat → Exists (λ x, truthy x = true) numbers →
  stuck (validateBatch o now ss numbers).
Proof.
  intros Hmax Hex. unfold validateBatch. cbv zeta.
  set (ws := (λ s, Worker s [] AtLoop) <$> seq 0 (length ss)).
  assert (Hws : ∀ w x, ws !! w = Some x → at_pc x = AtLoop).
  { intros w x Hx. subst ws. rewrite list_lookup_fmap in Hx.
    destruct (seq 0 (length ss) !! w); by simplify_eq/=. }
  generalize (seq 0 (length ss)). intros l.
  match goal with |- stuck (foldl _ ?s l) => assert (Hst : stuck s) end.
  { split; try done.
    - by left.
    - intros w x Hx [Hp|Hp]; cbn in Hx; apply Hws in Hx; congruence. }
  revert Hst. generalize (set_workers ws
    (set_workQueue numbers
       (set_stats (Statistics (length numbers) 0 0 0 (Some now) None)
          (initialized ss)))).
  induction l as [|w l IH]; intros st Hst; [done |].
  cbn [foldl]. apply IH. by apply stuck_loop_head.
Qed.
End OptimizedFacts.

Module OptimizedClaims.
Import Input Optimized OptimizedFacts.

(** C1, as the code has it.  When [validateBatch] reports completion
    over at least one session, with [maxRetries] at least one: nothing
    is left in the queue; [processNumber] was invoked exactly once for
    each truthy item of the input, in order, and never for a falsy one;
    [this.results] holds exactly the results these invocations returned,
    one for each, carrying the number of its item; an invocation made at
    most [maxRetries] transport calls, and its result has status error
    exactly when it caught [maxRetries] exceptions. *)
Theorem completed_run_one_result_per_truthy_item (o : options)
    (tr : transport) (now : Z) (ss : list session) (numbers : list item)
    (ls : list label) (st : state) :
  (1 ≤ maxRetries o)%nat → ss ≠ [] →
  exec o tr ls (validateBatch o now ss numbers) = Some st →
  completed st = true →
  workQueue st = [] ∧
  numberObj <$> tasks st = filter (λ x, truthy x = true) numbers ∧
  results st ≡ₚ omap result_of (tasks st) ∧
  number <$> results st
  ≡ₚ number_of <$> filter (λ x, truthy x = true) numbers ∧
  Forall (λ t, (issued t ≤ maxRetries o)%nat ∧
               ∃ r, pc t = Settled (Some r) ∧ r ∈ results st ∧
                    number r = number_of (numberObj t) ∧
                    (status r = Input.error ↔ caught t = maxRetries o))
    (tasks st).
Proof.
  intros Hmax Hss Hrun Hdone.
  pose proof (exec_inv o tr (length ss) numbers ls _ st
                (validateBatch_inv o now ss numbers) Hrun)
    as [Hw Ha Hr Hh Hf Hd Ht].
  pose proof (completed_Finished st Hdone) as Hfin.
  destruct (first_worker st) as [x0 Hx0].
  { rewrite Hw. by destruct ss. }
  assert (Hq : workQueue st = []).
  { destruct Hd as [Hd|Hd]; [done |]. exfalso. apply (Hd 0%nat x0 Hx0).
    right. exact (Hfin _ _ Hx0). }
  assert (Hall : Forall (λ t, (issued t ≤ maxRetries o)%nat ∧
                   ∃ r, pc t = Settled (Some r) ∧
                        number r = number_of (numberObj t) ∧
                        (status r = Input.error ↔ caught t = maxRetries o))
                   (tasks st)).
  { apply Forall_lookup. intros tid t Htid.
    pose proof (Forall_lookup_1 _ _ _ _ Ht Htid) as Hok.
    assert (Hset : is_settled t = true).
    { destruct (is_settled t) eqn:Hun; [done |].
      destruct (Hh tid t Htid Hun) as (w & x & Hx & Hin).
      pose proof (Hf w x Hx (Hfin w x Hx)) as Hclear.
      rewrite Forall_forall in Hclear. specialize (Hclear tid Hin).
      unfold task_settled in Hclear. rewrite Htid in Hclear. congruence. }
    unfold is_settled in Hset. unfold task_ok in Hok.
    destruct (pc t) as [| |[r|]]; try done; [| lia].
    destruct Hok as (Hnum & Hst). destruct (status r) eqn:Hstat.
    - destruct Hst as [Hc Hi]. split; [lia |]. exists r.
      split_and!; try done. rewrite Hstat. split; [done | intros ?; lia].
    - destruct Hst as (Hc & Hi & _). split; [lia |]. by exists r. }
  destruct Ha as (shifted & Hsh & Hobj).
  rewrite Hq, app_nil_r in Hsh. subst shifted. unfold recorded in Hr.
  split_and!; try done.
  - rewrite Hr, <- Hobj, numbers_of_results; [done |].
    eapply Forall_impl; [exact Hall |]. cbv beta.
    intros t (_ & r & Hpc & Hnum & _). by exists r.
  - apply Forall_lookup. intros tid t Htid.
    destruct (Forall_lookup_1 _ _ _ _ Hall Htid)
      as (Hi & r & Hpc & Hnum & Hst).
    split; [done |]. exists r. split_and!; try done.
    rewrite Hr. apply list_elem_of_omap. exists t.
    split; [by eapply list_elem_of_lookup_2 |].
    unfold result_of. by rewrite Hpc.
Qed.
(** A complete run over [three_items]: the empty string is skipped,
    the first number is retried once, both numbers get one result. *)
Lemma completed_run_one_result_per_truthy_item_witness :
  ∃ st,
    exec default_options flaky sample_schedule
      (validateBatch default_options 0 one_session three_items) = Some st ∧
    completed st = true ∧
    number <$> results st
    ≡ₚ number_of <$> filter (λ x, truthy x = true) three_items.
Proof.
  assert (Hrun : ∃ st,
            exec default_options flaky sample_schedule
              (validateBatch default_options 0 one_session three_items)
            = Some st ∧ completed st = true).
  { eexists. split; vm_compute; reflexivity. }
  destruct Hrun as (st & Hrun & Hdone). exists st.
  split; [exact Hrun |]. split; [exact Hdone |].
  assert (Hmax : (1 ≤ maxRetries default_options)%nat) by (vm_compute; lia).
  assert (Hss : one_session ≠ []) by discriminate.
  exact (proj1 (proj2 (proj2 (proj2
    (completed_run_one_result_per_truthy_item default_options flaky 0
       one_session three_items sample_schedule st Hmax Hss Hrun Hdone))))).
Defined.

(** C1 as stated fails: the empty string is taken off the queue and
    dropped, so the run over it completes without a result for it. *)
Lemma empty_string_gets_no_result :
  ¬ ∀ numbers ls st,
      exec default_options flaky ls
        (validateBatch default_options 0 one_session numbers) = Some st →
      completed st = true →
      length (results st) = length numbers.
Proof.
  intros H. specialize (H [Str ""] [] _ eq_refl eq_refl).
  vm_compute in H. discriminate.
Qed.

(** C10.  A validator constructed with [maxRetries: 0] has zero
    retries ([...options] overrides the default of two).  Its
    [processNumber] then returns at once, for any item: it creates a
    promise fulfilled with [undefined] and changes nothing else, neither
    calls, results, counters nor the [processing] set.  Over at least
    one session and an input with a truthy item, [validateBatch] never
    reports completion: whatever the schedule, something stays queued or
    in flight, no worker leaves its loop, every invocation has returned
    [undefined], and nothing is called, recorded or counted. *)
Theorem zero_retries_never_completes (c : constructor_options)
    (tr : transport) (now : Z) (ss : list session) (numbers : list item) :
  given_maxRetries c = Some 0%nat → ss ≠ [] →
  Exists (λ x, truthy x = true) numbers →
  maxRetries (constructor c) = 0%nat ∧
  (∀ t s x st,
     processNumber (constructor c) t s x st
     = (length (tasks st),
        set_tasks (tasks st ++ [Task s x (Settled None) 0 0]) st)) ∧
  ∀ ls st,
    exec (constructor c) tr ls (validateBatch (constructor c) now ss numbers)
    = Some st →
    completed st = false ∧ pending st ∧
    (∀ w x, workers st !! w = Some x → ¬ past_loop x) ∧
    Forall (λ t, pc t = Settled None ∧ issued t = 0%nat) (tasks st) ∧
    results st = [] ∧ calls st = 0%nat ∧ processed (stats st) = 0%nat.
Proof.
  intros Hgiven Hss Hex.
  assert (Hmax : maxRetries (constructor c) = 0%nat).
  { unfold constructor; cbn. by rewrite Hgiven. }
  split; [exact Hmax |]. split.
  { intros t s x st. by apply processNumber_zero. }
  intros ls st Hrun.
  pose proof (stuck_exec _ tr ls Hmax _ st
                (stuck_validateBatch _ now ss numbers Hmax Hex) Hrun)
    as [Hp Hl Ht Hr Hc (Hs & _)].
  pose proof (inv_workers _ _ _ _
                (exec_inv _ tr (length ss) numbers ls _ st
                   (validateBatch_inv _ now ss numbers) Hrun)) as Hw.
  split_and!; try done.
  destruct (first_worker st) as [x0 Hx0]; [rewrite Hw; by destruct ss |].
  destruct (completed st) eqn:Hdone; [| done].
  exfalso. apply (Hl 0%nat x0 Hx0). right.
  exact (completed_Finished st Hdone _ _ Hx0).
Qed.

Lemma zero_retries_never_completes_witness :
  completed (validateBatch zero_retries 0 one_session three_items) = false.
Proof.
  refine (proj1 (proj2 (proj2
    (zero_retries_never_completes
       (ConstructorOptions None None None None (Some 0%nat)) flaky 0
       one_session three_items eq_refl _ _)) [] _ eq_refl)).
  - discriminate.
  - apply Exists_cons_hd. reflexivity.
Defined.
End OptimizedClaims.

(** ** The normalization rule in the four validators *)
Module NormalizationClaims.
Import Eff Input Normalize NormalizeFacts.

(** C4.  The identifier the validators compute is the one of the rule:
    strip the non-digits; keep the digits when they start with 962,
    otherwise drop the first digit and prepend 962.  Each of the four
    validators hands the transport exactly this identifier followed by
    [@c.us], and records it as [whatsapp_id] when the transport
    answers. *)
Theorem every_variant_follows_normalization_rule :
  (∀ x, normalize x = normalize_spec x) ∧
  (∀ x, whatsappId x = normalize_spec x +:+ "@c.us") ∧
  (∀ o now t retries st s,
     (retries < Optimized.maxRetries o)%nat →
     number_of (Optimized.numberObj t) = Str s →
     Optimized.pc (Optimized.attempt o now t retries st).1
     = Optimized.Calling retries (Optimized.calls st)
         (normalize_spec s +:+ "@c.us")) ∧
  (∀ e x w,
     Safe.caught e (Str x) w = None →
     ∃ b r w',
       outcome (Safe.isRegisteredUser e (Safe.calls w)
                  (normalize_spec x +:+ "@c.us")) = Normal b ∧
       Safe.validateNumber e (Str x) w = (Normal r, w') ∧
       Safe.whatsapp_id r = normalize_spec x +:+ "@c.us" ∧
       Safe.is_registered r = b) ∧
  (∀ c x w,
     ∃ r w', Basic.validateNumber c (Str x) w = (Normal r, w') ∧
       match outcome (Basic.isRegisteredUser c (Basic.calls w)
                        (normalize_spec x +:+ "@c.us")) with
       | Normal b =>
           Basic.whatsapp_id r = normalize_spec x +:+ "@c.us" ∧
           Basic.is_registered r = b
       | Throw _ => Basic.whatsapp_id r = ""
       end) ∧
  (∀ c x w,
     ∃ r w', Multi.validateNumber c (Str x) w = (Normal r, w') ∧
       match outcome (Multi.isRegisteredUser c (Multi.calls w)
                        (normalize_spec x +:+ "@c.us")) with
       | Normal b =>
           Multi.whatsapp_id r = normalize_spec x +:+ "@c.us" ∧
           Multi.is_registered r = b
       | Throw _ => Multi.whatsapp_id r = ""
       end).
Proof.
  assert (Hid : ∀ x, whatsappId x = normalize_spec x +:+ "@c.us").
  { intros x. by rewrite whatsappId_normalize, normalize_is_spec. }
  split_and!.
  - exact normalize_is_spec.
  - exact Hid.
  - intros o now t retries st s Hlt Hs. unfold Optimized.attempt.
    apply Nat.ltb_lt in Hlt. rewrite Hlt, Hs. cbn [fst Optimized.pc].
    f_equal. rewrite <- Hid. symmetry. apply SafeFacts.whatsappId_inline.
  - intros e x w Hc.
    pose proof (SafeFacts.validateNumber_cases e (Str x) w) as H.
    rewrite Hc in H. destruct H as (x' & b & w' & Heq & Hout & Hrun & _).
    injection Heq as <-. rewrite Hid in Hout, Hrun.
    eexists b, _, w'. split; [exact Hout |]. split; [exact Hrun |].
    split; reflexivity.
  - intros c x w.
    destruct (BasicFacts.single_validateNumber_returns c (Str x) w)
      as (r & w' & Hrun & _ & _ & _ & _ & _ & _ & Hcase & _).
    exists r, w'. split; [exact Hrun |]. rewrite Hid in Hcase.
    destruct (outcome _); [| tauto]. destruct Hcase as (_ & ? & ?). by split.
  - intros c x w.
    destruct (MultiFacts.validateNumber_returns c (Str x) w)
      as (r & w' & Hrun & _ & _ & Hcase).
    exists r, w'. split; [exact Hrun |]. rewrite Hid in Hcase.
    destruct (outcome _); [| tauto].
    destruct Hcase as (_ & ? & ? & _). by split.
Qed.
End NormalizationClaims.

(** ** More on the two normalizations *)
Module NormalizeMore.
Import Normalize NormalizeFacts.

Lemma startsWith_all_digits_tail (s : string) :
  all_digits s → all_digits (Js.substring 1 s).
Proof. apply (substring_all_digits 1). Qed.

Lemma all_digits_962 (s : string) : all_digits s → all_digits ("962" +:+ s).
Proof.
  intros Hs. unfold all_digits, chars_of. simpl.
  by repeat (constructor; [done |]).
Qed.

Lemma startsWith_0_not_962 (s : string) :
  Js.startsWith "0" s = true → Js.startsWith "962" s = false.
Proof.
  destruct s as [|c s]; [done |]. simpl.
  destruct (decide ("0"%char = c)) as [<-|]; [| done]. by intros _.
Qed.

Lemma startsWith_962_not_0 (s : string) :
  Js.startsWith "962" s = true → Js.startsWith "0" s = false.
Proof.
  destruct (Js.startsWith "0" s) eqn:E; [| done].
  rewrite (startsWith_0_not_962 s E). done.
Qed.

Lemma string_length_substring_1 (s : string) :
  Js.substring 1 s = s → s = "".
Proof.
  intros H. apply (f_equal String.length) in H.
  destruct s as [|c s]; [done |]. simpl in H.
  destruct s; simpl in H; lia.
Qed.

Lemma xlsx_all_digits (x : string) : all_digits (xlsx_phoneNumber x).
Proof.
  unfold xlsx_phoneNumber. cbv zeta.
  pose proof (replace_non_digits_all_digits x) as Hd.
  destruct (Js.startsWith "0" _).
  - by apply all_digits_962, startsWith_all_digits_tail.
  - destruct (Js.startsWith "962" _); simpl; [done |].
    by apply all_digits_962.
Qed.

Lemma xlsx_starts_with_962 (x : string) :
  Js.startsWith "962" (xlsx_phoneNumber x) = true.
Proof.
  unfold xlsx_phoneNumber. cbv zeta.
  destruct (Js.startsWith "0" _); [done |].
  by destruct (Js.startsWith "962" (Js.replace_non_digits x)) eqn:E.
Qed.

(** X1.  Normalizing is idempotent, and a normalized number is sent to
    the transport under the identifier of the number it came from. *)
Theorem normalize_twice (x : string) :
  normalize (normalize x) = normalize x ∧
  whatsappId (normalize x) = whatsappId x.
Proof.
  assert (H : normalize (normalize x) = normalize x).
  { unfold normalize at 1. cbv zeta.
    rewrite (replace_non_digits_fixed _ (normalize_all_digits x)).
    by rewrite normalize_starts_with_962. }
  split; [exact H |]. by rewrite !whatsappId_normalize, H.
Qed.

(** X2.  The identifiers the validators compute are exactly the digit
    strings that start with 962: every normalized number is one, and
    every such string is left as it is. *)
Theorem normalize_fixed_points (x : string) :
  all_digits (normalize x) ∧ Js.startsWith "962" (normalize x) = true ∧
  (normalize x = x ↔ all_digits x ∧ Js.startsWith "962" x = true).
Proof.
  split; [apply normalize_all_digits |].
  split; [apply normalize_starts_with_962 |]. split.
  - intros <-. split; [apply normalize_all_digits |].
    apply normalize_starts_with_962.
  - intros [Hd H9]. unfold normalize. cbv zeta.
    by rewrite (replace_non_digits_fixed _ Hd), H9.
Qed.

(** X3.  The converter to XLSX also produces digit strings that start
    with 962, and the two normalizations leave each other's results
    alone: converting is idempotent, a converted number is a fixed point
    of the validators' rule and a normalized number one of the
    converter's. *)
Theorem xlsx_phoneNumber_canonical (x : string) :
  all_digits (xlsx_phoneNumber x) ∧
  Js.startsWith "962" (xlsx_phoneNumber x) = true ∧
  xlsx_phoneNumber (xlsx_phoneNumber x) = xlsx_phoneNumber x ∧
  normalize (xlsx_phoneNumber x) = xlsx_phoneNumber x ∧
  xlsx_phoneNumber (normalize x) = normalize x.
Proof.
  assert (Hfix : ∀ y, all_digits y → Js.startsWith "962" y = true →
                      xlsx_phoneNumber y = y ∧ normalize y = y).
  { intros y Hd H9. unfold xlsx_phoneNumber, normalize. cbv zeta.
    by rewrite (replace_non_digits_fixed _ Hd), H9,
      (startsWith_962_not_0 _ H9). }
  pose proof (xlsx_all_digits x) as Hd.
  pose proof (xlsx_starts_with_962 x) as H9.
  split_and!; try done.
  - by apply Hfix.
  - by apply Hfix.
  - apply Hfix; [apply normalize_all_digits | apply normalize_starts_with_962].
Qed.

(** X4.  The converter and the validators agree on a number exactly when
    its digits start with the trunk prefix 0 or with 962, or when it has
    no digit at all; on any other number the validators drop the first
    digit and the converter keeps it. *)
Theorem xlsx_agrees_with_normalize (x : string) :
  let d := Js.replace_non_digits x in
  (xlsx_phoneNumber x = normalize x ↔
   d = "" ∨ Js.startsWith "0" d = true ∨ Js.startsWith "962" d = true) ∧
  (d ≠ "" → Js.startsWith "0" d = false → Js.startsWith "962" d = false →
   xlsx_phoneNumber x = "962" +:+ d ∧
   normalize x = "962" +:+ Js.substring 1 d).
Proof.
  cbv zeta. unfold xlsx_phoneNumber, normalize. cbv zeta.
  set (d := Js.replace_non_digits x).
  destruct (Js.startsWith "0" d) eqn:E0.
  - rewrite (startsWith_0_not_962 d E0). split; [| done].
    split; [by intros _; right; left | done].
  - destruct (Js.startsWith "962" d) eqn:E9; simpl.
    + split; [| done]. split; [by intros _; right; right | done].
    + split; [| done]. split.
      * intros H. left. injection H as H.
        symmetry in H. by apply string_length_substring_1.
      * intros [->|[?|?]]; done.
Qed.
End NormalizeMore.

(** ** Chunks and batches of the chunked validator *)
Module MultiBatchFacts.
Import Eff Input Multi MultiBatch.

Lemma window_slice {A} (l : list A) (s cs : nat) :
  take ((s + cs) `min` length l - s) (drop s l) = take cs (drop s l).
Proof.
  destruct (decide (s + cs ≤ length l)%nat).
  - by rewrite Nat.min_l, Nat.add_comm, Nat.add_sub by lia.
  - rewrite Nat.min_r by lia.
    rewrite !take_ge; [done | |]; rewrite length_drop; lia.
Qed.

Lemma concat_windows {A} (l : list A) (cs k : nat) :
  concat ((λ i, take cs (drop (i * cs) l)) <$> seq 0 k) = take (k * cs) l.
Proof.
  induction k as [|k IH]; [done |].
  rewrite seq_S, fmap_app, concat_app, IH. cbn [fmap list_fmap concat].
  rewrite app_nil_r, Nat.add_0_l, take_take_drop. f_equal. lia.
Qed.

Lemma ceil_covers (n k : nat) :
  (0 < k → n ≤ k * ((n + k - 1) / k))%nat.
Proof.
  intros Hk. pose proof (Nat.div_mod_eq (n + k - 1) k) as Hdiv.
  pose proof (Nat.mod_upper_bound (n + k - 1) k ltac:(lia)) as Hmod. nia.
Qed.

Lemma distributeWork_windows {A} (array : list A) (chunks : nat) :
  distributeWork array chunks
  = (λ i, take ((length array + chunks - 1) / chunks)
            (drop (i * ((length array + chunks - 1) / chunks)) array))
    <$> seq 0 chunks.
Proof.
  unfold distributeWork, slice. cbv zeta.
  apply list_fmap_ext. intros ix i Hi. apply window_slice.
Qed.

Lemma distributeWork_length {A} (array : list A) (chunks : nat) :
  length (distributeWork array chunks) = chunks.
Proof. by rewrite distributeWork_windows, length_fmap, length_seq. Qed.

Lemma distributeWork_concat {A} (array : list A) (chunks : nat) :
  (0 < chunks)%nat → concat (distributeWork array chunks) = array.
Proof.
  intros Hk. rewrite distributeWork_windows, concat_windows.
  apply take_ge. by apply ceil_covers.
Qed.

Lemma distributeWork_same {A} (array : list A) (chunks : nat) :
  Safe.distributeWork array chunks = distributeWork array chunks.
Proof. reflexivity. Qed.

(** What a check leaves alone: the identity and the counters of the
    session other than [errors]; with replies that take no negative
    time the clock does not go back. *)
Lemma chunked_validateNumber_frame (c : client) (number : item) (w : world) :
  id (sess (validateNumber c number w).2) = id (sess w) ∧
  checked (sess (validateNumber c number w).2) = checked (sess w) ∧
  verified (sess (validateNumber c number w).2) = verified (sess w).
Proof.
  destruct number as [x|ref n].
  - unfold validateNumber, call_isRegisteredUser, call_getProfilePicUrl,
      await_call, count_error, Input.replace_non_digits.
    eff_unfold. simpl.
    destruct (outcome (isRegisteredUser c (calls w) _)) as [[|]|e]; simpl;
      [| done | done].
    by destruct (outcome (getProfilePicUrl c (S (calls w)) _)).
  - unfold validateNumber, count_error, Input.replace_non_digits.
    eff_unfold. by simpl.
Qed.

Lemma chunked_validateNumber_sound (c : client) (number : item) (w : world) :
  ∃ r w', validateNumber c number w = (Normal r, w') ∧
    Multi.number r = number ∧ session_id r = id (sess w) ∧ sound r ∧
    errors (sess w')
    = (errors (sess w) + if decide (status r = Input.error) then 1 else 0)%nat.
Proof.
  destruct number as [x|ref n].
  - unfold validateNumber, call_isRegisteredUser, call_getProfilePicUrl,
      await_call, count_error, Input.replace_non_digits.
    eff_unfold. simpl.
    destruct (outcome (isRegisteredUser c (calls w) _)) as [[|]|e]; simpl.
    + destruct (outcome (getProfilePicUrl c (S (calls w)) _)); simpl;
        eexists _, _; (split; [reflexivity |]); unfold sound; simpl;
        rewrite Nat.add_0_r; done.
    + eexists _, _; (split; [reflexivity |]); unfold sound; simpl.
      rewrite Nat.add_0_r. done.
    + eexists _, _; (split; [reflexivity |]); unfold sound; simpl.
      rewrite Nat.add_1_r. done.
  - unfold validateNumber, count_error, Input.replace_non_digits.
    eff_unfold. simpl. eexists _, _; (split; [reflexivity |]).
    unfold sound; simpl. rewrite Nat.add_1_r. done.
Qed.
Lemma chunk_after_result (o : options) (lag : nat → bool → Z) (total i : nat)
    (r : result) {A} (k : M A) (w : world) :
  ∃ t',
    (count_checked ;;
     when (is_registered r) count_verified ;;
     when (Z.of_nat i <? Z.of_nat total - 1)
       (delay (lag i false) (checkDelay o)) ;;
     when (Js.rem_is_zero (Z.of_nat i + 1) (batchSize o) &&
           (Z.of_nat i <? Z.of_nat total - 1))
       (delay (lag i true) 5000) ;;
     k)%eff w
    = k (World t' (calls w)
           (Session (id (sess w)) (ready (sess w)) (busy (sess w))
              (S (checked (sess w)))
              (if is_registered r then S (verified (sess w))
               else verified (sess w))
              (errors (sess w)))).
Proof.
  unfold count_checked, count_verified, delay. eff_unfold.
  destruct w as [t ca [i0 rd bs ch vf er]]. cbn.
  destruct (is_registered r), (Z.of_nat i <? Z.of_nat total - 1),
    (Js.rem_is_zero (Z.of_nat i + 1) (batchSize o)); cbn; by eexists.
Qed.

Lemma chunk_loop_results (o : options) (c : client) (lag : nat → bool → Z)
    (total : nat) (rest : list item) :
  ∀ i results w, ∃ new w',
    chunk_loop o c lag total i rest results w = (Normal (results ++ new), w') ∧
    number <$> new = number_of <$> rest ∧
    Forall (λ r, session_id r = id (sess w) ∧ sound r) new ∧
    id (sess w') = id (sess w) ∧
    checked (sess w') = (checked (sess w) + length rest)%nat ∧
    verified (sess w')
    = (verified (sess w)
       + length (filter (λ r, is_registered r = true) new))%nat ∧
    errors (sess w')
    = (errors (sess w)
       + length (filter (λ r, status r = Input.error) new))%nat.
Proof.
  induction rest as [|numberObj rest IH]; intros i results w.
  - exists [], w. cbn. rewrite app_nil_r, !Nat.add_0_r. by split_and!.
  - cbn [chunk_loop]. cbv zeta.
    destruct (chunked_validateNumber_sound c (number_of numberObj) w)
      as (r & w1 & Hv & Hnum & Hsid & Hsound & Herr).
    pose proof (chunked_validateNumber_frame c (number_of numberObj) w)
      as (Hid & Hch & Hvf).
    rewrite Hv in Hid, Hch, Hvf. cbn in Hid, Hch, Hvf.
    unfold Eff.bind at 1. rewrite Hv.
    destruct (chunk_after_result o lag total i r
                (chunk_loop o c lag total (S i) rest (results ++ [r])) w1)
      as [t' Hk].
    rewrite Hk. clear Hk.
    set (w2 := World t' _ _).
    destruct (IH (S i) (results ++ [r]) w2)
      as (new & w' & Hrun & Hnums & Hall & Hid' & Hch' & Hvf' & Her').
    exists (r :: new), w'. subst w2. cbn in Hall, Hid', Hch', Hvf', Her'.
    split_and!.
    + by rewrite Hrun, <- app_assoc.
    + cbn. by rewrite Hnum, Hnums.
    + constructor; [done |]. eapply Forall_impl; [exact Hall |].
      cbv beta. intros r' [? ?]. split; [congruence | done].
    + congruence.
    + rewrite Hch', Hch. cbn. lia.
    + rewrite Hvf', Hvf, filter_cons.
      destruct (is_registered r) eqn:Hreg.
      * rewrite decide_True by done. cbn. lia.
      * rewrite decide_False by congruence. lia.
    + rewrite Her', Herr, filter_cons.
      destruct (decide (status r = Input.error)); cbn; lia.
Qed.

Lemma promise_all_throws {A} (ps : list (completion A)) (e0 : Eff.error) :
  Forall (λ p, ∀ e, p = Throw e → e = e0) ps →
  Exists (λ p, p = Throw e0) ps →
  promise_all ps = Throw e0.
Proof.
  induction 1 as [|p ps Hp Hps IH]; intros Hex; [by apply Exists_nil in Hex |].
  cbn. destruct p as [x|e].
  - apply Exists_cons in Hex as [Hex|Hex]; [done |].
    by rewrite (IH Hex).
  - by rewrite (Hp e eq_refl).
Qed.

Lemma chunks_by_index {A} (chunks : list (list A)) :
  (λ i, default [] (chunks !! i)) <$> seq 0 (length chunks) = chunks.
Proof.
  apply list_eq. intros i. rewrite list_lookup_fmap.
  destruct (decide (i < length chunks)%nat) as [Hi|Hi].
  - rewrite lookup_seq_lt by done. cbn.
    destruct (lookup_lt_is_Some_2 chunks i Hi) as [x Hx]. by rewrite Hx.
  - rewrite lookup_seq_ge by lia. cbn. symmetry. apply lookup_ge_None. lia.
Qed.

(** The promises over any list of indices that have a session. *)
Lemma promises_resolve (o : options) (clients : nat → client)
    (lags : nat → nat → bool → Z) (t : Z) (ss : list session)
    (chunks : list (list item)) (idx : list nat) :
  (∀ i, i ∈ idx → (i < length ss)%nat) →
  ∃ rss,
    promise_all ((λ p, p.1) <$>
      omap (promise_of o clients lags t ss chunks) idx)
    = Normal rss ∧
    number <$> concat rss
    = number_of <$> concat ((λ i, default [] (chunks !! i)) <$> idx) ∧
    Forall sound (concat rss).
Proof.
  induction idx as [|i idx IH]; intros Hidx.
  - by exists [].
  - destruct IH as (rss & Hall & Hnum & Hsound);
      [intros; apply Hidx; set_solver |].
    cbn [omap list_omap fmap list_fmap concat]. unfold promise_of at 1.
    destruct (chunks !! i) as [chunk|] eqn:Hchunk; cbn [default];
      [| by exists rss].
    destruct (bool_decide (chunk = [])) eqn:Hnil.
    { apply bool_decide_eq_true in Hnil as ->. by exists rss. }
    destruct (lookup_lt_is_Some_2 ss i) as [s Hs]; [apply Hidx; set_solver |].
    rewrite Hs. cbv zeta.
    destruct (chunk_loop_results o (clients i) (lags i) (length chunk) chunk
                0%nat [] (World t 0 s))
      as (new & w' & Hrun & Hnums & Hres & _).
    unfold validateSessionChunk. rewrite Hrun. cbn [fst snd app].
    cbn [fmap list_fmap promise_all fst]. rewrite Hall.
    exists (new :: rss). split; [done |]. cbn [concat].
    rewrite !fmap_app, Hnum, Hnums. split; [done |].
    apply Forall_app. split; [| done].
    eapply Forall_impl; [exact Hres |]. by intros r [_ ?].
Qed.
End MultiBatchFacts.

Module MultiBatchProps.
Import Eff Input Multi MultiBatch MultiBatchFacts.

(** X5.  [distributeWork] cuts the array into [chunks] consecutive
    windows of [ceil(length / chunks)] items, the last ones shorter or
    empty: the [i]-th chunk is that window, and for a positive number of
    chunks the chunks joined in order give back the array, so that no
    item is lost, duplicated or moved.  The rate-limited validator uses
    the same function. *)
Theorem distributeWork_partition {A} (array : list A) (chunks : nat) :
  let chunkSize := ((length array + chunks - 1) / chunks)%nat in
  length (distributeWork array chunks) = chunks ∧
  (∀ i chunk,
     distributeWork array chunks !! i = Some chunk →
     chunk = take chunkSize (drop (i * chunkSize) array) ∧
     length chunk = (chunkSize `min` (length array - i * chunkSize))%nat) ∧
  ((0 < chunks)%nat → concat (distributeWork array chunks) = array) ∧
  Safe.distributeWork array chunks = distributeWork array chunks.
Proof.
  cbv zeta. split_and!.
  - apply distributeWork_length.
  - rewrite distributeWork_windows. intros i chunk Hi. rewrite list_lookup_fmap in Hi.
    destruct (seq 0 chunks !! i) as [j|] eqn:Hj; [| done].
    apply lookup_seq in Hj as [-> _]. cbn in Hi.
    apply (inj Some) in Hi as <-. split; [done |].
    by rewrite length_take, length_drop.
  - apply distributeWork_concat.
  - apply distributeWork_same.
Qed.


(** X6.  With at least one session and every session initialised, the
    chunked validator's [validateBatch] never rejects and returns
    exactly one result per input number, in the order of the input;
    a result reports a registration only with status success, and a
    profile picture only for a registered number. *)
Theorem validateBatch_one_result_each (o : options) (clients : nat → client)
    (lags : nat → nat → bool → Z) (t : Z) (ss : list session)
    (numbers : list item) :
  (0 < sessions o)%nat → (sessions o ≤ length ss)%nat →
  ∃ rs, validateBatch o clients lags t ss numbers = Normal rs ∧
        number <$> rs = number_of <$> numbers ∧
        Forall sound rs.
Proof.
  intros Hpos Hss. unfold validateBatch, promises.
  pose proof (distributeWork_length numbers (sessions o)) as Hlen.
  pose proof (distributeWork_concat numbers (sessions o)) as Hcat.
  destruct (promises_resolve o clients lags t ss
              (distributeWork numbers (sessions o)) (seq 0 (sessions o)))
    as (rss & Hall & Hnum & Hsound).
  { intros i Hi. apply elem_of_seq in Hi. lia. }
  rewrite Hall. exists (concat rss). split; [done |]. split; [| done].
  rewrite Hnum.
  replace (seq 0 (sessions o))
    with (seq 0 (length (distributeWork numbers (sessions o))))
    by (by rewrite Hlen).
  by rewrite chunks_by_index, Hcat.
Qed.

Lemma validateBatch_one_result_each_witness :
  ∃ rs, validateBatch (Options 2 1000 100) (λ _, all_registered)
          (λ _ _ _, 0) 0 two_sessions three_numbers = Normal rs ∧
        number <$> rs = number_of <$> three_numbers.
Proof.
  destruct (validateBatch_one_result_each (Options 2 1000 100)
              (λ _, all_registered) (λ _ _ _, 0) 0 two_sessions three_numbers)
    as (rs & Hrun & Hnum & _).
  - cbn. lia.
  - cbn. lia.
  - exists rs. split; [exact Hrun | exact Hnum].
Defined.

(** X7.  The edge cases of the chunked [validateBatch]: with
    [sessions: 0] it resolves at once with no result, whatever the
    input; and when a non-empty chunk falls to a session index that was
    never initialised, the batch rejects with the [TypeError] of reading
    [id] of [undefined]. *)
Theorem validateBatch_edge_cases (clients : nat → client)
    (lags : nat → nat → bool → Z) (t : Z) (ss : list session)
    (numbers : list item) :
  (∀ d b, validateBatch (Options 0 d b) clients lags t ss numbers = Normal []) ∧
  (∀ o i chunk,
     distributeWork numbers (sessions o) !! i = Some chunk → chunk ≠ [] →
     (length ss ≤ i)%nat →
     validateBatch o clients lags t ss numbers = Throw missing_session).
Proof.
  split; [done |].
  intros o i chunk Hi Hne Hmiss. unfold validateBatch.
  rewrite (promise_all_throws _ missing_session); [done | |].
  - apply Forall_fmap, Forall_forall. intros p Hp e He.
    unfold promises in Hp.
    apply list_elem_of_omap in Hp as (j & _ & Hp). unfold promise_of in Hp.
    destruct (distributeWork numbers (sessions o) !! j) as [cj|]; [| done].
    destruct (bool_decide (cj = [])); [done |].
    apply (inj Some) in Hp. subst p.
    destruct (ss !! j) as [s|]; cbn in He; [| congruence].
    destruct (chunk_loop_results o (clients j) (lags j) (length cj) cj
                0%nat [] (World t 0 s)) as (new & w' & Hrun & _).
    unfold validateSessionChunk in He. rewrite Hrun in He. done.
  - apply Exists_fmap, Exists_exists.
    exists (Throw missing_session, None). split; [| done].
    unfold promises. apply list_elem_of_omap. exists i. split.
    + apply elem_of_seq. apply lookup_lt_Some in Hi.
      pose proof (distributeWork_length numbers (sessions o)) as Hlen.
      lia.
    + unfold promise_of. rewrite Hi, bool_decide_eq_false_2 by done.
      by rewrite (lookup_ge_None_2 ss i).
Qed.

(** X20.  One driver of the chunked validator never throws and keeps
    the counters of its session in step with the results it returns: one
    result per number of the chunk, each carrying the id of the session;
    [checked] grows by the number of results, [verified] by the number
    of results that report a registration, [errors] by the number of
    results with status error. *)
Theorem validateSessionChunk_counters (o : options) (c : client)
    (lag : nat → bool → Z) (numbers : list item) (w : world) :
  ∃ rs w',
    validateSessionChunk o c lag numbers w = (Normal rs, w') ∧
    length rs = length numbers ∧
    Forall (λ r, session_id r = id (sess w)) rs ∧
    checked (sess w') = (checked (sess w) + length rs)%nat ∧
    verified (sess w')
    = (verified (sess w)
       + length (filter (λ r, is_registered r = true) rs))%nat ∧
    errors (sess w')
    = (errors (sess w)
       + length (filter (λ r, status r = Input.error) rs))%nat.
Proof.
  destruct (chunk_loop_results o c lag (length numbers) numbers 0%nat [] w)
    as (rs & w' & Hrun & Hnums & Hall & _ & Hch & Hvf & Her).
  exists rs, w'. unfold validateSessionChunk.
  apply (f_equal length) in Hnums. rewrite !length_fmap in Hnums.
  split_and!; try done.
  - eapply Forall_impl; [exact Hall |]. by intros r [? _].
  - by rewrite Hnums.
Qed.

(** X8.  The configuration [main] derives from the operator's answers:
    whatever [parseInt] returns, the number of sessions lies between 1
    and 10 and the delay between checks is at least 100 ms; an answer
    that does not parse, or parses to 0, gives one session and a delay
    of 1000 ms. *)
Theorem chosen_configuration_bounds (parsed : option Z) :
  1 ≤ chosen_sessions parsed ≤ 10 ∧ 100 ≤ chosen_checkDelay parsed ∧
  chosen_sessions None = 1 ∧ chosen_sessions (Some 0) = 1 ∧
  chosen_checkDelay None = 1000 ∧ chosen_checkDelay (Some 0) = 1000 ∧
  (∀ v, 1 ≤ v ≤ 10 → chosen_sessions (Some v) = v) ∧
  (∀ v, 100 ≤ v → chosen_checkDelay (Some v) = v).
Proof.
  unfold chosen_sessions, chosen_checkDelay, parsed_or.
  split_and!; try done; try lia.
  - intros v Hv. destruct (v =? 0) eqn:E; lia.
  - intros v Hv. destruct (v =? 0) eqn:E; lia.
Qed.
End MultiBatchProps.

(** ** Batches and the master file of the rate-limited validator *)
Module SafeBatchFacts.
Import Eff Input Safe SafeFacts.

Local Arguments Qfloor : simpl never.
Local Arguments Qmult : simpl never.
Local Arguments Qplus : simpl never.
Local Arguments inject_Z : simpl never.

(** *** The master file *)

Lemma master_extends_refl (w : world) : master_extends w w.
Proof.
  exists []. rewrite app_nil_r. split_and!; [done | constructor | | ].
  - intros n Hn. by apply elem_of_nil in Hn.
  - cbn. by rewrite (left_id_L ∅ (∪)).
Qed.

Lemma master_extends_trans (w1 w2 w3 : world) :
  master_extends w1 w2 → master_extends w2 w3 → master_extends w1 w3.
Proof.
  intros (a1 & Hm1 & Hnd1 & Hnew1 & Hv1) (a2 & Hm2 & Hnd2 & Hnew2 & Hv2).
  exists (a1 ++ a2). split_and!.
  - by rewrite Hm2, Hm1, app_assoc.
  - rewrite fmap_app. apply NoDup_app. split_and!; [done | | done].
    intros n Hn1 Hn2. apply (Hnew2 n Hn2). rewrite Hv1.
    apply elem_of_union_l. by apply elem_of_list_to_set.
  - intros n Hn. rewrite fmap_app in Hn.
    apply elem_of_app in Hn as [Hn|Hn]; [by apply Hnew1 |].
    intros Hin. apply (Hnew2 n Hn). rewrite Hv1. by apply elem_of_union_r.
  - rewrite Hv2, Hv1, fmap_app, list_to_set_app_L, !(assoc_L (∪)).
    f_equal. apply (comm_L (∪)).
Qed.

Lemma master_same (w w' : world) :
  masterFile w' = masterFile w → verifiedNumbers w' = verifiedNumbers w →
  master_extends w w'.
Proof.
  intros Hm Hv. exists []. rewrite app_nil_r.
  split_and!; [done | constructor | | ].
  - intros n Hn. by apply elem_of_nil in Hn.
  - cbn. by rewrite (left_id_L ∅ (∪)).
Qed.

Section keeps.
Context {A B : Type}.

Lemma keeps_ret (x : A) : keeps master_extends (ret x : M A).
Proof. intros w. apply master_extends_refl. Qed.

Lemma keeps_throw (err : Eff.error) : keeps master_extends (throw err : M A).
Proof. intros w. apply master_extends_refl. Qed.

Lemma keeps_bind (m : M A) (k : A → M B) :
  keeps master_extends m → (∀ x, keeps master_extends (k x)) →
  keeps master_extends (bind m k).
Proof.
  intros Hm Hk w. unfold bind. specialize (Hm w).
  destruct (m w) as [[x|err] w1]; [| done].
  eapply master_extends_trans; [exact Hm | apply Hk].
Qed.

Lemma keeps_try_catch (m : M A) (h : Eff.error → M A) :
  keeps master_extends m → (∀ err, keeps master_extends (h err)) →
  keeps master_extends (try_catch m h).
Proof.
  intros Hm Hh w. unfold try_catch. specialize (Hm w).
  destruct (m w) as [[x|err] w1]; [done |].
  eapply master_extends_trans; [exact Hm | apply Hh].
Qed.

Lemma keeps_gets (f : world → A) : keeps master_extends (gets f).
Proof. intros w. apply master_extends_refl. Qed.
End keeps.

Lemma keeps_get : keeps master_extends (get : M world).
Proof. intros w. apply master_extends_refl. Qed.

Lemma keeps_when (b : bool) (m : M unit) :
  keeps master_extends m → keeps master_extends (when b m).
Proof. intros Hm. unfold when. destruct b; [done | apply keeps_ret]. Qed.

Lemma keeps_emit (ev : event) : keeps master_extends (emit ev).
Proof. intros w. by apply master_same. Qed.

Lemma keeps_update_session (f : session → session) :
  keeps master_extends (update_session f).
Proof. intros w. by apply master_same. Qed.

Lemma keeps_date_now : keeps master_extends date_now.
Proof. apply keeps_gets. Qed.

Lemma keeps_math_random (e : env) : keeps master_extends (math_random e).
Proof. intros w. by apply master_same. Qed.

Lemma keeps_push_result (r : result) : keeps master_extends (push_result r).
Proof. intros w. by apply master_same. Qed.

Lemma keeps_delay (e : env) (p : pause) (ms : Q) :
  keeps master_extends (delay e p ms).
Proof.
  unfold delay. apply keeps_bind; [apply keeps_emit |].
  intros _ w. by apply master_same.
Qed.

Lemma keeps_call (e : env) (whatsappId : string) :
  keeps master_extends (call_isRegisteredUser e whatsappId).
Proof.
  unfold call_isRegisteredUser. apply keeps_bind; [apply keeps_date_now |].
  intros t. apply keeps_bind; [apply keeps_emit |].
  intros _ w. by apply master_same.
Qed.

Lemma keeps_reset_window (t : Z) : keeps master_extends (reset_window t).
Proof.
  unfold reset_window.
  apply keeps_bind; [apply keeps_update_session | intros _; apply keeps_emit].
Qed.

(** The append is the one place where the master file grows: by one
    entry, for a number that was not remembered, which is remembered
    from then on. *)
Lemma keeps_append (e : env) (r : result) :
  keeps master_extends (appendVerifiedNumberImmediately e r).
Proof.
  intros w. unfold appendVerifiedNumberImmediately, gets, bind, when.
  destruct (is_registered r); cbn [andb];
    [| apply master_extends_refl].
  destruct (bool_decide (number r ∈ shared_verified e w)) eqn:Hknown;
    cbn [negb]; [apply master_extends_refl |].
  apply bool_decide_eq_false in Hknown.
  unfold shared_verified in Hknown.
  apply not_elem_of_union in Hknown as [Hknown _].
  unfold carrier_prefix_of.
  destruct (number r) as [s|ref n] eqn:Hnum;
    [| apply master_extends_refl].
  unfold ret, append_to_master, remember_verified, modify.
  destruct (outcome (writeRecords e (writes w))) as [[]|err] eqn:Hout;
    cbn; rewrite ?Hout.
  - eexists [_]. cbn. split_and!; [done | | |].
    + apply NoDup_singleton.
    + intros n Hn. apply list_elem_of_singleton in Hn. by subst n.
    + by rewrite (right_id_L ∅ (∪)).
  - by apply master_same.
Qed.

Lemma keeps_validateNumber (e : env) (number : item) :
  keeps master_extends (validateNumber e number).
Proof.
  unfold validateNumber. apply keeps_try_catch.
  - apply keeps_bind.
    { destruct number; [apply keeps_ret | apply keeps_throw]. }
    intros formattedNumber. apply keeps_bind; [apply keeps_call |].
    intros isRegistered. apply keeps_bind; [apply keeps_date_now |].
    intros t. apply keeps_bind; [apply keeps_update_session |].
    intros _. apply keeps_bind; [apply keeps_get |].
    intros w. apply keeps_bind; [| intros _; apply keeps_ret].
    apply keeps_when, keeps_append.
  - intros err. apply keeps_bind; [apply keeps_update_session |].
    intros _. destruct (ban_signature err).
    + apply keeps_bind; [| intros _; apply keeps_throw].
      apply keeps_bind; [apply keeps_get | intros w; apply keeps_emit].
    + apply keeps_bind; [apply keeps_get | intros w; apply keeps_ret].
Qed.

Lemma keeps_checkRateLimit (o : options) (e : env) :
  keeps master_extends (checkRateLimit o e).
Proof.
  unfold checkRateLimit. apply keeps_bind; [apply keeps_date_now |].
  intros now. apply keeps_bind; [apply keeps_gets |].
  intros s. apply keeps_bind; [apply keeps_when, keeps_reset_window |].
  intros _. apply keeps_bind; [apply keeps_gets |].
  intros s'. apply keeps_bind; [| intros _; apply keeps_update_session].
  apply keeps_when. apply keeps_bind; [apply keeps_delay |].
  intros _. apply keeps_bind; [apply keeps_date_now |].
  intros t. apply keeps_reset_window.
Qed.

Lemma keeps_iteration (o : options) (e : env) (total i processed : nat)
    (numberObj : item) :
  keeps master_extends (iteration o e total i processed numberObj).
Proof.
  unfold iteration. apply keeps_bind; [apply keeps_checkRateLimit |].
  intros _. apply keeps_bind; [apply keeps_math_random |].
  intros r. apply keeps_bind; [apply keeps_validateNumber |].
  intros result. apply keeps_bind; [apply keeps_push_result |].
  intros _. apply keeps_bind; [apply keeps_update_session |].
  intros _. apply keeps_bind; [apply keeps_when, keeps_update_session |].
  intros _. apply keeps_bind; [apply keeps_when, keeps_delay |].
  intros _. apply keeps_bind.
  - apply keeps_when. apply keeps_bind; [apply keeps_math_random |].
    intros r'. apply keeps_delay.
  - intros _. apply keeps_when, keeps_delay.
Qed.

Lemma keeps_chunk_loop (o : options) (e : env) (total : nat)
    (numbers : list item) :
  ∀ i processed, keeps master_extends (chunk_loop o e total i processed numbers).
Proof.
  induction numbers as [|numberObj rest IH]; intros i processed.
  - apply keeps_ret.
  - cbn [chunk_loop]. apply keeps_bind; [apply keeps_iteration |].
    intros _. apply IH.
Qed.
(** *** The results of a driver and of a batch *)

Lemma iteration_pushes (o : options) (e : env) (total i processed : nat)
    (numberObj : item) (w w' : world) :
  iteration o e total i processed numberObj w = (Normal tt, w') →
  ∃ r, results w' = results w ++ [r] ∧ number r = number_of numberObj.
Proof.
  intros Hit.
  destruct (iteration_run o e total i processed numberObj w)
    as (w1 & c2 & w2 & Hrl & Hv & Hcase).
  destruct (checkRateLimit_spec o e w)
    as (w1' & Hrl' & _ & _ & _ & Hres1 & _).
  rewrite Hrl in Hrl'. injection Hrl' as <-.
  destruct (validateNumber_frame _ _ _ _ _ Hv) as (_ & _ & Hres2 & _).
  cbn in Hres2.
  destruct c2 as [r|err]; [| by rewrite Hit in Hcase].
  destruct Hcase as (w'' & Hit' & Hres' & _).
  rewrite Hit in Hit'. injection Hit' as <-.
  exists r. split; [by rewrite Hres', Hres2, Hres1 |].
  pose proof (validateNumber_cases e (number_of numberObj)
                (math_random e w1).2) as Hc.
  destruct (caught e (number_of numberObj) (math_random e w1).2) as [err|].
  - destruct (ban_signature err).
    + destruct Hc as (w3 & Hrun & _). rewrite Hv in Hrun. done.
    + destruct Hc as (w3 & r3 & Hrun & -> & _). rewrite Hv in Hrun.
      by injection Hrun as -> _.
  - destruct Hc as (x & b & w3 & _ & _ & Hrun & _). rewrite Hv in Hrun.
    by injection Hrun as -> _.
Qed.

Lemma chunk_loop_pushes (o : options) (e : env) (total : nat)
    (numbers : list item) :
  ∀ i processed w w',
    chunk_loop o e total i processed numbers w = (Normal tt, w') →
    ∃ new, results w' = results w ++ new ∧
           number <$> new = number_of <$> numbers.
Proof.
  induction numbers as [|numberObj rest IH]; intros i processed w w' Hrun.
  - cbn in Hrun. unfold Eff.ret in Hrun. injection Hrun as <-.
    exists []. by rewrite app_nil_r.
  - cbn [chunk_loop] in Hrun. unfold Eff.bind in Hrun.
    destruct (iteration o e total i processed numberObj w)
      as [[[]|err] w1] eqn:Hit; [| done].
    destruct (iteration_pushes _ _ _ _ _ _ _ _ Hit) as (r & Hres1 & Hnum).
    destruct (IH _ _ _ _ Hrun) as (new & Hres & Hnums).
    exists (r :: new). split.
    + by rewrite Hres, Hres1, <- app_assoc.
    + cbn. by rewrite Hnum, Hnums.
Qed.

Lemma concat_all_nil {A} (ls : list (list A)) :
  Forall (λ l, l = []) ls → concat ls = [].
Proof. induction 1 as [|l ls -> _ IH]; [done | exact IH]. Qed.

Lemma concat_take_head {A} (ls : list (list A)) (i : nat) (x : A)
    (l : list A) :
  ls !! i = Some (x :: l) → concat ls ≡ₚ x :: concat (<[i := l]> ls).
Proof.
  revert i. induction ls as [|l0 ls IH]; intros [|i] Hi; try done.
  - cbn in Hi. apply (inj Some) in Hi as ->. done.
  - cbn in Hi. cbn. rewrite (IH i Hi). symmetry. apply Permutation_middle.
Qed.

Lemma interleaving_perm {A} (ls : list (list A)) (out : list A) :
  interleaving ls out → out ≡ₚ concat ls.
Proof.
  induction 1 as [ls Hall|ls i x l out Hi _ IH].
  - by rewrite concat_all_nil.
  - by rewrite (concat_take_head ls i x l Hi), IH.
Qed.

Lemma interleaving_cons_nil {A} (ls : list (list A)) (out : list A) :
  interleaving ls out → interleaving ([] :: ls) out.
Proof.
  induction 1 as [ls Hall|ls i x l out Hi _ IH].
  - apply interleaving_done. by constructor.
  - by apply (interleaving_next _ (S i) x l).
Qed.

Lemma interleaving_concat {A} (ls : list (list A)) :
  interleaving ls (concat ls).
Proof.
  induction ls as [|l ls IH]; [by apply interleaving_done |].
  induction l as [|x l IHl]; [by apply interleaving_cons_nil |].
  by apply (interleaving_next _ 0%nat x l).
Qed.

(** The drivers over any list of indices that have a session. *)
Lemma drivers_numbers (o : options) (envs : nat → env) (t : Z)
    (known : gset item) (ss : list session) (chunks : list (list item))
    (idx : list nat) :
  (∀ i, i ∈ idx → (i < length ss)%nat) →
  let ds := omap (driver o envs t known ss chunks) idx in
  Forall (λ d, d.1 = Normal tt) ds →
  number <$> concat (pushed <$> ds)
  = number_of <$> concat ((λ i, default [] (chunks !! i)) <$> idx).
Proof.
  cbv zeta. induction idx as [|i idx IH]; intros Hidx Hall; [done |].
  assert (Hrest : ∀ j, j ∈ idx → (j < length ss)%nat)
    by (intros; apply Hidx; set_solver).
  cbn [omap list_omap fmap list_fmap concat] in *.
  destruct (lookup_lt_is_Some_2 ss i) as [s Hs]; [apply Hidx; set_solver |].
  unfold driver at 1. unfold driver at 1 in Hall. rewrite Hs in *.
  destruct (chunks !! i) as [chunk|] eqn:Hchunk; cbn [default];
    [| by apply IH].
  destruct (bool_decide (chunk = [])) eqn:Hnil.
  { apply bool_decide_eq_true in Hnil as ->. by apply IH. }
  apply Forall_cons in Hall as [Hd Hall].
  destruct (validateSessionChunk o (envs i) chunk (start_world t known s))
    as [c w'] eqn:Hrun.
  cbn in Hd. subst c. unfold validateSessionChunk in Hrun.
  destruct (chunk_loop_pushes _ _ _ _ _ _ _ _ Hrun) as (new & Hres & Hnums).
  cbn [fmap list_fmap concat snd]. unfold pushed at 1. cbn [snd].
  cbn in Hres. rewrite !fmap_app, Hres, Hnums. f_equal.
  by apply IH.
Qed.

End SafeBatchFacts.

Module SafeBatchProps.
Import Eff Input Safe SafeFacts SafeBatchFacts.

(** X9.  With at least one session and every session initialised, the
    rate-limited [validateBatch] ends in one of two ways: it rejects
    with an error that carries a ban signature, or it resolves; and
    whenever it resolves, [this.results] holds exactly one result per
    input number (in the order the drivers pushed them). *)
Theorem resolved_batch_one_result_each (o : options) (envs : nat → env)
    (t : Z) (known : gset item) (ss : list session) (numbers : list item) :
  (0 < sessions o)%nat → (sessions o ≤ length ss)%nat →
  (∀ rs, validateBatch o envs t known ss numbers (Resolved rs) →
         number <$> rs ≡ₚ number_of <$> numbers) ∧
  ((∃ rs, validateBatch o envs t known ss numbers (Resolved rs)) ∨
   (∃ err, validateBatch o envs t known ss numbers (Rejected err) ∧
           ban_signature err = true)).
Proof.
  intros Hpos Hss. split.
  - intros rs [Hall Hint]. rewrite (interleaving_perm _ _ Hint).
    unfold drivers in *.
    rewrite (drivers_numbers o envs t known ss
               (distributeWork numbers (sessions o)) (seq 0 (sessions o)));
      [| intros i Hi; apply elem_of_seq in Hi; lia | exact Hall].
    pose proof (MultiBatchFacts.distributeWork_length numbers (sessions o))
      as Hlen.
    pose proof (MultiBatchFacts.distributeWork_concat numbers (sessions o))
      as Hcat.
    rewrite MultiBatchFacts.distributeWork_same.
    replace (seq 0 (sessions o))
      with (seq 0 (length (MultiBatch.distributeWork numbers (sessions o))))
      by (by rewrite Hlen).
    by rewrite MultiBatchFacts.chunks_by_index, Hcat.
  - destruct (first_thrower (drivers o envs t known ss numbers))
      as [Hall|(i0 & d0 & err0 & Hi0 & Hd0 & Hmin)].
    + left. eexists. split; [exact Hall | apply interleaving_concat].
    + right. exists err0. split; [by exists i0, d0 |].
      destruct (drivers_throw _ _ _ _ _ _ _ _ _ Hi0 Hd0) as [Hb|[_ Hlt]];
        [done | lia].
Qed.

Lemma resolved_batch_one_result_each_witness :
  (∃ rs, validateBatch (main_options 2) quiet_envs 0 ∅ ban_sessions
           ban_numbers (Resolved rs)) ∨
  (∃ err, validateBatch (main_options 2) quiet_envs 0 ∅ ban_sessions
            ban_numbers (Rejected err) ∧ ban_signature err = true).
Proof.
  refine (proj2 (resolved_batch_one_result_each (main_options 2) quiet_envs
                   0 ∅ ban_sessions ban_numbers _ _)); cbn; lia.
Defined.

(** X10.  The master file as one driver extends it, whatever the
    transport and the file writer answer, whatever the drivers of the
    other sessions add to the shared set in the meantime, and however
    the driver ends: the entries it appends are for pairwise different
    numbers, none of which was in [this.verifiedNumbers] when the
    drivers started; and [this.verifiedNumbers], as the driver finds it
    at its end, holds the numbers it started with, those this driver
    appended and those the other drivers have added.  In a batch whose
    drivers see of each other only what they did, every number that a
    driver finds in [this.verifiedNumbers] at its end was there at the
    start or has an entry that some driver appended to the master
    file. *)
Theorem driver_appends_each_number_once (o : options) (e : env)
    (numbers : list item) (t : Z) (known : gset item) (s : session) :
  let w' := (validateSessionChunk o e numbers (start_world t known s)).2 in
  NoDup (entry_number <$> masterFile w') ∧
  (∀ n, n ∈ entry_number <$> masterFile w' → n ∉ known) ∧
  shared_verified e w'
  = list_to_set (entry_number <$> masterFile w') ∪ known
    ∪ others e (calls w') ∧
  ∀ envs ss batch i c w x,
    coherent o envs t known ss batch →
    driver o envs t known ss (distributeWork batch (sessions o)) i
    = Some (c, Some w) →
    x ∈ shared_verified (envs i) w →
    x ∈ known ∨
    ∃ j c' v,
      driver o envs t known ss (distributeWork batch (sessions o)) j
      = Some (c', Some v) ∧
      x ∈ entry_number <$> masterFile v.
Proof.
  cbv zeta.
  destruct (keeps_chunk_loop o e (length numbers) numbers 0 0
              (start_world t known s)) as (added & Hm & Hnd & Hnew & Hv).
  unfold validateSessionChunk, shared_verified. cbn in Hm. rewrite Hm, Hv.
  split_and!; try done.
  intros envs ss batch i c w x Hco Hd Hx.
  apply elem_of_union in Hx as [Hx|Hx].
  - unfold driver in Hd.
    destruct (distributeWork batch (sessions o) !! i) as [chunk|] eqn:Hc;
      [| done].
    destruct (bool_decide (chunk = [])) eqn:Hnil; [done |].
    destruct (ss !! i) as [s'|] eqn:Hs; [| done].
    pose proof Hd as Hd'. injection Hd' as _ <-.
    destruct (keeps_chunk_loop o (envs i) (length chunk) chunk 0 0
                (start_world t known s'))
      as (added' & Hm' & _ & _ & Hv').
    unfold validateSessionChunk in Hx. rewrite Hv' in Hx.
    apply elem_of_union in Hx as [Hx|Hx]; [| by left].
    right.
    exists i, c,
      (validateSessionChunk o (envs i) chunk (start_world t known s')).2.
    split.
    + unfold driver. rewrite Hc, Hnil, Hs. exact Hd.
    + unfold validateSessionChunk. rewrite Hm'. cbn.
      by apply elem_of_list_to_set in Hx.
  - destruct (Hco i _ x Hx) as (j & c' & v & _ & Hj & Hin).
    right. by exists j, c', v.
Qed.
End SafeBatchProps.

(** ** The books of the concurrent scheduler *)
Module OptimizedBooks.
Import Input Optimized OptimizedFacts.

Lemma sum_list_insert (l : list nat) (i x y : nat) :
  l !! i = Some x → (sum_list (<[i:=y]> l) + x = sum_list l + y)%nat.
Proof.
  revert i. induction l as [|a l IH]; intros [|i] Hi; try done.
  - cbn in Hi. apply (inj Some) in Hi as ->. simpl. lia.
  - cbn in Hi. simpl. specialize (IH i Hi). lia.
Qed.

Lemma counted_push (st : state) (r : result) (s : statistics) :
  counted st →
  processed s = S (processed (stats st)) →
  total_verified s
  = (total_verified (stats st) + if is_registered r then 1 else 0)%nat →
  total_errors s
  = (total_errors (stats st)
     + if decide (status r = Input.error) then 1 else 0)%nat →
  processed s = length (results st ++ [r]) ∧
  total_verified s
  = length (filter (λ r, is_registered r = true) (results st ++ [r])) ∧
  total_errors s
  = length (filter (λ r, status r = Input.error) (results st ++ [r])).
Proof.
  intros (Hp & Hv & He) Hp' Hv' He'.
  rewrite !filter_app, !length_app, !filter_cons, !filter_nil.
  rewrite Hp', Hv', He', Hp, Hv, He. split_and!.
  - cbn. lia.
  - destruct (is_registered r); [rewrite decide_True by done |
      rewrite decide_False by done]; cbn; lia.
  - destruct (decide (status r = Input.error)); cbn; lia.
Qed.

Lemma books_on_success (now : Z) (t : task) (wid : string) (b : bool)
    (st : state) :
  books t st (on_success now t wid b st).
Proof.
  split; [| unfold on_success; by destruct b].
  intros Hc. unfold on_success.
  destruct b; cbn; apply counted_push; cbn; done || lia.
Qed.

Lemma books_on_error (o : options) (now : Z) (t : task) (retries : nat)
    (err : Eff.error) (st : state) :
  books t st (on_error o now t retries err st).
Proof.
  split; [| unfold on_error; by destruct (maxRetries o <=? S retries)%nat].
  intros Hc. unfold on_error.
  destruct (maxRetries o <=? S retries)%nat; cbn; [| done].
  apply counted_push; cbn; try done; try lia.
  rewrite decide_True by done. lia.
Qed.

Lemma books_attempt (o : options) (now : Z) (t : task) (retries : nat)
    (st : state) :
  books t st (attempt o now t retries st).
Proof.
  unfold attempt. destruct (retries <? maxRetries o)%nat; [| done].
  destruct (number_of (numberObj t)); [| apply books_on_error].
  split; [done |]. cbn. lia.
Qed.

Lemma tally_put_task (o : options) (tid : nat) (t : task) (st : state)
    (ts : task * state) :
  tally o st → tasks st !! tid = Some t →
  advances o t st ts → books t st ts → tally o (put_task tid ts).
Proof.
  intros [Hc Hb Hk] Htid (_ & Htasks & Hworkers & _) [Hbc Hbk]. split.
  - by apply Hbc.
  - intros w x Hx. cbn in Hx. rewrite Hworkers in Hx. by apply (Hb w x).
  - unfold calls_counted in *. cbn. rewrite Htasks, list_fmap_insert.
    pose proof (sum_list_insert (issued <$> tasks st) tid (issued t)
                  (issued ts.1)) as Hsum.
    rewrite list_lookup_fmap, Htid in Hsum. specialize (Hsum eq_refl). lia.
Qed.

Lemma tally_set_pc (o : options) (w : nat) (p : worker_pc) (st : state) :
  tally o st → tally o (set_pc w p st).
Proof.
  intros [Hc Hb Hk]. split; [done | | done].
  intros w' x Hx. unfold set_pc in Hx; cbn in Hx.
  destruct (decide (w = w')) as [<-|Hne].
  - rewrite list_lookup_alter_eq in Hx.
    destruct (workers st !! w) as [x0|] eqn:Hx0; [| done].
    cbn in Hx. apply (inj Some) in Hx. subst x. exact (Hb w x0 Hx0).
  - rewrite list_lookup_alter_ne in Hx by done. exact (Hb w' x Hx).
Qed.

Lemma tally_set_concurrentTasks (o : options) (w : nat) (l : list nat)
    (st : state) :
  tally o st → (length l ≤ concurrentPerSession o)%nat →
  tally o (set_concurrentTasks w l st).
Proof.
  intros [Hc Hb Hk] Hl. split; [done | | done].
  intros w' x Hx. unfold set_concurrentTasks in Hx; cbn in Hx.
  destruct (decide (w = w')) as [<-|Hne].
  - rewrite list_lookup_alter_eq in Hx.
    destruct (workers st !! w) as [x0|] eqn:Hx0; [| done].
    cbn in Hx. apply (inj Some) in Hx. by subst x.
  - rewrite list_lookup_alter_ne in Hx by done. exact (Hb w' x Hx).
Qed.

Lemma tasks_of_bounded (o : options) (w : nat) (st : state) :
  tally o st → (length (tasks_of st w) ≤ concurrentPerSession o)%nat.
Proof.
  intros [_ Hb _]. unfold tasks_of.
  destruct (workers st !! w) as [x|] eqn:Hx; [exact (Hb w x Hx) | cbn; lia].
Qed.

Lemma tally_fill (o : options) (now : Z) (w : nat) (queue : list item) :
  ∀ st, tally o st → tally o (fill o now w queue st).
Proof.
  induction queue as [|x rest IH]; intros st Hst; [done |].
  cbn [fill].
  destruct (length (tasks_of st w) <? concurrentPerSession o)%nat eqn:Hlt;
    [| done].
  apply Nat.ltb_lt in Hlt.
  destruct (truthy x);
    [| apply IH; destruct Hst as [Hc Hb Hk]; by split].
  unfold processNumber.
  set (st2 := set_processing _ (set_workQueue rest st)).
  pose proof (attempt_advances o now (Task (session_of st2 w) x (Backoff 0) 0 0)
                0 st2 eq_refl (le_n 0) (or_intror eq_refl)) as Hadv.
  pose proof (books_attempt o now (Task (session_of st2 w) x (Backoff 0) 0 0)
                0 st2) as Hbooks.
  destruct (attempt o now (Task (session_of st2 w) x (Backoff 0) 0 0) 0 st2)
    as [t' st3].
  destruct Hadv as (_ & Htasks & Hworkers & _).
  destruct Hbooks as [Hbc Hbk]. cbn in Htasks, Hworkers, Hbc, Hbk.
  apply IH. destruct Hst as [Hc Hb Hk].
  apply tally_set_concurrentTasks.
  - split.
    + by apply Hbc.
    + intros w' y Hy. cbn in Hy. rewrite Hworkers in Hy. exact (Hb w' y Hy).
    + unfold calls_counted in *. cbn.
      rewrite Htasks, fmap_app, sum_list_with_app. cbn. lia.
  - unfold tasks_of. cbn. rewrite Hworkers, length_app. cbn.
    unfold tasks_of in Hlt. lia.
Qed.

Lemma tally_iterate (o : options) (now : Z) (w : nat) (st : state) :
  tally o st → tally o (iterate o now w st).
Proof.
  intros Hst. unfold iterate.
  destruct (negb (queue_empty st) || negb (none_processing st)).
  - pose proof (tally_fill o now w (workQueue st) st Hst) as H1. cbv zeta.
    set (st1 := fill o now w (workQueue st) st) in *.
    destruct (tasks_of st1 w); [| by apply tally_set_pc].
    destruct (queue_empty st1 && negb (none_processing st1));
      [by apply tally_set_pc |].
    destruct (negb (queue_empty st1)); by apply tally_set_pc.
  - unfold leave_loop. destruct (tasks_of st w); by apply tally_set_pc.
Qed.

Lemma tally_loop_head (o : options) (now : Z) (w : nat) (st : state) :
  tally o st → tally o (loop_head o now w st).
Proof.
  intros Hst. unfold loop_head. cbv zeta.
  pose proof (tally_iterate o now w st Hst) as H1.
  destruct (pc_of (iterate o now w st) w); try done.
  by apply tally_iterate.
Qed.

Lemma tally_end_of_body (o : options) (now : Z) (w : nat) (st : state) :
  tally o st → tally o (end_of_body o now w st).
Proof.
  intros Hst. unfold end_of_body. destruct (negb (queue_empty st)).
  - by apply tally_set_pc.
  - by apply tally_loop_head.
Qed.

Lemma tally_step (o : options) (tr : transport) (n : nat)
    (numbers : list item) (l : label) (st st' : state) :
  inv o n numbers st → tally o st → step o tr l st = Some st' → tally o st'.
Proof.
  intros Hinv Hst Hstep. unfold step in Hstep.
  destruct (act l) as [w|w b|tid|tid].
  - unfold resume in Hstep. destruct (pc_of st w) eqn:E; try done.
    + apply (inj Some) in Hstep as <-. by apply tally_loop_head.
    + destruct (existsb _ _); [| done].
      destruct (length (tasks_of st w)); [done |].
      apply (inj Some) in Hstep as <-. by apply tally_set_pc.
    + apply (inj Some) in Hstep as <-. by apply tally_end_of_body.
    + apply (inj Some) in Hstep as <-. by apply tally_loop_head.
    + destruct (forallb _ _); [| done].
      apply (inj Some) in Hstep as <-. by apply tally_set_pc.
  - unfold resolved in Hstep. destruct (pc_of st w) eqn:E; try done.
    destruct (tasks_of st w !! i) as [p|] eqn:Hi; [| done].
    destruct (if b then task_settled st p else negb settled_at_call);
      [| done].
    assert (Hst1 : tally o (if b then set_concurrentTasks w
                                      (splice1 i (tasks_of st w)) st
                            else st)).
    { destruct b; [| done]. apply tally_set_concurrentTasks; [done |].
      unfold splice1. rewrite length_delete by done.
      pose proof (tasks_of_bounded o w st Hst). lia. }
    destruct i as [|i']; apply (inj Some) in Hstep as <-.
    + by apply tally_end_of_body.
    + by apply tally_set_pc.
  - unfold settle in Hstep.
    destruct (tasks st !! tid) as [t|] eqn:Ht; [| done].
    pose proof (Forall_lookup_1 _ _ _ _ (inv_tasks _ _ _ _ Hinv) Ht) as Hok.
    destruct (pc t) as [retries call wid| |] eqn:Hpc; try done.
    destruct (tr _ call wid) as [b|err]; apply (inj Some) in Hstep as <-.
    + apply (tally_put_task o tid t st); [done | done | |].
      * by apply on_success_advances with retries call.
      * apply books_on_success.
    + apply (tally_put_task o tid t st); [done | done | |].
      * unfold task_ok in Hok. rewrite Hpc in Hok.
        destruct Hok as (? & ? & ?). by apply on_error_advances.
      * apply books_on_error.
  - unfold wake in Hstep.
    destruct (tasks st !! tid) as [t|] eqn:Ht; [| done].
    pose proof (Forall_lookup_1 _ _ _ _ (inv_tasks _ _ _ _ Hinv) Ht) as Hok.
    destruct (pc t) as [| retries |] eqn:Hpc; try done.
    apply (inj Some) in Hstep as <-.
    apply (tally_put_task o tid t st); [done | done | |].
    + unfold task_ok in Hok. rewrite Hpc in Hok. destruct Hok as (? & ? & ?).
      apply attempt_advances; [done | done | by left].
    + apply books_attempt.
Qed.

Lemma tally_exec (o : options) (tr : transport) (n : nat)
    (numbers : list item) (ls : list label) :
  ∀ st st', inv o n numbers st → tally o st → exec o tr ls st = Some st' →
    tally o st'.
Proof.
  induction ls as [|l ls IH]; intros st st' Hinv Hst Hrun; cbn in Hrun.
  - by apply (inj Some) in Hrun as <-.
  - destruct (step o tr l st) as [st1|] eqn:Hstep; [| done].
    apply (IH st1); [| | done].
    + by apply (step_inv o tr n numbers l st).
    + by apply (tally_step o tr n numbers l st).
Qed.

Lemma tally_validateBatch (o : options) (now : Z) (ss : list session)
    (numbers : list item) :
  tally o (validateBatch o now ss numbers).
Proof.
  unfold validateBatch. cbv zeta.
  set (ws := (λ s, Worker s [] AtLoop) <$> seq 0 (length ss)).
  assert (Hws : ∀ w x, ws !! w = Some x → concurrentTasks x = []).
  { intros w x Hx. subst ws. rewrite list_lookup_fmap in Hx.
    destruct (seq 0 (length ss) !! w); by simplify_eq/=. }
  generalize (seq 0 (length ss)). intros l.
  match goal with |- tally o (foldl _ ?s l) => assert (Hst : tally o s) end.
  { split; [done | | done].
    intros w x Hx. cbn in Hx. rewrite (Hws w x Hx). cbn. lia. }
  revert Hst. generalize (set_workers ws
    (set_workQueue numbers
       (set_stats (Statistics (length numbers) 0 0 0 (Some now) None)
          (initialized ss)))).
  induction l as [|w l IH]; intros st Hst; [done |].
  cbn [foldl]. apply IH. by apply tally_loop_head.
Qed.

Lemma tally_reachable (o : options) (tr : transport) (now : Z)
    (ss : list session) (numbers : list item) (ls : list label) (st : state) :
  exec o tr ls (validateBatch o now ss numbers) = Some st →
  tally o st ∧ inv o (length ss) numbers st.
Proof.
  intros Hrun. split.
  - eapply tally_exec; [apply validateBatch_inv | apply tally_validateBatch |
      exact Hrun].
  - eapply exec_inv; [apply validateBatch_inv | exact Hrun].
Qed.

Lemma issued_bounded (o : options) (t : task) :
  task_ok o t → (issued t ≤ maxRetries o)%nat.
Proof.
  unfold task_ok. destruct (pc t) as [| |[r|]]; [lia | lia | | lia].
  intros [_ H]. destruct (status r); lia.
Qed.

Lemma sum_list_bounded (l : list nat) (b : nat) :
  Forall (λ x, x ≤ b)%nat l → (sum_list l ≤ b * length l)%nat.
Proof. induction 1 as [|x l Hx _ IH]; cbn; lia. Qed.
Lemma length_concat_bounded {A} (ls : list (list A)) (b : nat) :
  Forall (λ l, length l ≤ b)%nat ls → (length (concat ls) ≤ length ls * b)%nat.
Proof.
  induction 1 as [|l ls Hl _ IH]; [done |].
  cbn. rewrite length_app. lia.
Qed.

Lemma in_flight_held (o : options) (n : nat) (numbers : list item)
    (st : state) :
  inv o n numbers st →
  ∀ tid, tid ∈ in_flight st → tid ∈ concat (concurrentTasks <$> workers st).
Proof.
  intros Hinv tid Hin. unfold in_flight in Hin.
  apply list_elem_of_filter in Hin as [Hun Hin].
  unfold task_settled in Hun.
  destruct (tasks st !! tid) as [t|] eqn:Ht.
  - destruct (inv_held _ _ _ _ Hinv tid t Ht Hun) as (w & x & Hx & Htid).
    apply list_elem_of_In, in_concat. exists (concurrentTasks x).
    split; [| by apply list_elem_of_In].
    apply list_elem_of_In, list_elem_of_fmap. exists x.
    split; [done |]. by eapply list_elem_of_lookup_2.
  - apply elem_of_seq in Hin. apply lookup_ge_None in Ht. lia.
Qed.
End OptimizedBooks.

Module OptimizedBooksProps.
Import Input Optimized OptimizedFacts OptimizedBooks.

(** X11.  At every moment of a run of the concurrent validator the
    counters of [this.stats] agree with [this.results]: [processed] is
    the number of results, [verified] the number of results that report
    a registration, and [errors] the number of results with status
    error. *)
Theorem statistics_agree_with_results (o : options) (tr : transport)
    (now : Z) (ss : list session) (numbers : list item) (ls : list label)
    (st : state) :
  exec o tr ls (validateBatch o now ss numbers) = Some st →
  processed (stats st) = length (results st) ∧
  total_verified (stats st)
  = length (filter (λ r, is_registered r = true) (results st)) ∧
  total_errors (stats st)
  = length (filter (λ r, status r = Input.error) (results st)).
Proof.
  intros Hrun.
  by destruct (tally_reachable o tr now ss numbers ls st Hrun)
    as [[Hc _ _] _].
Qed.

Lemma statistics_agree_with_results_witness :
  ∃ st,
    exec default_options flaky sample_schedule
      (validateBatch default_options 0 one_session three_items) = Some st ∧
    processed (stats st) = length (results st).
Proof.
  assert (Hrun : ∃ st,
            exec default_options flaky sample_schedule
              (validateBatch default_options 0 one_session three_items)
            = Some st).
  { eexists. vm_compute. reflexivity. }
  destruct Hrun as (st & Hrun). exists st. split; [exact Hrun |].
  exact (proj1 (statistics_agree_with_results default_options flaky 0
                  one_session three_items sample_schedule st Hrun)).
Defined.

(** X12.  The concurrency limit: at every moment of a run no worker
    holds more than [concurrentPerSession] promises, and the promises
    that are not settled, over all sessions, are at most
    [concurrentPerSession] times the number of sessions. *)
Theorem concurrency_limit (o : options) (tr : transport) (now : Z)
    (ss : list session) (numbers : list item) (ls : list label)
    (st : state) :
  exec o tr ls (validateBatch o now ss numbers) = Some st →
  (∀ w x, workers st !! w = Some x →
     (length (concurrentTasks x) ≤ concurrentPerSession o)%nat) ∧
  (length (in_flight st) ≤ length ss * concurrentPerSession o)%nat.
Proof.
  intros Hrun.
  destruct (tally_reachable o tr now ss numbers ls st Hrun)
    as [[_ Hb _] Hinv].
  split; [exact Hb |].
  rewrite <- (inv_workers _ _ _ _ Hinv),
    <- (length_fmap concurrentTasks (workers st)).
  etrans; [| apply length_concat_bounded].
  - apply submseteq_length, NoDup_submseteq.
    + apply NoDup_filter, NoDup_seq.
    + by apply (in_flight_held o (length ss) numbers).
  - apply Forall_fmap, Forall_lookup. intros w x Hx. exact (Hb w x Hx).
Qed.

Lemma concurrency_limit_witness :
  ∃ st,
    exec default_options flaky sample_schedule
      (validateBatch default_options 0 one_session three_items) = Some st ∧
    (length (in_flight st)
     ≤ length one_session * concurrentPerSession default_options)%nat.
Proof.
  assert (Hrun : ∃ st,
            exec default_options flaky sample_schedule
              (validateBatch default_options 0 one_session three_items)
            = Some st).
  { eexists. vm_compute. reflexivity. }
  destruct Hrun as (st & Hrun). exists st. split; [exact Hrun |].
  exact (proj2 (concurrency_limit default_options flaky 0
                  one_session three_items sample_schedule st Hrun)).
Defined.

(** X13.  The transport is never called more than [maxRetries] times
    per truthy item of the input: at every moment of a run the number
    of calls made is the sum of the calls the invocations of
    [processNumber] issued, each of which issued at most [maxRetries]. *)
Theorem transport_calls_bound (o : options) (tr : transport) (now : Z)
    (ss : list session) (numbers : list item) (ls : list label)
    (st : state) :
  exec o tr ls (validateBatch o now ss numbers) = Some st →
  calls st = sum_list (issued <$> tasks st) ∧
  Forall (λ t, (issued t ≤ maxRetries o)%nat) (tasks st) ∧
  (calls st
   ≤ maxRetries o * length (filter (λ x, truthy x = true) numbers))%nat.
Proof.
  intros Hrun.
  destruct (tally_reachable o tr now ss numbers ls st Hrun)
    as [[_ _ Hk] Hinv].
  assert (Hall : Forall (λ t, (issued t ≤ maxRetries o)%nat) (tasks st)).
  { eapply Forall_impl; [exact (inv_tasks _ _ _ _ Hinv) |].
    apply issued_bounded. }
  split_and!; [exact Hk | exact Hall |].
  rewrite Hk. etrans; [apply sum_list_bounded, Forall_fmap; exact Hall |].
  rewrite length_fmap. apply Nat.mul_le_mono_l.
  destruct (inv_accounted _ _ _ _ Hinv) as (shifted & Hsh & Hobj).
  rewrite <- (length_fmap numberObj), Hobj, Hsh, filter_app, length_app. lia.
Qed.

Lemma transport_calls_bound_witness :
  ∃ st,
    exec default_options flaky sample_schedule
      (validateBatch default_options 0 one_session three_items) = Some st ∧
    calls st = sum_list (issued <$> tasks st).
Proof.
  assert (Hrun : ∃ st,
            exec default_options flaky sample_schedule
              (validateBatch default_options 0 one_session three_items)
            = Some st).
  { eexists. vm_compute. reflexivity. }
  destruct Hrun as (st & Hrun). exists st. split; [exact Hrun |].
  exact (proj1 (transport_calls_bound default_options flaky 0
                  one_session three_items sample_schedule st Hrun)).
Defined.
End OptimizedBooksProps.

(** ** The results and the report of the single-session validator *)
Module BasicReport.
Import Eff Input Basic BasicFacts.

Lemma single_validateNumber_sound (c : client) (number : item) (w : world) :
  ∃ r w', validateNumber c number w = (Normal r, w') ∧
    Basic.number r = number ∧ sound r.
Proof.
  destruct w as [t tm ca pr pf sk lg].
  destruct number as [x|ref n].
  - basic_unfold.
    match goal with
    | |- context [isRegisteredUser c ca ?wid] =>
        destruct (isRegisteredUser c ca wid) as [[[|]|err] d];
        world_reduce;
        [destruct (getProfilePicUrl c (S ca) wid) as [[u|err] d1];
         world_reduce;
         destruct (getContactById c (S (S ca)) wid) as [[a|err'] d2];
         world_reduce | |]
    end;
      (eexists _, _; split; [reflexivity |]); by unfold sound.
  - basic_unfold. eexists _, _; split; [reflexivity |]. by unfold sound.
Qed.

Lemma batch_loop_sound (cfg : config) (c : client) (lag : nat → Z)
    (total : nat) (rest : list item) :
  ∀ i results w, ∃ new w',
    batch_loop cfg c lag total i rest results w
    = (Normal (results ++ new), w') ∧
    number <$> new = number_of <$> rest ∧
    Forall sound new.
Proof.
  induction rest as [|numberObj rest IH]; intros i results w.
  - exists [], w. cbn. by rewrite app_nil_r.
  - cbn [batch_loop]. rewrite emit_then.
    set (w0 := World _ _ _ _ _ _ _).
    destruct (single_validateNumber_sound c (number_of numberObj) w0)
      as (r & w1 & Hv & Hnum & Hsound).
    unfold Eff.bind at 1. rewrite Hv.
    destruct (after_result cfg lag total i (results ++ [r]) w1)
      as (w2 & Hk & _).
    rewrite Hk.
    destruct (IH (S i) (results ++ [r]) w2) as (new & w' & Hrun & Hnums & Hall).
    exists (r :: new), w'. split_and!.
    + by rewrite Hrun, <- app_assoc.
    + cbn. by rewrite Hnum, Hnums.
    + by constructor.
Qed.

Lemma report_bounds (rs : list result) :
  Forall sound rs →
  (with_profile_picture (generateReport rs)
   ≤ registered_on_whatsapp (generateReport rs))%nat ∧
  (registered_on_whatsapp (generateReport rs) + errors (generateReport rs)
   ≤ total_checked (generateReport rs))%nat.
Proof.
  unfold generateReport. cbn.
  induction 1 as [|r rs [Herr Hreg] _ [IH1 IH2]]; [cbn; lia |].
  rewrite !filter_cons. cbn [length].
  destruct (is_registered r) eqn:E1.
  - rewrite (decide_True (P := true = true)) by done.
    destruct (decide (status r = Input.error)) as [He|He];
      [destruct (Herr He); congruence |].
    destruct (decide (has_profile_pic r = true)); cbn [length]; lia.
  - rewrite (decide_False (P := false = true)) by done.
    destruct (Hreg eq_refl) as [Hpic _]. rewrite Hpic.
    rewrite (decide_False (P := false = true)) by done.
    destruct (decide (status r = Input.error)); cbn [length]; lia.
Qed.

Lemma startsWith_three (a b c : ascii) (s : string) :
  Js.startsWith (String a (String b (String c ""))) s = true →
  ∃ s', s = String a (String b (String c s')).
Proof.
  destruct s as [|a' [|b' [|c' s']]]; cbn; try done.
  - by destruct (decide (a = a')).
  - destruct (decide (a = a')); [| done]. by destruct (decide (b = b')).
  - destruct (decide (a = a')) as [->|]; [| done].
    destruct (decide (b = b')) as [->|]; [| done].
    destruct (decide (c = c')) as [->|]; [| done]. by exists s'.
Qed.

Lemma one_carrier (s : string) :
  ((if Js.startsWith "077" s then 1 else 0)
   + (if Js.startsWith "078" s then 1 else 0)
   + (if Js.startsWith "079" s then 1 else 0) ≤ 1)%nat.
Proof.
  destruct (Js.startsWith "077" s) eqn:E7;
    destruct (Js.startsWith "078" s) eqn:E8;
    destruct (Js.startsWith "079" s) eqn:E9; try lia;
    repeat match goal with
           | H : Js.startsWith _ s = true |- _ =>
               apply startsWith_three in H as [? H]
           end; congruence.
Qed.

Lemma carriers_of_strings (rs : list result) :
  Forall (λ r, ∃ s, number r = Str s) rs →
  ∃ a b c,
    count_startsWith "077" rs = Normal a ∧
    count_startsWith "078" rs = Normal b ∧
    count_startsWith "079" rs = Normal c ∧
    (a + b + c ≤ length rs)%nat.
Proof.
  induction 1 as [|r rs [s Hs] _ (a & b & c & Ha & Hb & Hc & Hle)].
  - by exists 0%nat, 0%nat, 0%nat.
  - cbn [count_startsWith]. rewrite Hs, Ha, Hb, Hc.
    eexists _, _, _. split_and!; try reflexivity.
    pose proof (one_carrier s).
    destruct (Js.startsWith "077" s), (Js.startsWith "078" s),
      (Js.startsWith "079" s); cbn [length]; lia.
Qed.

Lemma count_startsWith_throws (p : string) (rs : list result) :
  Exists (λ r, ∃ ref n, number r = Row ref n) rs →
  count_startsWith p rs
  = Throw (Eff.Error (Some "r.number.startsWith is not a function")).
Proof.
  induction 1 as [r rs (ref & n & Hr)|r rs _ IH]; cbn [count_startsWith].
  - by rewrite Hr.
  - rewrite IH. by destruct (number r).
Qed.

Lemma number_of_row (it : item) :
  (∃ ref n, number_of it = Row ref n) ↔ has_empty_number it.
Proof.
  destruct it as [s|ref n]; cbn.
  - split; [by intros (? & ? & ?) | done].
  - destruct (Js.truthy_string n); split; try done.
    + by intros (? & ? & ?).
    + intros _. by exists ref, n.
Qed.
End BasicReport.

Module BasicReportProps.
Import Eff Input Basic BasicFacts BasicReport.

(** X14.  [validateBatch] of the single-session validator, from any
    start index and in any store, returns one result for each number
    from the start index on, in order, and the counts [generateReport]
    derives from them are consistent: the results with a profile
    picture are among the registered ones, and registered results and
    error results together are no more than the results. *)
Theorem report_counts_consistent (cfg : config) (c : client) (lag : nat → Z)
    (numbers : list item) (startIndex : nat) (w : world) :
  ∃ rs w',
    validateBatch cfg c lag numbers startIndex w = (Normal rs, w') ∧
    number <$> rs = number_of <$> drop startIndex numbers ∧
    total_checked (generateReport rs) = (length numbers - startIndex)%nat ∧
    (with_profile_picture (generateReport rs)
     ≤ registered_on_whatsapp (generateReport rs))%nat ∧
    (registered_on_whatsapp (generateReport rs) + errors (generateReport rs)
     ≤ total_checked (generateReport rs))%nat.
Proof.
  unfold validateBatch.
  destruct (batch_loop_sound cfg c lag (length numbers)
              (drop startIndex numbers) startIndex [] w)
    as (rs & w' & Hrun & Hnums & Hall).
  exists rs, w'. cbn [app] in Hrun. split; [exact Hrun |].
  split; [exact Hnums |]. split.
  - apply (f_equal length) in Hnums.
    rewrite !length_fmap, length_drop in Hnums. exact Hnums.
  - by apply report_bounds.
Qed.

(** X15.  The carrier breakdown of the report reads [number] of every
    result as a string.  When a row from the start index on has an empty
    [number] field, the result recorded for it carries the row object
    and the breakdown throws a [TypeError]; when no row has, the
    breakdown is computed and its three counts together are no more
    than the results. *)
Theorem carrier_breakdown_of_batch (cfg : config) (c : client)
    (lag : nat → Z) (numbers : list item) (startIndex : nat) (w : world) :
  ∃ rs w',
    validateBatch cfg c lag numbers startIndex w = (Normal rs, w') ∧
    (Exists has_empty_number (drop startIndex numbers) →
     carrier_breakdown rs
     = Throw (Eff.Error (Some "r.number.startsWith is not a function"))) ∧
    (Forall (λ it, ¬ has_empty_number it) (drop startIndex numbers) →
     ∃ cs, carrier_breakdown rs = Normal cs ∧
           (orange_077 cs + zain_umniah_078 cs + zain_079 cs
            ≤ length rs)%nat).
Proof.
  unfold validateBatch.
  destruct (batch_loop_sound cfg c lag (length numbers)
              (drop startIndex numbers) startIndex [] w)
    as (rs & w' & Hrun & Hnums & _).
  exists rs, w'. cbn [app] in Hrun. split; [exact Hrun |].
  revert rs Hnums Hrun.
  generalize (drop startIndex numbers). intros its rs Hnums _. split.
  - intros Hex. unfold carrier_breakdown.
    rewrite count_startsWith_throws; [done |].
    revert rs Hnums. induction Hex as [it its Hit|it its _ IH];
      intros [|r rs] Hnums; try done; cbn in Hnums;
      injection Hnums as Hr Hrs.
    + apply Exists_cons_hd. rewrite Hr. by apply number_of_row.
    + apply Exists_cons_tl. by apply IH.
  - intros Hall.
    destruct (carriers_of_strings rs) as (a & b & c' & Ha & Hb & Hc & Hle).
    { revert rs Hnums. induction Hall as [|it its Hit _ IH];
        intros [|r rs] Hnums; try done; cbn in Hnums;
        injection Hnums as Hr Hrs.
      constructor; [| by apply IH]. rewrite Hr.
      destruct (number_of it) as [s|ref n] eqn:E; [by exists s |].
      exfalso. apply Hit, number_of_row. by exists ref, n. }
    exists (Carriers a b c'). unfold carrier_breakdown.
    by rewrite Ha, Hb, Hc.
Qed.
End BasicReportProps.

(** ** The aggregator *)
Module AggregatorFacts.
Import Aggregator.

(** What the ['data'] handler has done after the rows [rows]. *)
Lemma on_data_rows (iso : clock) (rows : list row) :
  ∀ (p : progress) (st : state),
  ∃ added st',
    foldl (λ acc r, on_data iso r acc) (p, st) rows
    = (Progress (newVerifiedNumbers p ++ added)
         (totalProcessed p + length rows) (newlyAdded p + length added), st') ∧
    masterFile st' = masterFile st ∧
    NoDup (entry_number <$> added) ∧
    (∀ e, e ∈ added →
       (entry_number e ∉ verifiedNumbers st) ∧
       ∃ r, r ∈ rows ∧ isRegistered r = true ∧ entry_number e = number r) ∧
    verifiedNumbers st'
    = list_to_set (entry_number <$> added) ∪ verifiedNumbers st ∧
    (∀ r, r ∈ rows → isRegistered r = true → number r ∈ verifiedNumbers st').
Proof.
  induction rows as [|r rows IH]; intros p st.
  - exists [], st. cbn. rewrite app_nil_r, !Nat.add_0_r.
    split_and!; try done.
    + by destruct p.
    + constructor.
    + intros e He. by apply elem_of_nil in He.
    + by rewrite (left_id_L ∅ (∪)).
    + intros r Hr. by apply elem_of_nil in Hr.
  - cbn [foldl]. unfold on_data at 2.
    destruct (isRegistered r &&
              negb (bool_decide (number r ∈ verifiedNumbers st))) eqn:Hnew.
    + apply andb_true_iff in Hnew as [Hreg Hfresh].
      apply negb_true_iff, bool_decide_eq_false in Hfresh.
      cbv zeta. cbn [newVerifiedNumbers totalProcessed newlyAdded].
      set (entry := VerifiedEntry _ _ _ _ _ _ _).
      set (st1 := State _ _ _).
      destruct (IH (Progress (newVerifiedNumbers p ++ [entry])
                      (S (totalProcessed p)) (S (newlyAdded p))) st1)
        as (added & st' & Hrun & Hm & Hnd & Hall & Hv & Hknown).
      exists (entry :: added), st'. cbn in Hrun. rewrite Hrun.
      subst st1. cbn in Hm, Hall, Hv.
      split_and!.
      * f_equal. f_equal; [by rewrite <- app_assoc | cbn [length]; lia ..].
      * done.
      * cbn. apply NoDup_cons. split; [| done].
        intros Hin. apply list_elem_of_fmap in Hin as (e & He & Hin).
        destruct (Hall e Hin) as [Hnot _]. apply Hnot. rewrite <- He.
        apply elem_of_union_l. by apply elem_of_singleton.
      * intros e He. apply elem_of_cons in He as [->|He].
        -- split; [done |]. exists r. split; [by left | done].
        -- destruct (Hall e He) as [Hnot (r' & Hr' & Hreg' & Hnum)].
           split; [intros Hin; apply Hnot; by apply elem_of_union_r |].
           exists r'. split; [by right | done].
      * rewrite Hv. cbn. by rewrite (assoc_L (∪)), (comm_L (∪) {[number r]}).
      * intros r' Hr' Hreg'. apply elem_of_cons in Hr' as [->|Hr'];
          [| by apply Hknown].
        rewrite Hv. apply elem_of_union_r, elem_of_union_l.
        by apply elem_of_singleton.
    + destruct (IH (Progress (newVerifiedNumbers p) (S (totalProcessed p))
                      (newlyAdded p)) st)
        as (added & st' & Hrun & Hm & Hnd & Hall & Hv & Hknown).
      exists added, st'. cbn in Hrun. rewrite Hrun.
      split_and!; try done.
      * f_equal. f_equal. cbn [length]. lia.
      * intros e He. destruct (Hall e He) as [Hnot (r' & Hr' & Hreg' & Hnum)].
        split; [done |]. exists r'. split; [by right | done].
      * intros r' Hr' Hreg'. apply elem_of_cons in Hr' as [->|Hr'];
          [| by apply Hknown].
        rewrite Hv. apply elem_of_union_r.
        apply andb_false_iff in Hnew as [Hnew|Hnew]; [congruence |].
        by apply negb_false_iff, bool_decide_eq_true in Hnew.
Qed.

Lemma appended_spec (before : option (list verified_entry))
    (new : list verified_entry) :
  appended before
    (match new with
     | [] => before
     | _ :: _ => match before with
                 | Some old => Some (old ++ new)
                 | None => Some new
                 end
     end) = new ∧
  default []
    (match new with
     | [] => before
     | _ :: _ => match before with
                 | Some old => Some (old ++ new)
                 | None => Some new
                 end
     end) = default [] before ++ new.
Proof.
  unfold appended. destruct new as [|e new], before as [old|]; cbn;
    rewrite ?app_nil_r, ?drop_all, ?drop_app_length; done.
Qed.

(** What [aggregateResults] does, in one statement. *)
Lemma aggregateResults_spec (iso : clock) (rows : list row) (st : state) :
  ∃ new st',
    aggregateResults iso rows st
    = (Summary (length rows) (length new) (size (verifiedNumbers st')), st') ∧
    appended (masterFile st) (masterFile st') = new ∧
    default [] (masterFile st') = default [] (masterFile st) ++ new ∧
    NoDup (entry_number <$> new) ∧
    (∀ e, e ∈ new →
       (entry_number e ∉ verifiedNumbers st) ∧
       ∃ r, r ∈ rows ∧ isRegistered r = true ∧ entry_number e = number r) ∧
    verifiedNumbers st'
    = list_to_set (entry_number <$> new) ∪ verifiedNumbers st ∧
    (∀ r, r ∈ rows → isRegistered r = true → number r ∈ verifiedNumbers st').
Proof.
  unfold aggregateResults.
  destruct (on_data_rows iso rows (Progress [] 0 0) st)
    as (new & st1 & Hrun & Hm & Hnd & Hall & Hv & Hknown).
  rewrite Hrun. cbn [newVerifiedNumbers totalProcessed newlyAdded app].
  cbn [Nat.add].
  destruct (appended_spec (masterFile st) new) as [Happ Hdef].
  exists new.
  eexists (match new with
           | [] => st1
           | _ :: _ => appendToMasterFile new st1
           end).
  split_and!.
  - done.
  - rewrite <- Happ at 2. f_equal. unfold appendToMasterFile.
    destruct new; [done |]. cbn. by rewrite Hm.
  - rewrite <- Hdef. f_equal. unfold appendToMasterFile.
    destruct new; [done |]. cbn. by rewrite Hm.
  - done.
  - done.
  - by destruct new.
  - intros r Hr Hreg. specialize (Hknown r Hr Hreg). by destruct new.
Qed.

Lemma loaded_spec (rows : list verified_entry) (v : gset (option string))
    (n : option string) :
  n ∈ foldl (λ v e, if Js.truthy_string (read_number e)
                   then {[Some (read_number e)]} ∪ v else v) v rows
  ↔ n ∈ v ∨ ∃ e, e ∈ rows ∧ Js.truthy_string (read_number e) = true ∧
                 n = Some (read_number e).
Proof.
  revert v. induction rows as [|e rows IH]; intros v; cbn [foldl].
  - split; [by left |]. intros [?|(e & He & _)]; [done |].
    by apply elem_of_nil in He.
  - rewrite IH. destruct (Js.truthy_string (read_number e)) eqn:He.
    + rewrite elem_of_union, elem_of_singleton. split.
      * intros [[->|?]|(e' & He' & Ht & ->)]; [right | by left | right].
        -- exists e. split; [by left | done].
        -- exists e'. split; [by right | done].
      * intros [?|(e' & He' & Ht & ->)]; [by left; right |].
        apply elem_of_cons in He' as [->|He']; [by left; left |].
        right. by exists e'.
    + split.
      * intros [?|(e' & He' & Ht & ->)]; [by left | right].
        exists e'. split; [by right | done].
      * intros [?|(e' & He' & Ht & ->)]; [by left |].
        apply elem_of_cons in He' as [->|He']; [congruence |].
        right. by exists e'.
Qed.

Lemma loadExistingNumbers_spec (master : option (list verified_entry))
    (d : nat) (n : option string) :
  masterFile (loadExistingNumbers (fresh master d)) = master ∧
  (n ∈ verifiedNumbers (loadExistingNumbers (fresh master d)) ↔
   ∃ e, e ∈ default [] master ∧ Js.truthy_string (read_number e) = true ∧
        n = Some (read_number e)).
Proof.
  unfold loadExistingNumbers, fresh. destruct master as [rows|]; cbn.
  - split; [done |]. rewrite loaded_spec. split.
    + intros [H|H]; [by apply not_elem_of_empty in H | done].
    + by right.
  - split; [done |]. split; [intros H; by apply not_elem_of_empty in H |].
    intros (e & He & _). by apply elem_of_nil in He.
Qed.
Lemma on_data_known (iso : clock) (rows : list row) :
  ∀ (p : progress) (st : state),
    (∀ r, r ∈ rows → isRegistered r = true → number r ∈ verifiedNumbers st) →
    foldl (λ acc r, on_data iso r acc) (p, st) rows
    = (Progress (newVerifiedNumbers p) (totalProcessed p + length rows)
         (newlyAdded p), st).
Proof.
  induction rows as [|r rows IH]; intros p st Hknown.
  - cbn. rewrite Nat.add_0_r. by destruct p.
  - cbn [foldl]. unfold on_data at 2.
    assert (Hold : isRegistered r &&
                   negb (bool_decide (number r ∈ verifiedNumbers st)) = false).
    { destruct (isRegistered r) eqn:Hreg; [| done]. cbn.
      apply negb_false_iff, bool_decide_eq_true, Hknown; [by left | done]. }
    rewrite Hold, IH.
    + cbn [newVerifiedNumbers totalProcessed newlyAdded length].
      do 2 f_equal. lia.
    + intros r' Hr'. apply Hknown. by right.
Qed.

Lemma falsy_keys (l : list (option string)) :
  NoDup l → Forall (λ n, truthy n = false) l → (length l ≤ 2)%nat.
Proof.
  intros Hnd Hall.
  assert (Hsub : l ⊆+ [None; Some ""]).
  { apply NoDup_submseteq; [done |]. intros n Hn.
    rewrite Forall_forall in Hall. specialize (Hall n Hn).
    destruct n as [[|c s]|]; try done; set_solver. }
  apply submseteq_length in Hsub. exact Hsub.
Qed.
End AggregatorFacts.

Module AggregatorProps.
Import Aggregator AggregatorFacts.

(** X16.  One aggregation: every row is counted; an entry is appended
    to the master file for each number of a registered row that is not
    yet in the set of verified numbers, once per number, after the
    entries the file held; the number of new entries is what the
    summary reports, the set has grown by exactly that many numbers, and
    at the end it holds the number of every registered row. *)
Theorem aggregate_adds_each_number_once (iso : clock) (rows : list row)
    (st : state) :
  let out := aggregateResults iso rows st in
  let new := appended (masterFile st) (masterFile out.2) in
  sum_totalProcessed out.1 = length rows ∧
  sum_newlyAdded out.1 = length new ∧
  totalVerified out.1 = (size (verifiedNumbers st) + length new)%nat ∧
  default [] (masterFile out.2) = default [] (masterFile st) ++ new ∧
  NoDup (entry_number <$> new) ∧
  (∀ e, e ∈ new →
     (entry_number e ∉ verifiedNumbers st) ∧
     ∃ r, r ∈ rows ∧ isRegistered r = true ∧ entry_number e = number r) ∧
  (∀ r, r ∈ rows → isRegistered r = true → number r ∈ verifiedNumbers out.2).
Proof.
  cbv zeta.
  destruct (aggregateResults_spec iso rows st)
    as (new & st' & Hrun & Happ & Hdef & Hnd & Hall & Hv & Hknown).
  rewrite Hrun. cbn [fst snd sum_totalProcessed sum_newlyAdded totalVerified].
  rewrite Happ. split_and!; try done.
  rewrite Hv, size_union.
  - rewrite size_list_to_set, length_fmap by done. lia.
  - intros n Hn Hin. apply elem_of_list_to_set in Hn.
    apply list_elem_of_fmap in Hn as (e & -> & He).
    by destruct (Hall e He) as [Hnot _].
Qed.

(** X17.  Aggregating the same rows a second time with the same
    aggregator changes nothing: no entry is added, the master file and
    the set stay as they are, and the summary reports zero new
    numbers. *)
Theorem aggregation_is_idempotent (iso : clock) (rows : list row)
    (st : state) :
  let st1 := (aggregateResults iso rows st).2 in
  aggregateResults iso rows st1
  = (Summary (length rows) 0 (size (verifiedNumbers st1)), st1).
Proof.
  cbv zeta.
  destruct (aggregateResults_spec iso rows st)
    as (new & st' & Hrun & _ & _ & _ & _ & _ & Hknown).
  rewrite Hrun. cbn [snd]. unfold aggregateResults.
  by rewrite (on_data_known iso rows (Progress [] 0 0) st' Hknown).
Qed.

(** X18.  Aggregating the same rows again in a new process (a new
    aggregator that first loads the master file) appends no entry for a
    number that is in the file; but [loadExistingNumbers] skips the rows
    without a number, so a registered row whose [number] is empty or
    missing is appended again on every run: the second run appends one
    or two entries, all without a number, when the rows hold such a
    row, and none otherwise. *)
Theorem rerun_appends_only_numberless (iso : clock) (rows : list row)
    (master : option (list verified_entry)) (d d' : nat) :
  let st1 := (aggregate_run iso rows master d).2 in
  let st2 := (aggregate_run iso rows (masterFile st1) d').2 in
  let new2 := appended (masterFile st1) (masterFile st2) in
  Forall (λ e, truthy (entry_number e) = false) new2 ∧
  (length new2 ≤ 2)%nat ∧
  (new2 ≠ [] ↔
   Exists (λ r, isRegistered r = true ∧ truthy (number r) = false) rows).
Proof.
  cbv zeta. unfold aggregate_run.
  destruct (loadExistingNumbers_spec master d None) as [Hm0 _].
  destruct (aggregateResults_spec iso rows
              (loadExistingNumbers (fresh master d)))
    as (new1 & st1 & Hrun1 & _ & Hdef1 & _ & _ & Hv1 & Hknown1).
  rewrite Hrun1. cbn [snd]. rewrite Hm0 in Hdef1.
  destruct (loadExistingNumbers_spec (masterFile st1) d' None) as [Hm1 _].
  destruct (aggregateResults_spec iso rows
              (loadExistingNumbers (fresh (masterFile st1) d')))
    as (new2 & st2 & Hrun2 & Happ2 & _ & Hnd2 & Hall2 & Hv2 & Hknown2).
  rewrite Hrun2. cbn [snd]. rewrite Hm1 in Happ2. rewrite Happ2.
  (* the numbers a fresh aggregator loads from the file of the first run
     include every truthy number of a registered row *)
  assert (Hloaded : ∀ r, r ∈ rows → isRegistered r = true →
            truthy (number r) = true →
            number r ∈ verifiedNumbers
                         (loadExistingNumbers (fresh (masterFile st1) d'))).
  { intros r Hr Hreg Htruthy.
    destruct (number r) as [s|] eqn:Hnum; [| done]. cbn in Htruthy.
    apply (loadExistingNumbers_spec (masterFile st1) d' (Some s)).
    specialize (Hknown1 r Hr Hreg). rewrite Hnum, Hv1 in Hknown1.
    apply elem_of_union in Hknown1 as [Hin|Hin].
    - apply elem_of_list_to_set, list_elem_of_fmap in Hin as (e & He & Hin).
      exists e. rewrite Hdef1. split; [apply elem_of_app; by right |].
      unfold read_number. by rewrite <- He.
    - apply (loadExistingNumbers_spec master d (Some s)) in Hin
        as (e & He & Ht & Heq).
      exists e. rewrite Hdef1. split; [apply elem_of_app; by left | done]. }
  assert (Hfalsy : Forall (λ e, truthy (entry_number e) = false) new2).
  { apply Forall_forall. intros e He.
    destruct (Hall2 e He) as [Hnot (r & Hr & Hreg & Hnum)].
    destruct (truthy (entry_number e)) eqn:Ht; [| done].
    exfalso. apply Hnot. rewrite Hnum. apply Hloaded; [done | done |].
    by rewrite <- Hnum. }
  split_and!.
  - exact Hfalsy.
  - rewrite <- (length_fmap entry_number). apply falsy_keys; [done |].
    by apply Forall_fmap.
  - split.
    + intros Hne. destruct new2 as [|e new2]; [done |].
      destruct (Hall2 e) as [_ (r & Hr & Hreg & Hnum)]; [by left |].
      apply Exists_exists. exists r. split; [done |]. split; [done |].
      rewrite <- Hnum. by apply Forall_cons in Hfalsy as [? _].
    + intros Hex Hnil. rewrite Hnil in Hv2.
      apply Exists_exists in Hex as (r & Hr & Hreg & Hfalse).
      specialize (Hknown2 r Hr Hreg). rewrite Hv2 in Hknown2.
      apply elem_of_union in Hknown2 as [Hknown2|Hknown2];
        [by apply elem_of_list_to_set, elem_of_nil in Hknown2 |].
      apply (loadExistingNumbers_spec (masterFile st1) d' (number r))
        in Hknown2 as (e & _ & Ht & Heq).
      rewrite Heq in Hfalse. cbn in Hfalse. congruence.
Qed.

(** X19.  The number [exportVerifiedNumbers] writes as [formatted] is
    [+962] followed by the number without its first character.  For a
    number made of digits this is the validators' identifier with a
    plus sign in front exactly when the number does not start with 962
    itself. *)
Theorem formatted_matches_normalize (number : string) :
  Normalize.all_digits number →
  (formatted number = "+" +:+ Normalize.normalize number ↔
   Js.startsWith "962" number = false).
Proof.
  intros Hd. unfold formatted, Normalize.normalize. cbv zeta.
  rewrite (NormalizeFacts.replace_non_digits_fixed _ Hd).
  destruct (Js.startsWith "962" number) eqn:E; [| done].
  split; [| done]. intros H. exfalso.
  apply (f_equal String.length) in H. cbn in H.
  destruct number as [|a [|b [|c s]]]; try done. simpl in H. lia.
Qed.

Lemma formatted_matches_normalize_witness :
  formatted "0791234567" = "+" +:+ Normalize.normalize "0791234567".
Proof.
  apply (formatted_matches_normalize "0791234567"); [| reflexivity].
  unfold Normalize.all_digits, Normalize.chars_of. cbn.
  repeat (constructor; [reflexivity |]). constructor.
Defined.
End AggregatorProps.

(** ** What [main] of the single-session validator saves *)
Module BasicMain.
Import Eff Input Basic BasicFacts.

(** The results and the sink of a run that starts at a multiple of ten
    with an empty log. *)
Lemma aligned_run (cfg : config) (c : client) (lag : nat → Z)
    (numbers : list item) (k : nat) (w : world) :
  (k `mod` 10 = 0)%nat → log w = [] →
  ∃ rs w',
    validateBatch cfg c lag numbers k w = (Normal rs, w') ∧
    length rs = (length numbers - k)%nat ∧
    sink w' = (if decide ((length numbers - k) / 10 = 0)%nat then sink w
               else Some (default [] (sink w)
                          ++ take (10 * ((length numbers - k) / 10)) rs)).
Proof.
  intros Hk Hlog. unfold validateBatch.
  destruct (batch_loop_aligned cfg c lag (length numbers) k
              (drop k numbers) Hk [] w)
    as (rs & w' & Hrun & Hlen & _ & Hfl & _).
  cbv zeta in Hfl. cbn [length app] in Hrun, Hfl.
  rewrite Nat.add_0_r in Hrun. rewrite length_drop in Hlen, Hfl.
  change (0 / 10)%nat with 0%nat in Hfl.
  rewrite Nat.add_0_l, Nat.sub_0_r, Hlog in Hfl.
  cbn [flushed omap list_omap app] in Hfl.
  exists rs, w'. split; [exact Hrun |]. split; [exact Hlen |].
  destruct (batch_loop_store _ _ _ _ _ _ _ _ _ _ Hrun)
    as (sv & fl & _ & Hfl2 & _ & Hsk).
  rewrite Hlog in Hfl2. cbn [flushed omap list_omap app] in Hfl2.
  rewrite Hsk, <- Hfl2, Hfl. apply flush_batches.
Qed.
End BasicMain.

Module BasicMainProps.
Import Eff Input Basic BasicFacts BasicMain.

(** X21.  What [main] saves.  A run from an empty store writes all its
    results to the output file.  A resumed run (the store holds a
    checkpoint of an earlier run, with [lastIndex] above zero) writes no
    output file: its results reach a file only through the flushes of
    ten, so the results after the last full ten, [n mod 10] of them for
    [n] numbers processed, are saved nowhere. *)
Theorem resumed_run_leaves_tail_unsaved (cfg : config) (c : client)
    (lag : nat → Z) (numbers : list item) (t : Z) (file : option checkpoint)
    (rows : option (list result)) :
  found file →
  let k := lastIndex (loadProgress file t) in
  let n := (length numbers - k)%nat in
  let q := (n / 10)%nat in
  ∃ rs out w',
    main_results cfg c lag numbers (constructed t file rows)
    = (Normal (rs, out), w') ∧
    length rs = n ∧
    out = (if decide (k = 0%nat) then Some rs else None) ∧
    sink w' = (if decide (q = 0%nat) then rows
               else Some (default [] rows ++ take (10 * q) rs)) ∧
    length (drop (10 * q) rs) = (n `mod` 10)%nat.
Proof.
  intros Hfound k n q.
  pose proof (found_tens file t Hfound) as Hk. fold k in Hk.
  destruct (aligned_run cfg c lag numbers k (constructed t file rows) Hk
              eq_refl) as (rs & w' & Hrun & Hlen & Hsink).
  exists rs, (if decide (k = 0%nat) then Some rs else None), w'.
  split_and!.
  - unfold main_results, Eff.bind at 1, Eff.get.
    change (lastIndex (progress (constructed t file rows))) with k.
    unfold Eff.bind, Eff.ret. by rewrite Hrun.
  - exact Hlen.
  - done.
  - exact Hsink.
  - rewrite length_drop, Hlen. fold n. unfold q.
    pose proof (Nat.div_mod_eq n 10). lia.
Qed.

Lemma resumed_run_leaves_tail_unsaved_witness :
  ∃ rs w',
    main_results sample_config all_registered (λ _, 0) twenty_five
      (constructed 7 (Some (Checkpoint 20 20 0)) (sink first_run.2))
    = (Normal (rs, None), w') ∧ length rs = 5%nat.
Proof.
  assert (Hfound : found (Some (Checkpoint 20 20 0))).
  { exists sample_config, all_registered, (λ _, 0), twenty_five, 0%nat, 0,
      None, None.
    apply list_elem_of_In. vm_compute. tauto. }
  destruct (resumed_run_leaves_tail_unsaved sample_config all_registered
              (λ _, 0) twenty_five 7 (Some (Checkpoint 20 20 0))
              (sink first_run.2) Hfound)
    as (rs & out & w' & Hrun & Hlen & Hout & _).
  exists rs, w'. cbn in Hout. subst out. split; [exact Hrun | exact Hlen].
Defined.
End BasicMainProps.

(** ** The scheduler of the optimized validator cannot deadlock *)
Module OptimizedLive.
Import Input Optimized OptimizedFacts OptimizedBooks.

Lemma smaller_ind (o : options) (P : state → Prop) :
  (∀ st, (∀ st', smaller o st' st → P st') → P st) → ∀ st, P st.
Proof.
  intros H.
  set (f := λ st, length (workQueue st)).
  set (g := λ st, sum_list (task_work o <$> tasks st)).
  set (h := λ st, sum_list (worker_work <$> workers st)).
  assert (Ha : ∀ a st, f st = a → P st).
  { induction a as [a IHa] using lt_wf_ind.
    assert (Hb : ∀ b st, f st = a → g st = b → P st).
    { induction b as [b IHb] using lt_wf_ind.
      assert (Hc : ∀ c st, f st = a → g st = b → h st = c → P st).
      { induction c as [c IHc] using lt_wf_ind.
        intros st Hf Hg Hh. apply H.
        intros st' [Hlt|[Heq [Hlt|[Heq2 Hlt]]]].
        - apply (IHa (f st')); [unfold f in *; lia | done].
        - apply (IHb (g st')); [unfold g in *; lia | unfold f in *; lia | done].
        - apply (IHc (h st')); unfold f, g, h in *; lia || done. }
      intros st Hf Hg. by apply (Hc (h st)). }
    intros st Hf. by apply (Hb (g st)). }
  intros st. by apply (Ha (f st)).
Qed.

Lemma sum_list_alter {A} (f : A → nat) (g : A → A) (l : list A) (i : nat)
    (x : A) :
  l !! i = Some x →
  (sum_list (f <$> alter g i l) + f x = sum_list (f <$> l) + f (g x))%nat.
Proof.
  revert i. induction l as [|a l IH]; intros [|i] Hi; try done.
  - cbn in Hi. apply (inj Some) in Hi as ->. simpl. lia.
  - cbn in Hi. specialize (IH i Hi).
    change (alter g (S i) (a :: l)) with (a :: alter g i l).
    rewrite !fmap_cons. simpl. lia.
Qed.

Lemma alive_open (w : nat) (st : state) : alive st → alive_but (Some w) st.
Proof.
  intros [Hp Hq Hk]. split; [done | done |].
  intros w' x _ Hx. by apply (Hk w' x).
Qed.

Lemma tasks_of_Some (st : state) (w : nat) (x : worker) :
  workers st !! w = Some x → tasks_of st w = concurrentTasks x.
Proof. intros Hx. unfold tasks_of. by rewrite Hx. Qed.

Lemma pc_of_at (st : state) (w : nat) (x : worker) :
  workers st !! w = Some x → pc_of st w = at_pc x.
Proof. intros Hx. unfold pc_of. by rewrite Hx. Qed.

Lemma alive_set_pc (w : nat) (p : worker_pc) (st : state) :
  alive_but (Some w) st →
  match p with
  | AwaitRace => tasks_of st w ≠ []
  | AwaitResolved i _ => (i < length (tasks_of st w))%nat
  | _ => True
  end →
  alive (set_pc w p st).
Proof.
  intros [Hp Hq Hk] Hw. split.
  - exact Hp.
  - intros w' x q Hx Hin. unfold set_pc in Hx; cbn in Hx.
    destruct (decide (w = w')) as [<-|Hne].
    + rewrite list_lookup_alter_eq in Hx.
      destruct (workers st !! w) as [x0|] eqn:Hx0; [| done].
      cbn in Hx. apply (inj Some) in Hx. subst x. cbn in Hin.
      exact (Hq w x0 q Hx0 Hin).
    + rewrite list_lookup_alter_ne in Hx by done. exact (Hq w' x q Hx Hin).
  - intros w' x _ Hx. unfold set_pc in Hx; cbn in Hx.
    destruct (decide (w = w')) as [<-|Hne].
    + rewrite list_lookup_alter_eq in Hx.
      destruct (workers st !! w) as [x0|] eqn:Hx0; [| done].
      cbn in Hx. apply (inj Some) in Hx. subst x. unfold pc_ok; cbn.
      unfold tasks_of in Hw. rewrite Hx0 in Hw. exact Hw.
    + rewrite list_lookup_alter_ne in Hx by done.
      apply (Hk w' x); [congruence | done].
Qed.

Lemma alive_set_concurrentTasks (w : nat) (l : list nat) (st : state) :
  alive_but (Some w) st →
  (∀ p, p ∈ l → (p < length (tasks st))%nat) →
  alive_but (Some w) (set_concurrentTasks w l st).
Proof.
  intros [Hp Hq Hk] Hl. split.
  - exact Hp.
  - intros w' x q Hx Hin. unfold set_concurrentTasks in Hx; cbn in Hx.
    destruct (decide (w = w')) as [<-|Hne].
    + rewrite list_lookup_alter_eq in Hx.
      destruct (workers st !! w) as [x0|] eqn:Hx0; [| done].
      cbn in Hx. apply (inj Some) in Hx. subst x. cbn in Hin.
      exact (Hl q Hin).
    + rewrite list_lookup_alter_ne in Hx by done. exact (Hq w' x q Hx Hin).
  - intros w' x Hr Hx. unfold set_concurrentTasks in Hx; cbn in Hx.
    destruct (decide (w = w')) as [<-|Hne]; [done |].
    rewrite list_lookup_alter_ne in Hx by done. by apply (Hk w' x).
Qed.

Lemma clears_on_success (now : Z) (t : task) (wid : string) (b : bool)
    (st : state) :
  clears t st (on_success now t wid b st).
Proof. unfold clears, on_success. by destruct b. Qed.

Lemma clears_on_error (o : options) (now : Z) (t : task) (retries : nat)
    (err : Eff.error) (st : state) :
  clears t st (on_error o now t retries err st).
Proof.
  unfold clears, on_error. by destruct (maxRetries o <=? S retries)%nat.
Qed.

Lemma clears_attempt (o : options) (now : Z) (t : task) (retries : nat)
    (st : state) :
  (retries < maxRetries o)%nat → clears t st (attempt o now t retries st).
Proof.
  intros Hlt. unfold attempt.
  rewrite (proj2 (Nat.ltb_lt _ _) Hlt).
  destruct (number_of (numberObj t)); [done | apply clears_on_error].
Qed.

Lemma alive_put_task (o : options) (running : option nat) (tid : nat)
    (t : task) (st : state) (ts : task * state) :
  alive_but running st → tasks st !! tid = Some t →
  advances o t st ts → clears t st ts → alive_but running (put_task tid ts).
Proof.
  intros [Hp Hq Hk] Ht (Hnum & Htasks & Hworkers & _) Hcl. split.
  - intros x Hx. unfold put_task in *; cbn in *.
    rewrite Hcl in Hx. rewrite Htasks.
    destruct (is_settled ts.1) eqn:Hs.
    + apply elem_of_difference in Hx as [Hx Hne].
      destruct (Hp x Hx) as (tid' & t' & Ht' & Hn' & Hun').
      exists tid', t'. split_and!; [| done | done].
      rewrite list_lookup_insert_ne; [done |].
      intros <-. rewrite Ht in Ht'. apply (inj Some) in Ht'. subst t'.
      apply Hne, elem_of_singleton. done.
    + destruct (Hp x Hx) as (tid' & t' & Ht' & Hn' & Hun').
      destruct (decide (tid = tid')) as [<-|Hne].
      * exists tid, ts.1. rewrite list_lookup_insert_eq
          by (by eapply lookup_lt_Some).
        rewrite Ht in Ht'. apply (inj Some) in Ht'. subst t'.
        split_and!; [done | congruence | done].
      * exists tid', t'. by rewrite list_lookup_insert_ne.
  - intros w x p Hx Hin. unfold put_task in *; cbn in *.
    rewrite Hworkers in Hx. rewrite Htasks, length_insert.
    by apply (Hq w x p).
  - intros w x Hr Hx. unfold put_task in *; cbn in *.
    rewrite Hworkers in Hx. by apply (Hk w x).
Qed.

Lemma alive_fill (o : options) (now : Z) (w : nat) (queue : list item) :
  (1 ≤ maxRetries o)%nat →
  ∀ st, alive_but (Some w) st → alive_but (Some w) (fill o now w queue st).
Proof.
  intros Hmax. induction queue as [|x rest IH]; intros st Hst; [done |].
  cbn [fill].
  destruct (length (tasks_of st w) <? concurrentPerSession o)%nat; [| done].
  destruct (truthy x);
    [| apply IH; destruct Hst as [Hp Hq Hk]; by split].
  unfold processNumber.
  set (st2 := set_processing _ (set_workQueue rest st)).
  pose proof (attempt_advances o now (Task (session_of st2 w) x (Backoff 0) 0 0)
                0 st2 eq_refl (le_n 0) (or_intror eq_refl)) as Hadv.
  pose proof (clears_attempt o now (Task (session_of st2 w) x (Backoff 0) 0 0)
                0 st2 Hmax) as Hcl.
  destruct (attempt o now (Task (session_of st2 w) x (Backoff 0) 0 0) 0 st2)
    as [t' st3].
  destruct Hadv as (Hnum & Htasks & Hworkers & _).
  unfold clears in Hcl. cbn in Hnum, Htasks, Hworkers, Hcl.
  apply IH. destruct Hst as [Hp Hq Hk].
  apply alive_set_concurrentTasks.
  - split.
    + intros y Hy. cbn in Hy |- *. rewrite Hcl in Hy. rewrite Htasks.
      assert (Hold : y ∈ processing st →
                ∃ tid t, (tasks st ++ [t']) !! tid = Some t ∧
                  numberObj t = y ∧ is_settled t = false).
      { intros Hy'. destruct (Hp y Hy') as (tid' & t0 & Ht0 & Hn0 & Hun0).
        exists tid', t0. split_and!; [| done | done].
        by apply lookup_app_l_Some. }
      destruct (is_settled t') eqn:Hs.
      * apply elem_of_difference in Hy as [Hy Hne].
        apply elem_of_union in Hy as [Hy|Hy]; [done | by apply Hold].
      * apply elem_of_union in Hy as [Hy|Hy]; [| by apply Hold].
        apply elem_of_singleton in Hy as ->.
        exists (length (tasks st)), t'.
        split_and!; [by apply list_lookup_middle | done | done].
    + intros w' y p Hy Hin. cbn in Hy |- *. rewrite Hworkers in Hy.
      rewrite Htasks, length_app. pose proof (Hq w' y p Hy Hin). lia.
    + intros w' y Hr Hy. cbn in Hy. rewrite Hworkers in Hy.
      by apply (Hk w' y).
  - intros p Hin. cbn. rewrite Htasks, length_app. cbn.
    apply elem_of_app in Hin as [Hin|Hin].
    + unfold tasks_of in Hin. cbn in Hin. rewrite Hworkers in Hin.
      destruct (workers st !! w) as [x0|] eqn:Hx0;
        [| by apply elem_of_nil in Hin].
      pose proof (Hq w x0 p Hx0 Hin). lia.
    + apply list_elem_of_singleton in Hin as ->. rewrite Htasks. lia.
Qed.

Lemma alive_iterate (o : options) (now : Z) (w : nat) (st : state) :
  (1 ≤ maxRetries o)%nat →
  alive_but (Some w) st → alive (iterate o now w st).
Proof.
  intros Hmax Hst. unfold iterate.
  destruct (negb (queue_empty st) || negb (none_processing st)).
  - pose proof (alive_fill o now w (workQueue st) Hmax st Hst) as H1.
    cbv zeta. set (st1 := fill o now w (workQueue st) st) in *.
    destruct (tasks_of st1 w) eqn:E;
      [| apply alive_set_pc; [done | by rewrite E]].
    destruct (queue_empty st1 && negb (none_processing st1));
      [by apply alive_set_pc |].
    destruct (negb (queue_empty st1)); by apply alive_set_pc.
  - unfold leave_loop. destruct (tasks_of st w); by apply alive_set_pc.
Qed.

Lemma alive_loop_head (o : options) (now : Z) (w : nat) (st : state) :
  (1 ≤ maxRetries o)%nat →
  alive_but (Some w) st → alive (loop_head o now w st).
Proof.
  intros Hmax Hst. unfold loop_head. cbv zeta.
  pose proof (alive_iterate o now w st Hmax Hst) as H1.
  destruct (pc_of (iterate o now w st) w); try done.
  by apply alive_iterate, alive_open.
Qed.

Lemma alive_end_of_body (o : options) (now : Z) (w : nat) (st : state) :
  (1 ≤ maxRetries o)%nat →
  alive_but (Some w) st → alive (end_of_body o now w st).
Proof.
  intros Hmax Hst. unfold end_of_body. destruct (negb (queue_empty st)).
  - by apply alive_set_pc.
  - by apply alive_loop_head.
Qed.

Lemma tasks_of_set_concurrentTasks (st : state) (w : nat) (l : list nat)
    (x : worker) :
  workers st !! w = Some x → tasks_of (set_concurrentTasks w l st) w = l.
Proof.
  intros Hx. unfold tasks_of, set_concurrentTasks; cbn.
  by rewrite list_lookup_alter_eq, Hx.
Qed.

Lemma alive_step (o : options) (tr : transport) (n : nat)
    (numbers : list item) (l : label) (st st' : state) :
  (1 ≤ maxRetries o)%nat →
  inv o n numbers st → alive st → step o tr l st = Some st' → alive st'.
Proof.
  intros Hmax Hinv Hst Hstep. unfold step in Hstep.
  destruct (act l) as [w|w b|tid|tid].
  - unfold resume in Hstep. destruct (pc_of st w) eqn:E; try done.
    + apply (inj Some) in Hstep as <-. by apply alive_loop_head, alive_open.
    + destruct (existsb _ _); [| done].
      destruct (length (tasks_of st w)) eqn:Hlen; [done |].
      apply (inj Some) in Hstep as <-.
      apply alive_set_pc; [by apply alive_open | lia].
    + apply (inj Some) in Hstep as <-.
      by apply alive_end_of_body, alive_open.
    + apply (inj Some) in Hstep as <-. by apply alive_loop_head, alive_open.
    + destruct (forallb _ _); [| done].
      apply (inj Some) in Hstep as <-.
      apply alive_set_pc; [by apply alive_open | done].
  - unfold resolved in Hstep. destruct (pc_of st w) eqn:E; try done.
    destruct (tasks_of st w !! i) as [p|] eqn:Hi; [| done].
    destruct (if b then task_settled st p else negb settled_at_call);
      [| done].
    assert (Hx : ∃ x, workers st !! w = Some x).
    { unfold tasks_of in Hi. destruct (workers st !! w); [eauto | done]. }
    destruct Hx as [x Hx].
    pose proof (lookup_lt_Some _ _ _ Hi) as Hlt.
    set (st1 := if b then set_concurrentTasks w (splice1 i (tasks_of st w)) st
                else st) in *.
    assert (Hst1 : alive_but (Some w) st1).
    { subst st1. destruct b; [| by apply alive_open].
      apply alive_set_concurrentTasks; [by apply alive_open |].
      intros q Hq. unfold splice1 in Hq.
      assert (Hq' : q ∈ tasks_of st w).
      { by apply list_elem_of_delete_inv in Hq. }
      rewrite (tasks_of_Some st w x Hx) in Hq'.
      exact (alive_promises _ _ Hst w x q Hx Hq'). }
    destruct i as [|i']; apply (inj Some) in Hstep as <-.
    + by apply alive_end_of_body.
    + apply alive_set_pc; [done |]. subst st1. destruct b; [| lia].
      rewrite (tasks_of_set_concurrentTasks st w _ x Hx).
      unfold splice1. rewrite length_delete by (by rewrite Hi). lia.
  - unfold settle in Hstep.
    destruct (tasks st !! tid) as [t|] eqn:Ht; [| done].
    pose proof (Forall_lookup_1 _ _ _ _ (inv_tasks _ _ _ _ Hinv) Ht) as Hok.
    destruct (pc t) as [retries call wid| |] eqn:Hpc; try done.
    destruct (tr _ call wid) as [b|err]; apply (inj Some) in Hstep as <-.
    + apply (alive_put_task o None tid t st); [done | done | |].
      * by apply on_success_advances with retries call.
      * apply clears_on_success.
    + apply (alive_put_task o None tid t st); [done | done | |].
      * unfold task_ok in Hok. rewrite Hpc in Hok.
        destruct Hok as (? & ? & ?). by apply on_error_advances.
      * apply clears_on_error.
  - unfold wake in Hstep.
    destruct (tasks st !! tid) as [t|] eqn:Ht; [| done].
    pose proof (Forall_lookup_1 _ _ _ _ (inv_tasks _ _ _ _ Hinv) Ht) as Hok.
    destruct (pc t) as [| retries |] eqn:Hpc; try done.
    apply (inj Some) in Hstep as <-.
    unfold task_ok in Hok. rewrite Hpc in Hok. destruct Hok as (? & ? & ?).
    apply (alive_put_task o None tid t st); [done | done | |].
    + apply attempt_advances; [done | done | by left].
    + by apply clears_attempt.
Qed.

Lemma alive_exec (o : options) (tr : transport) (n : nat)
    (numbers : list item) (ls : list label) :
  (1 ≤ maxRetries o)%nat →
  ∀ st st', inv o n numbers st → alive st → exec o tr ls st = Some st' →
    alive st'.
Proof.
  intros Hmax.
  induction ls as [|l ls IH]; intros st st' Hinv Hst Hrun; cbn in Hrun.
  - by apply (inj Some) in Hrun as <-.
  - destruct (step o tr l st) as [st1|] eqn:Hstep; [| done].
    apply (IH st1); [| | done].
    + by apply (step_inv o tr n numbers l st).
    + by apply (alive_step o tr n numbers l st).
Qed.

Lemma alive_validateBatch (o : options) (now : Z) (ss : list session)
    (numbers : list item) :
  (1 ≤ maxRetries o)%nat → alive (validateBatch o now ss numbers).
Proof.
  intros Hmax. unfold validateBatch. cbv zeta.
  set (ws := (λ s, Worker s [] AtLoop) <$> seq 0 (length ss)).
  assert (Hws : ∀ w x, ws !! w = Some x →
            concurrentTasks x = [] ∧ at_pc x = AtLoop).
  { intros w x Hx. subst ws. rewrite list_lookup_fmap in Hx.
    destruct (seq 0 (length ss) !! w); by simplify_eq/=. }
  generalize (seq 0 (length ss)). intros l.
  match goal with |- alive (foldl _ ?s l) => assert (Hst : alive s) end.
  { split.
    - intros x Hx. cbn in Hx. by apply elem_of_empty in Hx.
    - intros w x p Hx Hin. cbn in Hx. destruct (Hws w x Hx) as [Hnil _].
      rewrite Hnil in Hin. by apply elem_of_nil in Hin.
    - intros w x _ Hx. cbn in Hx. destruct (Hws w x Hx) as [_ Hpc].
      unfold pc_ok. by rewrite Hpc. }
  revert Hst. generalize (set_workers ws
    (set_workQueue numbers
       (set_stats (Statistics (length numbers) 0 0 0 (Some now) None)
          (initialized ss)))).
  induction l as [|w l IH]; intros st Hst; [done |].
  cbn [foldl]. apply IH. by apply alive_loop_head, alive_open.
Qed.
(** *** Every step of the schedule goes down *)

Lemma work_on_success (o : options) (now : Z) (t : task) (wid : string)
    (b : bool) (st : state) :
  task_work o (on_success now t wid b st).1 = 0%nat.
Proof. unfold on_success. by destruct b. Qed.

Lemma work_on_error (o : options) (now : Z) (t : task) (retries : nat)
    (err : Eff.error) (st : state) :
  (task_work o (on_error o now t retries err st).1
   ≤ 2 * (maxRetries o - S retries) + 1)%nat.
Proof.
  unfold on_error. destruct (maxRetries o <=? S retries)%nat;
    unfold task_work; cbn; lia.
Qed.

Lemma work_attempt (o : options) (now : Z) (t : task) (retries : nat)
    (st : state) :
  (retries < maxRetries o)%nat →
  (task_work o (attempt o now t retries st).1
   ≤ 2 * (maxRetries o - retries))%nat.
Proof.
  intros Hlt. unfold attempt. rewrite (proj2 (Nat.ltb_lt _ _) Hlt).
  destruct (number_of (numberObj t)).
  - unfold task_work; cbn. lia.
  - pose proof (work_on_error o now t retries Eff.not_a_function st). lia.
Qed.

Lemma smaller_put_task (o : options) (tid : nat) (t : task) (st : state)
    (ts : task * state) :
  tasks st !! tid = Some t → advances o t st ts →
  (task_work o ts.1 < task_work o t)%nat →
  smaller o (put_task tid ts) st.
Proof.
  intros Ht (_ & Htasks & _ & Hwq & _) Hlt. right.
  split; [unfold put_task; cbn; by rewrite Hwq |]. left.
  unfold put_task; cbn. rewrite Htasks, list_fmap_insert.
  pose proof (sum_list_insert (task_work o <$> tasks st) tid (task_work o t)
                (task_work o ts.1)) as Hsum.
  rewrite list_lookup_fmap, Ht in Hsum. specialize (Hsum eq_refl). lia.
Qed.

Lemma smaller_set_pc (o : options) (w : nat) (x : worker) (p : worker_pc)
    (st : state) :
  workers st !! w = Some x → (pc_work p < pc_work (at_pc x))%nat →
  smaller o (set_pc w p st) st.
Proof.
  intros Hx Hlt. right. split; [done |]. right. split; [done |].
  unfold set_pc; cbn.
  pose proof (sum_list_alter worker_work
                (λ x, Worker (driven x) (concurrentTasks x) p)
                (workers st) w x Hx) as Hsum.
  unfold worker_work at 2 4 in Hsum. cbn in Hsum. lia.
Qed.

Lemma smaller_set_worker (o : options) (w : nat) (x : worker)
    (l : list nat) (p : worker_pc) (st : state) :
  workers st !! w = Some x →
  (7 * length l + pc_work p < worker_work x)%nat →
  smaller o (set_pc w p (set_concurrentTasks w l st)) st.
Proof.
  intros Hx Hlt. right. split; [done |]. right. split; [done |].
  unfold set_pc, set_concurrentTasks; cbn.
  pose proof (sum_list_alter worker_work
                (λ x, Worker (driven x) l (at_pc x))
                (workers st) w x Hx) as H1.
  pose proof (sum_list_alter worker_work
                (λ x, Worker (driven x) (concurrentTasks x) p)
                (alter (λ x, Worker (driven x) l (at_pc x)) w (workers st))
                w (Worker (driven x) l (at_pc x))) as H2.
  rewrite list_lookup_alter_eq, Hx in H2. specialize (H2 eq_refl).
  unfold worker_work at 2 4 in H1. unfold worker_work at 2 4 in H2.
  cbn in H1, H2. unfold worker_work in Hlt. lia.
Qed.

Lemma leave_loop_work (w : nat) (st : state) :
  ∃ p, leave_loop w st = set_pc w p st ∧ (pc_work p ≤ 1)%nat.
Proof.
  unfold leave_loop. destruct (tasks_of st w).
  - exists Finished. split; [done | cbn; lia].
  - exists AwaitAll. split; [done | cbn; lia].
Qed.

Lemma iterate_quiet_empty (o : options) (now : Z) (w : nat) (st : state) :
  workQueue st = [] → processing st = ∅ →
  iterate o now w st = leave_loop w st.
Proof.
  intros Hq Hp. unfold iterate, queue_empty, none_processing.
  by rewrite !bool_decide_eq_true_2 by done.
Qed.

Lemma loop_head_quiet_empty (o : options) (now : Z) (w : nat) (x : worker)
    (st : state) :
  workQueue st = [] → processing st = ∅ → workers st !! w = Some x →
  loop_head o now w st = leave_loop w st.
Proof.
  intros Hq Hp Hx. unfold loop_head. cbv zeta.
  rewrite (iterate_quiet_empty o now w st Hq Hp).
  unfold leave_loop.
  destruct (tasks_of st w); by rewrite pc_of_set_pc, decide_True, Hx.
Qed.

Lemma end_of_body_quiet (o : options) (now : Z) (w : nat) (x : worker)
    (st : state) :
  processing st = ∅ → workers st !! w = Some x →
  ∃ p, end_of_body o now w st = set_pc w p st ∧ (pc_work p ≤ 4)%nat.
Proof.
  intros Hp Hx. unfold end_of_body, queue_empty.
  destruct (decide (workQueue st = [])) as [Hq|Hq].
  - rewrite bool_decide_eq_true_2 by done. cbn [negb].
    rewrite (loop_head_quiet_empty o now w x st Hq Hp Hx).
    destruct (leave_loop_work w st) as (p & -> & Hle).
    exists p. split; [done | lia].
  - rewrite bool_decide_eq_false_2 by done. cbn [negb].
    exists AwaitPause. split; [done | cbn; lia].
Qed.

Lemma fill_queue (o : options) (now : Z) (w : nat) (queue : list item) :
  ∀ st, workQueue st = queue →
    (length (workQueue (fill o now w queue st)) ≤ length queue)%nat ∧
    ((length (tasks_of st w) <? concurrentPerSession o)%nat = true →
     queue ≠ [] →
     (length (workQueue (fill o now w queue st)) < length queue)%nat).
Proof.
  induction queue as [|x rest IH]; intros st Hq.
  - cbn. rewrite Hq. split; [done | by intros _ ?].
  - cbn [fill].
    destruct (length (tasks_of st w) <? concurrentPerSession o)%nat;
      [| rewrite Hq; split; [done | by intros ?]].
    assert (Hgo : (length (workQueue
              (if truthy x
               then let st0 := set_processing
                                 ({[x]} ∪ processing (set_workQueue rest st))
                                 (set_workQueue rest st) in
                    let '(p, st1) := processNumber o now (session_of st0 w) x
                                       st0 in
                    fill o now w rest
                      (set_concurrentTasks w (tasks_of st1 w ++ [p]) st1)
               else fill o now w rest (set_workQueue rest st)))
            ≤ length rest)%nat).
    { destruct (truthy x); [| by apply (IH (set_workQueue rest st))].
      cbv zeta. unfold processNumber.
      set (st2 := set_processing _ (set_workQueue rest st)).
      pose proof (attempt_advances o now
                    (Task (session_of st2 w) x (Backoff 0) 0 0)
                    0 st2 eq_refl (le_n 0) (or_intror eq_refl)) as Hadv.
      destruct (attempt o now (Task (session_of st2 w) x (Backoff 0) 0 0)
                  0 st2) as [t' st3].
      destruct Hadv as (_ & _ & _ & Hwq & _). cbn in Hwq.
      apply IH. cbn. exact Hwq. }
    cbv zeta in Hgo. cbn [length]. split; [lia | intros _ _; lia].
Qed.

Lemma iterate_queue (o : options) (now : Z) (w : nat) (st : state) :
  (length (workQueue (iterate o now w st)) ≤ length (workQueue st))%nat.
Proof.
  unfold iterate.
  destruct (negb (queue_empty st) || negb (none_processing st)).
  - cbv zeta.
    pose proof (proj1 (fill_queue o now w (workQueue st) st eq_refl)) as H1.
    set (st1 := fill o now w (workQueue st) st) in *.
    destruct (tasks_of st1 w); [| done].
    destruct (queue_empty st1 && negb (none_processing st1)); [done |].
    by destruct (negb (queue_empty st1)).
  - unfold leave_loop. by destruct (tasks_of st w).
Qed.

Lemma loop_head_progress (o : options) (now : Z) (w : nat) (x : worker)
    (st : state) :
  (1 ≤ concurrentPerSession o)%nat →
  processing st = ∅ → workers st !! w = Some x →
  (length (workQueue (loop_head o now w st)) < length (workQueue st))%nat ∨
  ∃ p, loop_head o now w st = set_pc w p st ∧ (pc_work p ≤ 3)%nat.
Proof.
  intros Hcps Hp Hx.
  destruct (decide (workQueue st = [])) as [Hq|Hq].
  { right. rewrite (loop_head_quiet_empty o now w x st Hq Hp Hx).
    destruct (leave_loop_work w st) as (p & -> & Hle).
    exists p. split; [done | lia]. }
  assert (Hcond : negb (queue_empty st) || negb (none_processing st) = true).
  { unfold queue_empty. by rewrite bool_decide_eq_false_2 by done. }
  destruct (length (tasks_of st w) <? concurrentPerSession o)%nat eqn:Hlt.
  - left. unfold loop_head. cbv zeta.
    assert (H1 : (length (workQueue (iterate o now w st))
                  < length (workQueue st))%nat).
    { unfold iterate. rewrite Hcond. cbv zeta.
      pose proof (proj2 (fill_queue o now w (workQueue st) st eq_refl) Hlt Hq)
        as H1.
      set (st1 := fill o now w (workQueue st) st) in *.
      destruct (tasks_of st1 w); [| done].
      destruct (queue_empty st1 && negb (none_processing st1)); [done |].
      by destruct (negb (queue_empty st1)). }
    destruct (pc_of (iterate o now w st) w); try done.
    pose proof (iterate_queue o now w (iterate o now w st)). lia.
  - right. exists AwaitRace. split; [| cbn; lia].
    assert (Hit : iterate o now w st = set_pc w AwaitRace st).
    { unfold iterate. rewrite Hcond. cbv zeta.
      destruct (workQueue st) as [|y rest] eqn:E; [done |].
      cbn [fill]. rewrite Hlt.
      destruct (tasks_of st w) eqn:Et; [| done].
      apply Nat.ltb_ge in Hlt. cbn in Hlt. lia. }
    unfold loop_head. cbv zeta.
    by rewrite Hit, pc_of_set_pc, decide_True, Hx.
Qed.

Lemma quiet_processing (st : state) :
  alive st → Forall (λ t, is_settled t = true) (tasks st) →
  processing st = ∅.
Proof.
  intros [Hp _ _] Hall. apply elem_of_equiv_empty_L. intros x Hx.
  destruct (Hp x Hx) as (tid & t & Ht & _ & Hun).
  pose proof (Forall_lookup_1 _ _ _ _ Hall Ht) as Hs. cbv beta in Hs.
  congruence.
Qed.

Lemma quiet_promises (st : state) (w : nat) (x : worker) :
  alive st → Forall (λ t, is_settled t = true) (tasks st) →
  workers st !! w = Some x →
  ∀ p, p ∈ concurrentTasks x → task_settled st p = true.
Proof.
  intros [_ Hq _] Hall Hx p Hin.
  pose proof (Hq w x p Hx Hin) as Hlt.
  destruct (lookup_lt_is_Some_2 _ _ Hlt) as [t Ht].
  unfold task_settled. rewrite Ht.
  exact (Forall_lookup_1 _ _ _ _ Hall Ht).
Qed.

Lemma forallb_false_lookup {A} (f : A → bool) (l : list A) :
  forallb f l = false → ∃ i x, l !! i = Some x ∧ f x = false.
Proof.
  induction l as [|a l IH]; [done |]. cbn [forallb]. intros H.
  apply andb_false_iff in H as [H|H].
  - by exists 0%nat, a.
  - destruct (IH H) as (i & x & Hi & Hx). by exists (S i), x.
Qed.

Lemma unfinished_worker (st : state) :
  completed st = false →
  ∃ w x, workers st !! w = Some x ∧ at_pc x ≠ Finished.
Proof.
  intros Hc. apply forallb_false_lookup in Hc as (w & x & Hx & Hf).
  exists w, x. split; [done |]. intros E. by rewrite E in Hf.
Qed.

(** A run that is not completed can take a step that goes down: an
    invocation of [processNumber] that has not returned goes on; when
    all have returned, a worker that is not finished goes on, with the
    answer [true] of [isPromiseResolved] for the settled promises. *)
Lemma progress (o : options) (tr : transport) (n : nat)
    (numbers : list item) (st : state) :
  (1 ≤ maxRetries o)%nat → (1 ≤ concurrentPerSession o)%nat →
  inv o n numbers st → alive st → completed st = false →
  ∃ l st', step o tr l st = Some st' ∧ smaller o st' st.
Proof.
  intros Hmax Hcps Hinv Hst Hc.
  destruct (decide (Forall (λ t, is_settled t = true) (tasks st)))
    as [Hall|Hnot].
  2: { apply not_Forall_Exists in Hnot; [| intros ?; apply _].
       apply Exists_exists in Hnot as (t & Hin & Hun).
       apply list_elem_of_lookup in Hin as [tid Ht].
       apply not_true_is_false in Hun.
       pose proof (Forall_lookup_1 _ _ _ _ (inv_tasks _ _ _ _ Hinv) Ht) as Hok.
       unfold task_ok in Hok.
       destruct (pc t) as [retries call wid|retries|r] eqn:Hpc.
       - destruct Hok as (Hr & Hlt & Hiss).
         exists (Label 0 (Settle tid)). unfold step, settle; cbn.
         rewrite Ht, Hpc.
         destruct (tr _ call wid) as [b|err]; eexists; (split; [done |]).
         + apply (smaller_put_task o tid t st); [done | |].
           * apply on_success_advances with retries call; [done |].
             unfold task_ok. by rewrite Hpc.
           * rewrite work_on_success. unfold task_work. rewrite Hpc. lia.
         + apply (smaller_put_task o tid t st); [done | |].
           * by apply on_error_advances.
           * pose proof (work_on_error o 0 t retries err st).
             unfold task_work at 2. rewrite Hpc. lia.
       - destruct Hok as (Hr & Hlt & Hiss).
         exists (Label 0 (Wake tid)). unfold step, wake; cbn.
         rewrite Ht, Hpc. eexists; split; [done |].
         apply (smaller_put_task o tid t st); [done | |].
         + apply attempt_advances; [done | done | by left].
         + pose proof (work_attempt o 0 t retries st Hlt).
           unfold task_work at 2. rewrite Hpc. lia.
       - unfold is_settled in Hun. by rewrite Hpc in Hun. }
  pose proof (quiet_processing st Hst Hall) as Hproc.
  destruct (unfinished_worker st Hc) as (w & x & Hx & Hne).
  pose proof (quiet_promises st w x Hst Hall Hx) as Hsettled.
  pose proof (alive_pcs _ _ Hst w x (λ H, match H with end) Hx) as Hok.
  pose proof (pc_of_at st w x Hx) as Hpc.
  pose proof (tasks_of_Some st w x Hx) as Hts.
  unfold pc_ok in Hok.
  destruct (at_pc x) as [| |i sc| | | |] eqn:Hat; [| | | | | | done].
  - (* at the loop test *)
    exists (Label 0 (Resume w)). unfold step, resume; cbn. rewrite Hpc.
    eexists; split; [done |].
    destruct (loop_head_progress o 0 w x st Hcps Hproc Hx)
      as [Hlt|(p & -> & Hle)]; [by left |].
    apply (smaller_set_pc o w x); [done |]. rewrite Hat. cbn. lia.
  - (* the race *)
    exists (Label 0 (Resume w)). unfold step, resume; cbn. rewrite Hpc, Hts.
    destruct (concurrentTasks x) as [|p l] eqn:El; [done |].
    assert (Hex : existsb (task_settled st) (p :: l) = true).
    { cbn. rewrite (Hsettled p); [done | by left]. }
    rewrite Hex. cbn [length]. eexists; split; [done |].
    apply (smaller_set_pc o w x); [done |]. rewrite Hat. cbn. lia.
  - (* the removal loop *)
    destruct (lookup_lt_is_Some_2 _ _ Hok) as [p Hi].
    exists (Label 0 (Resolved w true)). unfold step, resolved; cbn.
    rewrite Hpc, Hts, Hi.
    rewrite (Hsettled p) by (by eapply list_elem_of_lookup_2).
    unfold splice1.
    pose proof (length_delete (concurrentTasks x) i (mk_is_Some _ _ Hi))
      as Hlen.
    destruct i as [|i']; eexists; (split; [done |]).
    + destruct (end_of_body_quiet o 0 w
                  (Worker (driven x) (delete 0%nat (concurrentTasks x)) (at_pc x))
                  (set_concurrentTasks w (delete 0%nat (concurrentTasks x)) st))
        as (q & -> & Hle).
      * exact Hproc.
      * unfold set_concurrentTasks; cbn.
        by rewrite list_lookup_alter_eq, Hx.
      * apply (smaller_set_worker o w x); [done |].
        unfold worker_work. rewrite Hat. cbn [pc_work]. lia.
    + apply (smaller_set_worker o w x); [done |].
      unfold worker_work. rewrite Hat. cbn [pc_work]. lia.
  - (* the idle delay *)
    exists (Label 0 (Resume w)). unfold step, resume; cbn. rewrite Hpc.
    eexists; split; [done |].
    destruct (end_of_body_quiet o 0 w x st Hproc Hx) as (q & -> & Hle).
    apply (smaller_set_pc o w x); [done |]. rewrite Hat. cbn. lia.
  - (* the pause *)
    exists (Label 0 (Resume w)). unfold step, resume; cbn. rewrite Hpc.
    eexists; split; [done |].
    destruct (loop_head_progress o 0 w x st Hcps Hproc Hx)
      as [Hlt|(p & -> & Hle)]; [by left |].
    apply (smaller_set_pc o w x); [done |]. rewrite Hat. cbn. lia.
  - (* Promise.all *)
    exists (Label 0 (Resume w)). unfold step, resume; cbn. rewrite Hpc, Hts.
    assert (Hfa : forallb (task_settled st) (concurrentTasks x) = true).
    { apply forallb_forall. intros p Hin. apply Hsettled.
      by apply list_elem_of_In. }
    rewrite Hfa. eexists; split; [done |].
    apply (smaller_set_pc o w x); [done |]. rewrite Hat. cbn. lia.
Qed.

Lemma completes (o : options) (tr : transport) (n : nat)
    (numbers : list item) :
  (1 ≤ maxRetries o)%nat → (1 ≤ concurrentPerSession o)%nat →
  ∀ st, inv o n numbers st → alive st →
    ∃ ls st', exec o tr ls st = Some st' ∧ completed st' = true.
Proof.
  intros Hmax Hcps st. induction st as [st IH] using (smaller_ind o).
  intros Hinv Hst. destruct (completed st) eqn:Hc.
  - by exists [], st.
  - destruct (progress o tr n numbers st Hmax Hcps Hinv Hst Hc)
      as (l & st1 & Hstep & Hlt).
    destruct (IH st1 Hlt) as (ls & st' & Hrun & Hdone).
    + by apply (step_inv o tr n numbers l st).
    + by apply (alive_step o tr n numbers l st).
    + exists (l :: ls), st'. cbn. by rewrite Hstep.
Qed.
End OptimizedLive.

Module OptimizedLiveProps.
Import Input Optimized OptimizedFacts OptimizedBooks OptimizedLive.

(** X22.  The scheduler of the optimized validator cannot deadlock.
    With [maxRetries] and [concurrentPerSession] at least one, every
    state that a run of [validateBatch] reaches has a continuation
    after which all workers have returned, so that [validateBatch]
    reports completion.  In the continuation the pending transport
    calls and retry delays end first; then the workers are resumed,
    and [isPromiseResolved] answers [true] for their settled
    promises. *)
Theorem run_can_always_complete (o : options) (tr : transport) (now : Z)
    (ss : list session) (numbers : list item) (ls : list label) (st : state) :
  (1 ≤ maxRetries o)%nat → (1 ≤ concurrentPerSession o)%nat →
  exec o tr ls (validateBatch o now ss numbers) = Some st →
  ∃ ls' st', exec o tr ls' st = Some st' ∧ completed st' = true.
Proof.
  intros Hmax Hcps Hrun.
  apply (completes o tr (length ss) numbers Hmax Hcps).
  - eapply exec_inv; [apply validateBatch_inv | exact Hrun].
  - eapply alive_exec;
      [done | apply validateBatch_inv | by apply alive_validateBatch |
       exact Hrun].
Qed.

Lemma run_can_always_complete_witness :
  ∃ ls' st',
    exec default_options flaky ls'
      (validateBatch default_options 0 one_session three_items) = Some st' ∧
    completed st' = true.
Proof.
  apply (run_can_always_complete default_options flaky 0 one_session
           three_items [] _).
  - vm_compute. lia.
  - vm_compute. lia.
  - reflexivity.
Defined.
End OptimizedLiveProps.

(** ** [concurrentPerSession] zero *)
Module OptimizedStarved.
Import Input Optimized OptimizedFacts.

Lemma starved_set_pc (numbers : list item) (w : nat) (st : state) :
  starved numbers st → starved numbers (set_pc w AwaitPause st).
Proof.
  intros [Hq Ht Hr Hc Hw]. split; try done.
  unfold set_pc; cbn. apply Forall_alter; [done |].
  intros x _ [Hnil _]. cbn. split; [done | by right].
Qed.

Lemma starved_tasks_of (numbers : list item) (w : nat) (st : state) :
  starved numbers st → tasks_of st w = [].
Proof.
  intros Hst. unfold tasks_of.
  destruct (workers st !! w) as [x|] eqn:Hx; [| done].
  by destruct (Forall_lookup_1 _ _ _ _ (starved_workers _ _ Hst) Hx).
Qed.

Lemma starved_loop_head (o : options) (now : Z) (numbers : list item)
    (w : nat) (st : state) :
  concurrentPerSession o = 0%nat → numbers ≠ [] → starved numbers st →
  loop_head o now w st = set_pc w AwaitPause st.
Proof.
  intros Hcps Hne Hst.
  pose proof (starved_queue _ _ Hst) as Hq.
  assert (Hqe : queue_empty st = false).
  { unfold queue_empty. rewrite bool_decide_eq_false_2; [done |].
    by rewrite Hq. }
  assert (Hit : iterate o now w st = set_pc w AwaitPause st).
  { unfold iterate. rewrite Hqe. cbn [negb orb]. cbv zeta.
    assert (Hfill : fill o now w (workQueue st) st = st).
    { destruct (workQueue st) as [|x rest]; [done |]. cbn [fill].
      by rewrite Hcps, (starved_tasks_of numbers w st Hst). }
    rewrite Hfill, (starved_tasks_of numbers w st Hst), Hqe. done. }
  unfold loop_head. cbv zeta. rewrite Hit, pc_of_set_pc, decide_True by done.
  by destruct (workers st !! w).
Qed.

Lemma starved_step (o : options) (tr : transport) (numbers : list item)
    (l : label) (st st' : state) :
  concurrentPerSession o = 0%nat → numbers ≠ [] → starved numbers st →
  step o tr l st = Some st' → starved numbers st'.
Proof.
  intros Hcps Hne Hst Hstep. unfold step in Hstep.
  assert (Hpc : ∀ w, pc_of st w = AtLoop ∨ pc_of st w = AwaitPause
                     ∨ pc_of st w = Finished).
  { intros w. unfold pc_of.
    destruct (workers st !! w) as [x|] eqn:Hx; [| tauto].
    destruct (Forall_lookup_1 _ _ _ _ (starved_workers _ _ Hst) Hx)
      as [_ [H|H]]; tauto. }
  destruct (act l) as [w|w b|tid|tid].
  - unfold resume in Hstep.
    destruct (Hpc w) as [E|[E|E]]; rewrite E in Hstep; [| | done];
      apply (inj Some) in Hstep as <-;
      rewrite (starved_loop_head o _ numbers w st Hcps Hne Hst);
      by apply starved_set_pc.
  - unfold resolved in Hstep.
    by destruct (Hpc w) as [E|[E|E]]; rewrite E in Hstep.
  - unfold settle in Hstep. by rewrite (starved_tasks _ _ Hst) in Hstep.
  - unfold wake in Hstep. by rewrite (starved_tasks _ _ Hst) in Hstep.
Qed.

Lemma starved_exec (o : options) (tr : transport) (numbers : list item)
    (ls : list label) :
  concurrentPerSession o = 0%nat → numbers ≠ [] →
  ∀ st st', starved numbers st → exec o tr ls st = Some st' →
    starved numbers st'.
Proof.
  intros Hcps Hne.
  induction ls as [|l ls IH]; intros st st' Hst Hrun; cbn in Hrun.
  - by apply (inj Some) in Hrun as <-.
  - destruct (step o tr l st) as [st1|] eqn:Hstep; [| done].
    apply (IH st1); [| done]. by apply (starved_step o tr numbers l st).
Qed.

Lemma starved_validateBatch (o : options) (now : Z) (ss : list session)
    (numbers : list item) :
  concurrentPerSession o = 0%nat → numbers ≠ [] →
  starved numbers (validateBatch o now ss numbers).
Proof.
  intros Hcps Hne. unfold validateBatch. cbv zeta.
  set (ws := (λ s, Worker s [] AtLoop) <$> seq 0 (length ss)).
  generalize (seq 0 (length ss)). intros l.
  match goal with |- starved _ (foldl _ ?s l) =>
    assert (Hst : starved numbers s) end.
  { split; try done. cbn. subst ws. apply Forall_fmap, Forall_true.
    intros s. cbn. split; [done | by left]. }
  revert Hst. generalize (set_workers ws
    (set_workQueue numbers
       (set_stats (Statistics (length numbers) 0 0 0 (Some now) None)
          (initialized ss)))).
  induction l as [|w l IH]; intros st Hst; [done |].
  cbn [foldl]. apply IH.
  rewrite (starved_loop_head o now numbers w st Hcps Hne Hst).
  by apply starved_set_pc.
Qed.
End OptimizedStarved.

Module OptimizedStarvedProps.
Import Input Optimized OptimizedFacts OptimizedStarved.

(** X23.  A validator constructed with [concurrentPerSession: 0] keeps
    the zero (the spread of the given options overrides the default of
    10), and its [validateBatch] over a non-empty list with at least
    one session never completes: the workers take nothing off the
    queue, no transport call is made, no result is recorded, and no
    worker returns. *)
Theorem no_slots_never_completes (c : constructor_options)
    (tr : transport) (now : Z) (ss : list session) (numbers : list item) :
  given_concurrentPerSession c = Some 0%nat → ss ≠ [] → numbers ≠ [] →
  concurrentPerSession (constructor c) = 0%nat ∧
  ∀ ls st,
    exec (constructor c) tr ls (validateBatch (constructor c) now ss numbers)
    = Some st →
    completed st = false ∧ workQueue st = numbers ∧ tasks st = [] ∧
    results st = [] ∧ calls st = 0%nat.
Proof.
  intros Hgiven Hss Hne.
  assert (Hcps : concurrentPerSession (constructor c) = 0%nat).
  { unfold constructor; cbn. by rewrite Hgiven. }
  split; [exact Hcps |]. intros ls st Hrun.
  pose proof (starved_exec _ tr numbers ls Hcps Hne _ st
                (starved_validateBatch _ now ss numbers Hcps Hne) Hrun)
    as [Hq Ht Hr Hc Hw].
  pose proof (inv_workers _ _ _ _
                (exec_inv _ tr (length ss) numbers ls _ st
                   (validateBatch_inv _ now ss numbers) Hrun)) as Hlen.
  split_and!; try done.
  destruct (first_worker st) as [x0 Hx0]; [rewrite Hlen; by destruct ss |].
  destruct (completed st) eqn:Hdone; [| done].
  pose proof (completed_Finished st Hdone _ _ Hx0) as Hfin.
  destruct (Forall_lookup_1 _ _ _ _ Hw Hx0) as [_ [H|H]]; congruence.
Qed.

Lemma no_slots_never_completes_witness :
  ∃ st,
    exec no_slots flaky [Label 10 (Resume 0)]
      (validateBatch no_slots 0 one_session three_items) = Some st ∧
    completed st = false.
Proof.
  assert (Hrun : ∃ st,
            exec no_slots flaky [Label 10 (Resume 0)]
              (validateBatch no_slots 0 one_session three_items) = Some st).
  { eexists. vm_compute. reflexivity. }
  destruct Hrun as [st Hrun]. exists st. split; [exact Hrun |].
  refine (proj1 (proj2
    (no_slots_never_completes
       (ConstructorOptions None (Some 0%nat) None None None) flaky 0
       one_session three_items eq_refl _ _) _ st Hrun)); discriminate.
Defined.
End OptimizedStarvedProps.
